(** * exhafs_launch: the HAFS cycle launch script

  A shallow embedding of [scripts/exhafs_launch.py] and the properties of
  its control flow: command-line classification, resolution of the storms
  to launch, numbering of the launches, the per-storm artifacts and the
  ecFlow events signalled at the end.

  The script is glue code around collaborators that live elsewhere
  ([hafs.launcher], [produtil], the configuration object, the file
  system).  They are kept abstract: an interface record gives each one a
  type, every call threads an abstract [world] and may raise, and the
  script's own actions are collected in a trace of events. *)

From Stdlib Require Import String Ascii List Bool Arith ZArith Lia.
From Stdlib Require Import Sorted.
From Equations Require Import Equations.
From ExtLib Require Import Structures.Monad.
Import ListNotations.
Import MonadNotation.
Local Open Scope string_scope.
Local Open Scope list_scope.

Set Implicit Arguments.

(** String concatenation, Python's [+] on [str]. *)
Infix "^^" := String.append (at level 60, right associativity).

(** ** Python values used by the script *)

Module Py.

(** Exceptions that the script or the modules it calls can raise.
    [SystemExit] is what [sys.exit] raises; it derives from
    [BaseException], so an [except Exception] clause does not catch it. *)
Inductive exn : Type :=
| SystemExit (code : Z)
| GetoptError (msg : string)
| AttributeError (msg : string)
| AssertionError (msg : string)
| IndexError (msg : string)
| UnboundLocalError (msg : string)
| OtherError (msg : string).

(** [isinstance(e, Exception)] *)
Definition is_Exception (e : exn) : bool :=
  match e with
  | SystemExit _ => false
  | _ => true
  end.

(** [str(e)] *)
Definition str_of_exn (e : exn) : string :=
  match e with
  | SystemExit _ => ""
  | GetoptError m | AttributeError m | AssertionError m
  | IndexError m | UnboundLocalError m | OtherError m => m
  end.

(** Outcome of evaluating an expression or a call. *)
Inductive result (A : Type) : Type :=
| Ok (a : A)
| Raise (e : exn).
Arguments Ok {A} a.
Arguments Raise {A} e.

(** The double-quote character, for the few literals that contain it. *)
Definition dquote : string := String (ascii_of_nat 34) EmptyString.

(** [s.startswith(p)] *)
Definition startswith (s p : string) : bool := prefix p s.

(** [s.endswith("=")]-style test on the last character. *)
Fixpoint ends_with_char (c : ascii) (s : string) : bool :=
  match s with
  | EmptyString => false
  | String a EmptyString => Ascii.eqb a c
  | String _ rest => ends_with_char c rest
  end.

(** [s[:-1]] *)
Fixpoint drop_last (s : string) : string :=
  match s with
  | EmptyString => EmptyString
  | String _ EmptyString => EmptyString
  | String a rest => String a (drop_last rest)
  end.

(** [s[n:]] *)
Fixpoint drop (n : nat) (s : string) : string :=
  match n, s with
  | O, _ => s
  | S _, EmptyString => EmptyString
  | S n', String _ rest => drop n' rest
  end.

(** [s.index(c)] together with the two slices [s[:i]] and [s[i+1:]];
    [None] stands for the [ValueError] raised when [c] does not occur. *)
Fixpoint partition_at (c : ascii) (s : string) : option (string * string) :=
  match s with
  | EmptyString => None
  | String a rest =>
      if Ascii.eqb a c then Some (EmptyString, rest)
      else match partition_at c rest with
           | Some (l, r) => Some (String a l, r)
           | None => None
           end
  end.

(** [s.split(sep)] for a one-character separator: every occurrence
    splits, so the result has one more piece than there are separators. *)
Fixpoint split (sep : ascii) (s : string) : list string :=
  match s with
  | EmptyString => [EmptyString]
  | String a rest =>
      if Ascii.eqb a sep then EmptyString :: split sep rest
      else match split sep rest with
           | piece :: pieces => String a piece :: pieces
           | [] => [String a EmptyString]
           end
  end.

(** [c.upper()] on an ASCII character. *)
Definition upper_ascii (c : ascii) : ascii :=
  let n := nat_of_ascii c in
  if (Nat.leb 97 n && Nat.leb n 122)%bool then ascii_of_nat (n - 32) else c.

(** [s.upper()] on a string of ASCII characters.  Python also maps the
    letters outside ASCII, which this function leaves as they are: beyond
    comparisons with ASCII words it stands for [str.upper] on ASCII
    strings only (see [is_ascii]). *)
Fixpoint upper (s : string) : string :=
  match s with
  | EmptyString => EmptyString
  | String c rest => String (upper_ascii c) (upper rest)
  end.

(** [x in xs] for a list of strings. *)
Definition mem (x : string) (xs : list string) : bool :=
  existsb (String.eqb x) xs.

(** Truth value of a list: non-empty. *)
Definition truthy {A} (l : list A) : bool :=
  match l with
  | [] => false
  | _ :: _ => true
  end.

End Py.
Import Py.

(** ** [getopt.gnu_getopt] of the Python standard library

  The script hands [sys.argv[1:]] to [getopt.gnu_getopt]; the functions
  below follow [Lib/getopt.py] one by one. *)

Module Getopt.

Definition opt_list := list (string * string).

(** [short_has_arg(opt, shortopts)] *)
Fixpoint short_has_arg (opt : ascii) (shortopts : string) : result bool :=
  match shortopts with
  | EmptyString =>
      Raise (GetoptError ("option -" ^^ String opt "" ^^ " not recognized"))
  | String c rest =>
      if Ascii.eqb opt c && negb (Ascii.eqb c ":")
      then Ok (startswith rest ":")
      else short_has_arg opt rest
  end.

(** [do_shorts(opts, optstring, shortopts, args)] *)
Fixpoint do_shorts (opts : opt_list) (optstring shortopts : string)
         (args : list string) : result (opt_list * list string) :=
  match optstring with
  | EmptyString => Ok (opts, args)
  | String opt optstring' =>
      match short_has_arg opt shortopts with
      | Raise e => Raise e
      | Ok true =>
          match optstring' with
          | EmptyString =>
              match args with
              | [] => Raise (GetoptError
                               ("option -" ^^ String opt "" ^^ " requires argument"))
              | a :: args' => Ok (opts ++ [("-" ^^ String opt "", a)], args')
              end
          | _ => Ok (opts ++ [("-" ^^ String opt "", optstring')], args)
          end
      | Ok false =>
          do_shorts (opts ++ [("-" ^^ String opt "", "")]) optstring' shortopts args
      end
  end.

(** [long_has_args(opt, longopts)] *)
Definition long_has_args (opt : string) (longopts : list string)
  : result (bool * string) :=
  let possibilities := filter (fun o => startswith o opt) longopts in
  match possibilities with
  | [] => Raise (GetoptError ("option --" ^^ opt ^^ " not recognized"))
  | unique_match :: others =>
      if mem opt possibilities then Ok (false, opt)
      else if mem (opt ^^ "=") possibilities then Ok (true, opt)
      else match others with
           | _ :: _ => Raise (GetoptError ("option --" ^^ opt ^^ " not a unique prefix"))
           | [] =>
               if ends_with_char "=" unique_match
               then Ok (true, drop_last unique_match)
               else Ok (false, unique_match)
           end
  end.

(** [do_longs(opts, opt, longopts, args)] *)
Definition do_longs (opts : opt_list) (opt : string) (longopts args : list string)
  : result (opt_list * list string) :=
  let '(opt, optarg) :=
    match partition_at "=" opt with
    | None => (opt, None)
    | Some (name, value) => (name, Some value)
    end in
  match long_has_args opt longopts with
  | Raise e => Raise e
  | Ok (true, opt) =>
      match optarg with
      | None =>
          match args with
          | [] => Raise (GetoptError ("option --" ^^ opt ^^ " requires argument"))
          | a :: args' => Ok (opts ++ [("--" ^^ opt, a)], args')
          end
      | Some v => Ok (opts ++ [("--" ^^ opt, v)], args)
      end
  | Ok (false, opt) =>
      match optarg with
      | Some _ =>
          Raise (GetoptError ("option --" ^^ opt ^^ " must not have an argument"))
      | None => Ok (opts ++ [("--" ^^ opt, "")], args)
      end
  end.

Definition inspect {A} (a : A) : {b : A | a = b} := exist _ a eq_refl.

(** The [while args:] loop of [gnu_getopt]. *)
Equations? gnu_loop (all_options_first : bool) (shortopts : string)
           (longopts : list string) (opts : opt_list)
           (prog_args args : list string)
  : result (opt_list * list string) by wf (length args) lt :=
  gnu_loop aof so lo opts pa [] := Ok (opts, pa);
  gnu_loop aof so lo opts pa (a :: rest) with String.eqb a "--" => {
    | true := Ok (opts, pa ++ rest);
    | false with startswith a "--" => {
      | true with inspect (do_longs opts (drop 2 a) lo rest) => {
        | exist _ (Raise e) _ := Raise e;
        | exist _ (Ok (opts', args')) H := gnu_loop aof so lo opts' pa args' };
      | false with startswith a "-" && negb (String.eqb a "-") => {
        | true with inspect (do_shorts opts (drop 1 a) so rest) => {
          | exist _ (Raise e) _ := Raise e;
          | exist _ (Ok (opts', args')) H := gnu_loop aof so lo opts' pa args' };
        | false with aof => {
          | true := Ok (opts, pa ++ a :: rest);
          | false := gnu_loop aof so lo opts (pa ++ [a]) rest } } } }.
Proof.
  - (* [do_longs] hands back [rest] or its tail *)
    clear gnu_loop.
    assert (Hlen : forall o os,
               do_longs os o lo rest = Ok (opts', args') ->
               (length args' <= length rest)%nat).
    { intros o os. unfold do_longs.
      destruct (partition_at "=" o) as [[name value]|];
        match goal with |- context [long_has_args ?x ?l] =>
          destruct (long_has_args x l) as [[[|] full]|err] end;
        try discriminate; try destruct rest; try discriminate;
        intros [= _ <-]; simpl; lia. }
    apply Hlen in H. simpl. lia.
  - (* so does [do_shorts] *)
    clear gnu_loop.
    assert (Hlen : forall optstring os,
               do_shorts os optstring so rest = Ok (opts', args') ->
               (length args' <= length rest)%nat).
    { induction optstring as [|opt more IH]; intros os; simpl.
      - intros [= _ <-]. lia.
      - destruct (short_has_arg opt so) as [[|]|err]; try discriminate.
        + destruct more.
          * destruct rest; [discriminate|]. intros [= _ <-]. simpl. lia.
          * intros [= _ <-]. lia.
        + apply IH. }
    apply Hlen in H. simpl. lia.
Qed.

(** [gnu_getopt(args, shortopts, longopts)]; [posixly_correct] is
    [os.environ.get("POSIXLY_CORRECT")]. *)
Definition gnu_getopt (posixly_correct : option string)
           (args : list string) (shortopts : string) (longopts : list string)
  : result (opt_list * list string) :=
  let '(shortopts, all_options_first) :=
    if startswith shortopts "+" then (drop 1 shortopts, true)
    else match posixly_correct with
         | Some (String _ _) => (shortopts, true)
         | _ => (shortopts, false)
         end in
  gnu_loop all_options_first shortopts longopts [] [] args.

End Getopt.

Import Getopt.

(** ** The script's interface to the outside *)

Section Script.

(** [world] is the state of everything outside the script (environment
    variables, file system, databases, the configuration objects'
    contents, ecFlow); [conf] is a reference to a [HAFSLauncher]
    configuration object; [datetime] is what [to_datetime] returns;
    [optmap] is the per-storm dictionary of [section.option=value]
    overrides. *)
Variables world conf datetime optmap : Type.

(** What [hafs.launcher.parse_launch_args] returns. *)
Record parsed_args : Type := ParsedArgs {
  pa_case_root : string;
  pa_parm : string;
  pa_infiles : list string;
  pa_stid : string;
  pa_moreopt : optmap }.

(** What [hafs.launcher.multistorm_parse_args] returns. *)
Record multi_parsed_args : Type := MultiParsedArgs {
  ma_case_root : string;
  ma_parm : string;
  ma_infiles : list string;
  ma_stids : list string;
  ma_fake_stid : string;
  ma_priority_stid : string;
  ma_moreopts : list optmap }.

(** The arguments of one [hafs.launcher.launch] call; [prelaunch] is
    always [hafs.launcher.prelaunch].  The keyword arguments the script
    leaves out take the callee's defaults, [fakestorm=False] and
    [fakestorm_conf=None]. *)
Record launch_call : Type := LaunchCall {
  lc_infiles : list string;
  lc_cycle : datetime;
  lc_stid : string;
  lc_moreopt : optmap;
  lc_case_root : string;
  lc_fakestorm : bool;
  lc_fakestorm_conf : option conf;
  lc_storm_num : Z }.

(** A call into a collaborator: it reads and changes the world and
    either returns or raises. *)
Definition ext (A : Type) : Type := world -> result A * world.

Record collaborators : Type := Collaborators {
  (** [os.environ.get(name)] *)
  environ_get : world -> string -> option string;
  (** [produtil.setup.setup()] *)
  setup : ext unit;
  (** [produtil.numerics.to_datetime(s)] *)
  to_datetime : string -> ext datetime;
  (** [hafs.launcher.multistorm_priority(args, basins, logger, usage,
      renumber=renumber)] *)
  multistorm_priority : list string -> list string -> bool -> ext (list string);
  (** [hafs.launcher.multistorm_parse_args(multi_sids, args, logger, usage)] *)
  multistorm_parse_args : list string -> list string -> ext multi_parsed_args;
  (** [hafs.launcher.parse_launch_args(args, logger, usage)] *)
  parse_launch_args : list string -> ext parsed_args;
  (** [hafs.launcher.launch(...)] *)
  launch : launch_call -> ext conf;
  (** [conf.sanity_check()] *)
  sanity_check : conf -> ext unit;
  (** [conf.strinterp(section, template, **kwargs)] *)
  strinterp : conf -> string -> string -> list (string * string) -> ext string;
  (** [conf.make_holdvars()] *)
  make_holdvars : conf -> ext string;
  (** [conf.has_option(section, option)] *)
  has_option : conf -> string -> string -> ext bool;
  (** [conf.getstr(section, option)] *)
  getstr : conf -> string -> string -> ext string;
  (** [conf.getbool(section, option)] *)
  getbool : conf -> string -> string -> ext bool;
  (** [os.path.exists(path)] *)
  path_exists : string -> ext bool;
  (** [produtil.dbnalert.DBNAlert(args)()] *)
  dbn_alert : list string -> ext unit;
  (** [open(path, 'wt')] *)
  open_wt : string -> ext unit;
  (** [f.write(text)] on the file opened at [path], and its closing *)
  file_write : string -> string -> ext unit;
  (** [produtil.ecflow.set_ecflow_event(name, logger)] *)
  set_ecflow_event : string -> ext unit }.

(** *** Log records

    One constructor per logging statement of the script, carrying the
    values that the statement formats. *)
Inductive logmsg : Type :=
| MsgTop                                  (* 'Top of exhafs_launch.' *)
| MsgInvalidArguments                     (* 'Invalid arguments to exhafs_launch.py.  Aborting.' *)
| MsgAllOptsAndArgs (opts : opt_list) (args : list string)
                                          (* 'All OPTS AND ARGS: %s %s' *)
| MsgArgs (rest : list string)            (* 'ARGS: %s' *)
| MsgStormBasinLists (mslist mblist : list string)
                                          (* 'storm mslist, basin mblist: %s %s' *)
| MsgRocotoBasins (basins : list string)  (* 'Looks like this is rocoto, ...' *)
| MsgPriorityFound (bstorms : list string)(* 'Priority found the following storms: ' *)
| MsgMsList (multi_sids : list string)    (* 'MS LIST: ' *)
| MsgParsingMultistorm (multi_sids : list string)
                                          (* 'Parsing input arguments for a multistorm with ids: %s.' *)
| MsgRequested (stid : string) (cycle : datetime) (case_root : string)
                                          (* 'Requested storm %s cycle %s case root %s' *)
| MsgHoldvars (path : string)             (* '...: write holdvars here' *)
| MsgHoldvars2 (path : string)            (* '...: write holdvars here as well' *)
| MsgStartfile (path : string)            (* '...: Write holdvars and conf location here.' *)
| MsgStarting                             (* 'exhafs_launch is starting' *)
| MsgCompleted                            (* 'exhafs_launch completed' *)
| MsgFailed (what : string).              (* 'exhafs_launch failed: %s' *)

Inductive logger_name : Type := ScriptLogger | JLogger.
Inductive level : Type := Info | Critical.

(** *** Events

    What the script does, in order: log records, text printed on
    standard output, and calls into collaborators with their outcome. *)
Inductive event : Type :=
| Log (who : logger_name) (lvl : level) (m : logmsg)
| EvPrint (text : string)
| EvSetup (r : result unit)
| EvToDatetime (s : string) (r : result datetime)
| EvPriority (args basins : list string) (renumber : bool) (r : result (list string))
| EvMultiParse (multi_sids args : list string) (r : result multi_parsed_args)
| EvParse (args : list string) (r : result parsed_args)
| EvLaunch (c : launch_call) (r : result conf)
| EvSanityCheck (c : conf) (r : result unit)
| EvStrinterp (c : conf) (sec tmpl : string) (kw : list (string * string))
              (r : result string)
| EvMakeHoldvars (c : conf) (r : result string)
| EvHasOption (c : conf) (sec opt : string) (r : result bool)
| EvGetStr (c : conf) (sec opt : string) (r : result string)
| EvGetBool (c : conf) (sec opt : string) (r : result bool)
| EvPathExists (path : string) (r : result bool)
| EvDBNAlert (args : list string) (r : result unit)
| EvOpen (path : string) (r : result unit)
| EvWrite (path text : string) (r : result unit)
| EvEcflow (name : string) (r : result unit).

Definition trace : Type := list event.

(** *** The monad of the script: world passing, exceptions, a trace *)
Definition M (A : Type) : Type := world -> result A * world * trace.

Definition mret {A} (a : A) : M A := fun w => (Ok a, w, []).

Definition mbind {A B} (m : M A) (k : A -> M B) : M B :=
  fun w =>
    match m w with
    | (Ok a, w1, t1) => let '(r, w2, t2) := k a w1 in (r, w2, t1 ++ t2)
    | (Raise e, w1, t1) => (Raise e, w1, t1)
    end.

#[local] Instance Monad_M : Monad M := {| ret := @mret; bind := @mbind |}.

Definition raise {A} (e : exn) : M A := fun w => (Raise e, w, []).

Definition emit (e : event) : M unit := fun w => (Ok tt, w, [e]).

Definition call {R} (f : ext R) (ev : result R -> event) : M R :=
  fun w => let '(r, w') := f w in (r, w', [ev r]).

Definition read {R} (f : world -> R) : M R := fun w => (Ok (f w), w, []).

Definition lift {A} (r : result A) : M A := fun w => (r, w, []).

Definition outcome {A} (x : result A * world * trace) : result A := fst (fst x).
Definition final_world {A} (x : result A * world * trace) : world := snd (fst x).
Definition events {A} (x : result A * world * trace) : trace := snd x.

(** ** The script *)

Variable K : collaborators.

Local Open Scope monad_scope.

Definition log_info (m : logmsg) : M unit := emit (Log ScriptLogger Info m).
Definition print (text : string) : M unit := emit (EvPrint text).

(** [startdata], the template of the start file. *)
Definition startdata : string :=
"
# Holdvars file with ksh variables:
holdvars=" ^^ dquote ^^ "{holdvars}" ^^ dquote ^^ "

# Main conf file:
CONFhafs=" ^^ dquote ^^ "{CONFhafs}" ^^ dquote ^^ "

# Cycle being run:
cycle={YMDH}

# Three character storm ID -- just number and basin letter:
stormid3=" ^^ dquote ^^ "{vit[stormid3]}" ^^ dquote ^^ "

# Long storm ID:
longstormid=" ^^ dquote ^^ "{vit[longstormid]}" ^^ dquote ^^ "
".

(** The text that [usage] prints. *)
Definition usage_text : string :=
"
Usage: exhafs_launch.py 2014062400 95E case_root /path/to/parm [options]

Mandatory arguments:
  2014062400 -- the cycle to run
  95E -- storm id
  case_root -- FORECAST = real-time mode, HISTORY = retrospective mod
  /path/to/parm -- location of parm directory where standard conf files
      reside

Optional arguments:
section.option=value -- override conf options on the command line
/path/to/file.conf -- additional conf files to parse

Aborting due to incorrect arguments.".

(** What a caller passes as [usage]'s [logger] parameter: the script's
    logger, or (Python being untyped) a plain string. *)
Inductive logger_arg : Type :=
| TheLogger
| AString (s : string).

(** [usage(logger)]: [logger.critical(...)], [print(...)], [sys.exit(2)].
    A [str] has no [critical] method, so on a string the first statement
    raises [AttributeError].  Either way [usage] does not return. *)
Definition usage {A} (logger : logger_arg) : M A :=
  match logger with
  | TheLogger =>
      emit (Log ScriptLogger Critical MsgInvalidArguments) ;;
      print usage_text ;;
      raise (SystemExit 2)
  | AString _ =>
      raise (AttributeError "'str' object has no attribute 'critical'")
  end.

Definition short_opts : string := "m:M:n".
Definition long_opts : list string := ["multistorms="; "multibasins="; "renumber="].

(** Lines 124-135: option parsing and the check of the argument count. *)
Definition parse_command_line (argv : list string) : M (opt_list * list string) :=
  posixly_correct <- read (fun w => environ_get K w "POSIXLY_CORRECT") ;;
  '(opts, args) <-
    match gnu_getopt posixly_correct argv short_opts long_opts with
    | Ok parsed => ret parsed
    | Raise (GetoptError msg) =>
        print msg ;;
        usage (AString "SCRIPT IS ABORTING DUE TO UNRECOGNIZED ARGUMENT")
    | Raise e => raise e
    end ;;
  (if (length args <? 4)%nat then usage TheLogger else ret tt) ;;
  ret (opts, args).

(** Lines 142-154: the loop over the parsed options. *)
Fixpoint scan_opts (opts : opt_list) (mslist mblist : list string) (renumber : bool)
  : result (list string * list string * bool) :=
  match opts with
  | [] => Ok (mslist, mblist, renumber)
  | (k, v) :: rest =>
      if mem k ["-m"; "--multistorms"] then
        scan_opts rest (mslist ++ split "," v) mblist renumber
      else if mem k ["-M"; "--multibasins"] then
        scan_opts rest mslist (mblist ++ split "," v) renumber
      else if mem k ["-n"; "--renumber"] then
        scan_opts rest mslist mblist false
      else Raise (AssertionError "UNHANDLED OPTION")
  end.

(** Lines 179-181: [for s in bstorms: if s not in multi_sids:
    multi_sids.append(s)]. *)
Definition merge_storms (multi_sids bstorms : list string) : list string :=
  fold_left (fun sids s => if mem s sids then sids else sids ++ [s]) bstorms multi_sids.

(** Lines 156-183: the storm ids of a multistorm run.  Returns
    [multi_sids] and [go_since_multistorm_sids]. *)
Definition resolve_storms (args mslist mblist : list string) (renumber : bool)
  : M (list string * bool) :=
  let multi_sids : list string := [] in
  log_info (MsgArgs (tl args)) ;;
  log_info (MsgStormBasinLists mslist mblist) ;;
  let '(multi_sids, go_since_multistorm_sids) :=
    if truthy mslist then (mslist, true) else (multi_sids, false) in
  '(multi_sids, go_since_multistorm_sids) <-
    (if truthy mblist then
       let basins := mblist in
       let renumber := if truthy multi_sids then true else renumber in
       log_info (MsgRocotoBasins basins) ;;
       bstorms <- call (multistorm_priority K args basins renumber)
                       (EvPriority args basins renumber) ;;
       log_info (MsgPriorityFound bstorms) ;;
       ret (merge_storms multi_sids bstorms, true)
     else ret (multi_sids, go_since_multistorm_sids)) ;;
  log_info (MsgMsList multi_sids) ;;
  ret (multi_sids, go_since_multistorm_sids).

(** The variables that are live when the loop over the storms starts. *)
Record plan : Type := Plan {
  pl_case_root : string;
  pl_infiles : list string;
  pl_stids : list string;
  pl_fake_stid : option string;
  pl_moreopts : list optmap;
  pl_fakestorm_conf : option conf;
  pl_global_storm_num : Z }.

(** [xs[-1]] *)
Definition last_item {A} (xs : list A) : M A :=
  match rev xs with
  | x :: _ => ret x
  | [] => raise (IndexError "list index out of range")
  end.

(** [xs[i]] for [i >= 0] *)
Definition item {A} (xs : list A) (i : nat) : M A :=
  match nth_error xs i with
  | Some x => ret x
  | None => raise (IndexError "list index out of range")
  end.

(** Lines 185-207: parse the remaining arguments; in a multistorm run,
    launch the fake storm. *)
Definition prepare (cycle : datetime) (args multi_sids : list string)
           (go_since_multistorm_sids : bool) : M plan :=
  if go_since_multistorm_sids then
    log_info (MsgParsingMultistorm multi_sids) ;;
    p <- call (multistorm_parse_args K multi_sids (tl args))
              (EvMultiParse multi_sids (tl args)) ;;
    let global_storm_num := 1%Z in
    moreopt <- last_item (ma_moreopts p) ;;
    let c := LaunchCall (ma_infiles p) cycle (ma_fake_stid p) moreopt
                        (ma_case_root p) true None global_storm_num in
    fakestorm_conf <- call (launch K c) (EvLaunch c) ;;
    ret (Plan (ma_case_root p) (ma_infiles p) (ma_stids p) (Some (ma_fake_stid p))
              (ma_moreopts p) (Some fakestorm_conf) global_storm_num)
  else
    p <- call (parse_launch_args K (tl args)) (EvParse (tl args)) ;;
    log_info (MsgRequested (pa_stid p) cycle (pa_case_root p)) ;;
    ret (Plan (pa_case_root p) (pa_infiles p) [pa_stid p] None
              [pa_moreopt p] None 0%Z).

(** [stid != fake_stid] *)
Definition differs (stid : string) (fake_stid : option string) : bool :=
  match fake_stid with
  | None => true
  | Some f => negb (String.eqb stid f)
  end.

(** Lines 214-220: the configuration of storm number [i] of the loop. *)
Definition obtain_conf (cycle : datetime) (p : plan) (i : nat) (stid : string)
           (global_storm_num : Z) : M conf :=
  if differs stid (pl_fake_stid p) then
    moreopt <- item (pl_moreopts p) i ;;
    let c := LaunchCall (pl_infiles p) cycle stid moreopt (pl_case_root p)
                        false (pl_fakestorm_conf p) global_storm_num in
    call (launch K c) (EvLaunch c)
  else
    match pl_fakestorm_conf p with
    | Some c => ret c
    | None => raise (AttributeError "'NoneType' object has no attribute 'sanity_check'")
    end.

(** [os.environ.get('RUN_ENVIR','DEV').upper()=='NCO'] *)
Definition run_envir_is_nco (w : world) : bool :=
  let v := match environ_get K w "RUN_ENVIR" with
           | Some v => v
           | None => "DEV"
           end in
  String.eqb (upper v) "NCO".

(** Lines 224-229: the DBN alert of an operational run. *)
Definition nco_alert (c : conf) : M unit :=
  nco <- read run_envir_is_nco ;;
  if nco : bool then
    let t1 := "{messages}/message{storm_num}" in
    message <- call (strinterp K c "wcoss_fcst_nco" t1 [])
                    (EvStrinterp c "wcoss_fcst_nco" t1 []) ;;
    let t2 := "{RUN}_MESSAGE" in
    alert_type <- call (strinterp K c "config" t2 []) (EvStrinterp c "config" t2 []) ;;
    let alert_type := upper alert_type in
    present <- call (path_exists K message) (EvPathExists message) ;;
    if present : bool then
      let alert := ["MODEL"; alert_type; "{job}"; message] in
      call (dbn_alert K alert) (EvDBNAlert alert)
    else ret tt
  else ret tt.

Definition holdvars_template : string := "{com}/{stormlabel}.holdvars.txt".
Definition holdvars2_template : string := "{com}/{out_prefix}.{RUN}.holdvars.txt".

(** [with open(path,'wt') as f: f.write(conf.make_holdvars())]: the file is
    opened before the text is generated. *)
Definition write_generated_holdvars (c : conf) (path : string) : M unit :=
  call (open_wt K path) (EvOpen path) ;;
  text <- call (make_holdvars K c) (EvMakeHoldvars c) ;;
  call (file_write K path text) (EvWrite path text).

(** Lines 231-239: the two holdvars files.  Returns [holdvars]. *)
Definition write_holdvars (c : conf) : M string :=
  holdvars <- call (strinterp K c "dir" holdvars_template [])
                   (EvStrinterp c "dir" holdvars_template []) ;;
  log_info (MsgHoldvars holdvars) ;;
  write_generated_holdvars c holdvars ;;
  holdvars2 <- call (strinterp K c "dir" holdvars2_template [])
                    (EvStrinterp c "dir" holdvars2_template []) ;;
  log_info (MsgHoldvars2 holdvars2) ;;
  write_generated_holdvars c holdvars2 ;;
  ret holdvars.

(** Lines 241-246: the start file. *)
Definition write_startfile (c : conf) (holdvars : string) : M unit :=
  has <- call (has_option K c "config" "startfile") (EvHasOption c "config" "startfile") ;;
  if has : bool then
    startfile <- call (getstr K c "config" "startfile") (EvGetStr c "config" "startfile") ;;
    log_info (MsgStartfile startfile) ;;
    let kw := [("holdvars", holdvars)] in
    startcontents <- call (strinterp K c "config" startdata kw)
                          (EvStrinterp c "config" startdata kw) ;;
    call (open_wt K startfile) (EvOpen startfile) ;;
    call (file_write K startfile startcontents) (EvWrite startfile startcontents)
  else ret tt.

(** Lines 222-246: what is done with a storm's configuration. *)
Definition process_conf (c : conf) : M unit :=
  call (sanity_check K c) (EvSanityCheck c) ;;
  nco_alert c ;;
  holdvars <- write_holdvars c ;;
  write_startfile c holdvars.

(** Lines 212-246: [for i,stid in enumerate(stids)].  [last] is the value
    of the variable [conf] ([None] while it is unbound); the loop returns
    its value at the end. *)
Fixpoint launch_loop (cycle : datetime) (p : plan) (i : nat) (global_storm_num : Z)
         (last : option conf) (stids : list string) : M (option conf) :=
  match stids with
  | [] => ret last
  | stid :: rest =>
      let global_storm_num := (global_storm_num + 1)%Z in
      c <- obtain_conf cycle p i stid global_storm_num ;;
      process_conf c ;;
      launch_loop cycle p (S i) global_storm_num (Some c) rest
  end.

Definition ecflow_event (name : string) : M unit :=
  call (set_ecflow_event K name) (EvEcflow name).

(** [conf.getbool('config',flag) and
     conf.getstr('config',model_opt).upper()==model] *)
Definition flag_and_model (c : conf) (flag model_opt model : string) : M bool :=
  enabled <- call (getbool K c "config" flag) (EvGetBool c "config" flag) ;;
  if enabled : bool then
    m <- call (getstr K c "config" model_opt) (EvGetStr c "config" model_opt) ;;
    ret (String.eqb (upper m) model)
  else ret false.

(** Lines 248-260: the ecFlow events. *)
Definition notify (c : conf) : M unit :=
  Gsi <- call (getbool K c "config" "run_gsi") (EvGetBool c "config" "run_gsi") ;;
  (if Gsi : bool then ecflow_event "Analysis" else ret tt) ;;
  Hycom <- flag_and_model c "run_ocean" "ocean_model" "HYCOM" ;;
  (if Hycom : bool then ecflow_event "Ocean" else ret tt) ;;
  Wave <- flag_and_model c "run_wave" "wave_model" "WW3" ;;
  (if Wave : bool then ecflow_event "Wave" else ret tt).

(** Lines 156-260: [main] once the option loop has set [mslist], [mblist]
    and [renumber]. *)
Definition launch_all (cycle : datetime) (args mslist mblist : list string)
           (renumber : bool) : M unit :=
  '(multi_sids, go_since_multistorm_sids) <- resolve_storms args mslist mblist renumber ;;
  p <- prepare cycle args multi_sids go_since_multistorm_sids ;;
  last <- launch_loop cycle p 0 (pl_global_storm_num p) None (pl_stids p) ;;
  match last with
  | Some c => notify c
  | None => raise (UnboundLocalError "local variable 'conf' referenced before assignment")
  end.

(** Lines 137-260: [main] from the parsed command line on. *)
Definition main_body (opts : opt_list) (args : list string) : M unit :=
  a0 <- item args 0 ;;
  cycle <- call (to_datetime K a0) (EvToDatetime a0) ;;
  log_info (MsgAllOptsAndArgs opts args) ;;
  '(mslist, mblist, renumber) <- lift (scan_opts opts [] [] true) ;;
  launch_all cycle args mslist mblist renumber.

(** [main()]; [argv] is [sys.argv[1:]].  ([PARAFLAG], computed on line 121,
    is never used.) *)
Definition main (argv : list string) : M unit :=
  log_info MsgTop ;;
  '(opts, args) <- parse_command_line argv ;;
  main_body opts args.

(** The [if __name__ == '__main__'] block; the result is the exit status
    of the process. *)
Definition script (argv : list string) (w : world) : Z * world * trace :=
  let body : M unit :=
    call (setup K) EvSetup ;;
    emit (Log JLogger Info MsgStarting) ;;
    main argv ;;
    emit (Log JLogger Info MsgCompleted) in
  match body w with
  | (Ok _, w', t) => (0%Z, w', t)
  | (Raise (SystemExit code), w', t) => (code, w', t)
  | (Raise e, w', t) => (2%Z, w', t ++ [Log JLogger Critical (MsgFailed (str_of_exn e))])
  end.

End Script.

Arguments mret {world conf datetime optmap A} a.
Arguments raise {world conf datetime optmap A} e.
Arguments read {world conf datetime optmap R} f.
Arguments lift {world conf datetime optmap A} r.
Arguments log_info {world conf datetime optmap} m.
Arguments print {world conf datetime optmap} text.
Arguments usage {world conf datetime optmap A} logger.
Arguments item {world conf datetime optmap A} xs i.
Arguments last_item {world conf datetime optmap A} xs.
Arguments MsgTop {datetime}.
Arguments MsgInvalidArguments {datetime}.
Arguments MsgAllOptsAndArgs {datetime} opts args.
Arguments MsgArgs {datetime} rest.
Arguments MsgStormBasinLists {datetime} mslist mblist.
Arguments MsgRocotoBasins {datetime} basins.
Arguments MsgPriorityFound {datetime} bstorms.
Arguments MsgMsList {datetime} multi_sids.
Arguments MsgParsingMultistorm {datetime} multi_sids.
Arguments MsgHoldvars {datetime} path.
Arguments MsgHoldvars2 {datetime} path.
Arguments MsgStartfile {datetime} path.
Arguments MsgStarting {datetime}.
Arguments MsgCompleted {datetime}.
Arguments MsgFailed {datetime} what.
Arguments Log {conf datetime optmap} who lvl m.
Arguments EvPrint {conf datetime optmap} text.
Arguments EvSetup {conf datetime optmap} r.
Arguments EvToDatetime {conf datetime optmap} s r.
Arguments EvPriority {conf datetime optmap} args basins renumber r.
Arguments EvMultiParse {conf datetime optmap} multi_sids args r.
Arguments EvParse {conf datetime optmap} args r.
Arguments EvLaunch {conf datetime optmap} c r.
Arguments EvSanityCheck {conf datetime optmap} c r.
Arguments EvStrinterp {conf datetime optmap} c sec tmpl kw r.
Arguments EvMakeHoldvars {conf datetime optmap} c r.
Arguments EvHasOption {conf datetime optmap} c sec opt r.
Arguments EvGetStr {conf datetime optmap} c sec opt r.
Arguments EvGetBool {conf datetime optmap} c sec opt r.
Arguments EvPathExists {conf datetime optmap} path r.
Arguments EvDBNAlert {conf datetime optmap} args r.
Arguments EvOpen {conf datetime optmap} path r.
Arguments EvWrite {conf datetime optmap} path text r.
Arguments EvEcflow {conf datetime optmap} name r.

(** ** A stand-in for the collaborators

    A small, deterministic implementation of the interface, used to run
    the script on concrete command lines. *)

Module Demo.

(** Both argument parsers need the storm id, the case root and the parm
    directory; otherwise they call [usage], which exits with status 2. *)
Definition parse_single (args : list string) (w : unit)
  : result (parsed_args (list string)) * unit :=
  match args with
  | stid :: case_root :: parm :: more =>
      (Ok (ParsedArgs case_root parm [parm ^^ "/hafs.conf"] stid more), w)
  | _ => (Raise (SystemExit 2), w)
  end.

(** The storm list it returns ends with the fake storm 00L, and so does
    the list of option dictionaries. *)
Definition parse_multi (multi_sids args : list string) (w : unit)
  : result (multi_parsed_args (list string)) * unit :=
  match args with
  | stid :: case_root :: parm :: more =>
      (Ok (MultiParsedArgs case_root parm [parm ^^ "/hafs.conf"]
             (multi_sids ++ ["00L"]) "00L" (hd stid multi_sids)
             (map (fun s => s :: more) (multi_sids ++ ["00L"]))), w)
  | _ => (Raise (SystemExit 2), w)
  end.

(** A configuration is named after its storm; the ocean model is HYCOM
    and it is the only subsystem switched on. *)
Definition K : collaborators unit string string (list string) :=
  {| environ_get := fun _ _ => None;
     setup := fun w => (Ok tt, w);
     to_datetime := fun s w => (Ok s, w);
     multistorm_priority := fun _ _ _ w => (Ok ["09L"; "18E"], w);
     multistorm_parse_args := parse_multi;
     parse_launch_args := parse_single;
     launch := fun c w => (Ok (lc_stid c), w);
     sanity_check := fun _ w => (Ok tt, w);
     strinterp := fun c _ tmpl _ w => (Ok (c ^^ ":" ^^ tmpl), w);
     make_holdvars := fun c w => (Ok ("export STORMID=" ^^ c), w);
     has_option := fun _ _ _ w => (Ok false, w);
     getstr := fun _ _ opt w =>
                 (Ok (if String.eqb opt "ocean_model" then "hycom" else "none"), w);
     getbool := fun _ _ opt w => (Ok (String.eqb opt "run_ocean"), w);
     path_exists := fun _ w => (Ok false, w);
     dbn_alert := fun _ w => (Ok tt, w);
     open_wt := fun _ w => (Ok tt, w);
     file_write := fun _ _ w => (Ok tt, w);
     set_ecflow_event := fun _ w => (Ok tt, w) |}.

(** The command line of the specification's first scenario. *)
Definition single_storm : list string := ["2014062400"; "12L"; "HISTORY"; "/parm"].

(** The command line of the specification's multi-group scenario. *)
Definition two_basins : list string := "-M" :: "Atlantic,Pacific" :: single_storm.

(** A command line with storms and basins, and with [-n]. *)
Definition storms_and_basins : list string :=
  "-n" :: "-m" :: "07L,09L" :: "-M" :: "Atlantic" :: single_storm.

End Demo.

(** ** Observations on traces *)

Section Observations.

Variables conf datetime optmap : Type.
Abbreviation event := (event conf datetime optmap).

(** A call of [hafs.launcher.launch]. *)
Definition is_launch (e : event) : bool :=
  match e with EvLaunch _ _ => true | _ => false end.

(** A call of [conf.sanity_check]: one per storm that the loop processes. *)
Definition is_sanity_check (e : event) : bool :=
  match e with EvSanityCheck _ _ => true | _ => false end.

(** The launches and the sanity checks: how each storm got its
    configuration and that it was processed. *)
Definition is_milestone (e : event) : bool := is_launch e || is_sanity_check e.

(** A call of [hafs.launcher.multistorm_priority]. *)
Definition is_priority (e : event) : bool :=
  match e with EvPriority _ _ _ _ => true | _ => false end.

(** A call of [hafs.launcher.multistorm_parse_args]. *)
Definition is_multi_parse (e : event) : bool :=
  match e with EvMultiParse _ _ _ => true | _ => false end.

(** A call of [set_ecflow_event]. *)
Definition is_ecflow (e : event) : bool :=
  match e with EvEcflow _ _ => true | _ => false end.

(** A call of [hafs.launcher.parse_launch_args]. *)
Definition is_parse (e : event) : bool :=
  match e with EvParse _ _ => true | _ => false end.

(** The events that tell which storms a run handles and how: the parsing
    of the arguments of a single storm, the launches, the sanity checks. *)
Definition is_storm_event (e : event) : bool := is_parse e || is_milestone e.

(** The log record of line 140, which echoes the parsed options. *)
Definition is_option_echo (e : event) : bool :=
  match e with Log _ _ (MsgAllOptsAndArgs _ _) => true | _ => false end.

(** The arguments of the launches of a trace, in order. *)
Definition launch_calls (t : list event) : list (launch_call conf datetime optmap) :=
  flat_map (fun e => match e with EvLaunch c _ => [c] | _ => [] end) t.

(** The names of the ecFlow events set in a trace, in order. *)
Definition ecflow_names (t : list event) : list string :=
  flat_map (fun e => match e with EvEcflow name _ => [name] | _ => [] end) t.

(** What the loop does with a configuration once it has it, the sanity
    check aside: logging, string interpolation, DBN alerts and files. *)
Definition is_artifact (e : event) : bool :=
  match e with
  | Log _ _ _ | EvStrinterp _ _ _ _ _ | EvPathExists _ _ | EvDBNAlert _ _
  | EvOpen _ _ | EvMakeHoldvars _ _ | EvWrite _ _ _ | EvHasOption _ _ _ _
  | EvGetStr _ _ _ _ => true
  | _ => false
  end.

(** What lines 120-154 can emit: logging, the usage message and the
    conversion of the cycle. *)
Definition is_preamble (e : event) : bool :=
  match e with
  | Log _ _ _ | EvPrint _ | EvToDatetime _ _ => true
  | _ => false
  end.

(** A call of [conf.make_holdvars]. *)
Definition is_make_holdvars (e : event) : bool :=
  match e with EvMakeHoldvars _ _ => true | _ => false end.

(** What the lines after the loop do: queries of the configuration and
    ecFlow events. *)
Definition is_notification (e : event) : bool :=
  match e with
  | EvGetBool _ _ _ _ | EvGetStr _ _ _ _ | EvEcflow _ _ => true
  | _ => false
  end.

(** Everything the loop over the storms can emit. *)
Definition is_loop_event (e : event) : bool := is_artifact e || is_milestone e.


(** The launch of a single-storm run: no fake storm, number 1. *)
Definition single_launch (cycle : datetime) (p : parsed_args optmap)
  : launch_call conf datetime optmap :=
  LaunchCall (pa_infiles p) cycle (pa_stid p) (pa_moreopt p) (pa_case_root p)
             false None 1%Z.

(** The events of a trace other than the echo of the parsed options. *)
Definition without_option_echo (t : list event) : list event :=
  filter (fun e => negb (is_option_echo e)) t.

End Observations.

Arguments is_launch {conf datetime optmap} e.
Arguments is_sanity_check {conf datetime optmap} e.
Arguments is_milestone {conf datetime optmap} e.
Arguments is_priority {conf datetime optmap} e.
Arguments is_parse {conf datetime optmap} e.
Arguments is_storm_event {conf datetime optmap} e.
Arguments is_multi_parse {conf datetime optmap} e.
Arguments is_ecflow {conf datetime optmap} e.
Arguments is_option_echo {conf datetime optmap} e.
Arguments is_artifact {conf datetime optmap} e.
Arguments is_notification {conf datetime optmap} e.
Arguments is_make_holdvars {conf datetime optmap} e.
Arguments is_preamble {conf datetime optmap} e.
Arguments is_loop_event {conf datetime optmap} e.
Arguments launch_calls {conf datetime optmap} t.
Arguments single_launch conf {datetime optmap} cycle p.
Arguments without_option_echo {conf datetime optmap} t.
Arguments ecflow_names {conf datetime optmap} t.

(** A computation that emits no event of the kind [sel], whatever the
    state of the world and whatever its outcome. *)
Definition silent {world conf datetime optmap : Type}
           (sel : event conf datetime optmap -> bool) {A : Type}
           (m : M world conf datetime optmap A) : Prop :=
  forall w, filter sel (events (m w)) = [].

(** Some option of [opts] has one of the keys [keys]. *)
Definition given (keys : list string) (opts : opt_list) : bool :=
  existsb (fun kv => mem (fst kv) keys) opts.

Definition multistorms_keys : list string := ["-m"; "--multistorms"].
Definition multibasins_keys : list string := ["-M"; "--multibasins"].
Definition renumber_keys : list string := ["-n"; "--renumber"].

(** The keys of the options that the option loop handles. *)
Definition known_keys : list string :=
  multistorms_keys ++ multibasins_keys ++ renumber_keys.

(** All options of [opts] have such a key. *)
Definition keys_known (opts : opt_list) : bool :=
  forallb (fun kv => mem (fst kv) known_keys) opts.

(** [c in s] for a character. *)
Fixpoint has_char (c : ascii) (s : string) : bool :=
  match s with
  | EmptyString => false
  | String a rest => Ascii.eqb a c || has_char c rest
  end.

(** [r] with the options [pre] in front of those it has. *)
Definition in_front (pre : opt_list) (r : result (opt_list * list string))
  : result (opt_list * list string) :=
  match r with
  | Ok (opts, args) => Ok (pre ++ opts, args)
  | Raise e => Raise e
  end.

(** The comma-separated values of the options of [opts] with a key in
    [keys], in command-line order. *)
Definition option_values (keys : list string) (opts : opt_list) : list string :=
  flat_map (fun kv => if mem (fst kv) keys then split "," (snd kv) else []) opts.

(** What the option loop computes, its [renumber] aside. *)
Definition storm_and_basin_lists (r : result (list string * list string * bool))
  : result (list string * list string) :=
  match r with
  | Ok (mslist, mblist, _) => Ok (mslist, mblist)
  | Raise e => Raise e
  end.

(** [opts] without its [-n]/[--renumber] entries. *)
Definition without_renumber (opts : opt_list) : opt_list :=
  filter (fun kv => negb (mem (fst kv) renumber_keys)) opts.

(** The first occurrence of each element, in order. *)
Fixpoint first_occurrences (seen l : list string) : list string :=
  match l with
  | [] => []
  | s :: rest =>
      if mem s seen then first_occurrences seen rest
      else s :: first_occurrences (s :: seen) rest
  end.

(** The entity list as the specification words it: the explicitly given
    storms first, then the resolver's winners in their order, without
    those already listed. *)
Definition spec_entity_list (mslist winners : list string) : list string :=
  mslist ++ first_occurrences mslist winners.

(** ** Further observations *)

Section Outputs.

Variables conf datetime optmap : Type.
Abbreviation event := (event conf datetime optmap).

(** A record of [produtil.log.jlogger] ([postmsg] logs there as well). *)
Definition is_jlogger (e : event) : bool :=
  match e with Log JLogger _ _ => true | _ => false end.

(** What [main] can emit: anything but the records of the job logger and
    the call of [produtil.setup.setup], which belong to the [__main__]
    block. *)
Definition is_main_event (e : event) : bool :=
  match e with
  | Log JLogger _ _ | EvSetup _ => false
  | _ => true
  end.

(** A log record. *)
Definition is_log (e : event) : bool :=
  match e with Log _ _ _ => true | _ => false end.

(** A sanity check that passed. *)
Definition is_passed_check (e : event) : bool :=
  match e with EvSanityCheck _ (Ok _) => true | _ => false end.

(** What a run leaves behind outside the launcher: DBN alerts, files
    opened for writing or written, ecFlow events. *)
Definition is_output (e : event) : bool :=
  match e with
  | EvDBNAlert _ _ | EvOpen _ _ | EvWrite _ _ _ | EvEcflow _ _ => true
  | _ => false
  end.

(** The test for the message file and the DBN alert. *)
Definition is_alert (e : event) : bool :=
  match e with
  | EvPathExists _ _ | EvDBNAlert _ _ => true
  | _ => false
  end.

(** A file opened or written. *)
Definition is_file_event (e : event) : bool :=
  match e with
  | EvOpen _ _ | EvWrite _ _ _ => true
  | _ => false
  end.

(** The events of the start file, lines 241-246. *)
Definition is_startfile_event (e : event) : bool :=
  match e with
  | EvHasOption _ _ _ _ | EvGetStr _ _ _ _ | Log _ _ (MsgStartfile _) => true
  | _ => false
  end.

(** The exception that a call ended with, if it did. *)
Definition failure {A : Type} (r : result A) : option exn :=
  match r with
  | Ok _ => None
  | Raise e => Some e
  end.

(** The exception that the call recorded by an event ended with. *)
Definition raised (e : event) : option exn :=
  match e with
  | Log _ _ _ | EvPrint _ => None
  | EvSetup r => failure r
  | EvToDatetime _ r => failure r
  | EvPriority _ _ _ r => failure r
  | EvMultiParse _ _ r => failure r
  | EvParse _ r => failure r
  | EvLaunch _ r => failure r
  | EvSanityCheck _ r => failure r
  | EvStrinterp _ _ _ _ r => failure r
  | EvMakeHoldvars _ r => failure r
  | EvHasOption _ _ _ r => failure r
  | EvGetStr _ _ _ r => failure r
  | EvGetBool _ _ _ r => failure r
  | EvPathExists _ r => failure r
  | EvDBNAlert _ r => failure r
  | EvOpen _ r => failure r
  | EvWrite _ _ r => failure r
  | EvEcflow _ r => failure r
  end.

(** The paths of the files that were opened for writing, in order. *)
Definition opened_paths (t : list event) : list string :=
  flat_map (fun e => match e with EvOpen path (Ok _) => [path] | _ => [] end) t.

(** The paths of the files that were written, in order. *)
Definition written_paths (t : list event) : list string :=
  flat_map (fun e => match e with EvWrite path _ (Ok _) => [path] | _ => [] end) t.

(** The storm numbers of the launches of a trace, in order. *)
Definition launch_numbers (t : list event) : list Z :=
  map (@lc_storm_num conf datetime optmap) (launch_calls t).

(** A launch as the loop over the storms makes it: for the cycle
    [cycle], with the configuration files [infiles], the case root
    [case_root] and the fake storm's configuration [fakestorm_conf], and
    not one of a fake storm. *)
Definition is_loop_launch (cycle : datetime) (infiles : list string)
           (case_root : string) (fakestorm_conf : option conf) (e : event) : Prop :=
  exists c r,
    e = EvLaunch c r /\ lc_cycle c = cycle /\ lc_infiles c = infiles /\
    lc_case_root c = case_root /\ lc_fakestorm c = false /\
    lc_fakestorm_conf c = fakestorm_conf.

(** What the launch of the fake storm returned, if it returned. *)
Definition returned_conf (r : result conf) : option conf :=
  match r with
  | Ok c => Some c
  | Raise _ => None
  end.

End Outputs.

Arguments is_jlogger {conf datetime optmap} e.
Arguments is_main_event {conf datetime optmap} e.
Arguments is_log {conf datetime optmap} e.
Arguments is_passed_check {conf datetime optmap} e.
Arguments is_output {conf datetime optmap} e.
Arguments is_alert {conf datetime optmap} e.
Arguments is_file_event {conf datetime optmap} e.
Arguments is_startfile_event {conf datetime optmap} e.
Arguments raised {conf datetime optmap} e.
Arguments opened_paths {conf datetime optmap} t.
Arguments written_paths {conf datetime optmap} t.
Arguments launch_numbers {conf datetime optmap} t.
Arguments is_loop_launch {conf datetime optmap} cycle infiles case_root fakestorm_conf e.
Arguments returned_conf {conf} r.

(** A computation that stops at the first call that fails, with the
    exception of that call: in any state of the world, either no call of
    its trace failed, or the last one did, it alone, and its exception is
    the outcome. *)
Definition stops_at_failure {world conf datetime optmap A : Type}
           (m : M world conf datetime optmap A) : Prop :=
  forall w,
    Forall (fun e => raised e = None) (events (m w)) \/
    exists before e ex,
      events (m w) = before ++ [e] /\
      Forall (fun e => raised e = None) before /\
      raised e = Some ex /\
      outcome (m w) = Raise ex.

(** A computation all of whose events satisfy [P], whatever the state of
    the world and whatever its outcome. *)
Definition always {world conf datetime optmap A : Type}
           (P : event conf datetime optmap -> Prop)
           (m : M world conf datetime optmap A) : Prop :=
  forall w, Forall P (events (m w)).

(** In the trace [t], the text of a holdvars file is only made from a
    configuration that has passed its sanity check before. *)
Definition checked_before_use {conf datetime optmap : Type}
           (t : list (event conf datetime optmap)) : Prop :=
  forall c r t1 t2,
    t = t1 ++ EvMakeHoldvars c r :: t2 ->
    exists t0 t0', t1 = t0 ++ EvSanityCheck c (Ok tt) :: t0'.

(** In the trace [t], a configuration that is checked is [fc] or has been
    returned by a launch before. *)
Definition launched_before_check {conf datetime optmap : Type}
           (fc : option conf) (t : list (event conf datetime optmap)) : Prop :=
  forall c r t1 t2,
    t = t1 ++ EvSanityCheck c r :: t2 ->
    fc = Some c \/ exists lc, In (EvLaunch lc (Ok c)) t1.

(** [s.isascii()]: on such strings [upper] is [str.upper]. *)
Fixpoint is_ascii (s : string) : bool :=
  match s with
  | EmptyString => true
  | String c rest => Nat.ltb (nat_of_ascii c) 128 && is_ascii rest
  end.

(** The exit status that an exception escaping from the [try] of the
    [__main__] block leads to: [sys.exit(code)] for a [SystemExit], which
    the [except Exception] clause lets through, and 2 from the handler. *)
Definition exit_code (e : exn) : Z :=
  match e with
  | SystemExit code => code
  | _ => 2%Z
  end.

(** [r] with the arguments [pre] in front of those it has. *)
Definition args_in_front (pre : list string) (r : result (opt_list * list string))
  : result (opt_list * list string) :=
  match r with
  | Ok (opts, args) => Ok (opts, pre ++ args)
  | Raise e => Raise e
  end.

(** [sep.join(pieces)] for a one-character separator. *)
Fixpoint str_join (sep : ascii) (pieces : list string) : string :=
  match pieces with
  | [] => EmptyString
  | [piece] => piece
  | piece :: rest => piece ^^ String sep (str_join sep rest)
  end.

(** ** The directory of the Python modules, lines 60-68

    Before it imports [produtil] and [hafs], the script adds a directory
    to [sys.path].  The functions of [os.path] that it uses follow
    [Lib/posixpath.py]. *)

Module Posixpath.

(** [s.rfind(c)]: the index of the last occurrence of [c], or -1. *)
Fixpoint rfind (c : ascii) (s : string) : Z :=
  match s with
  | EmptyString => (-1)%Z
  | String a rest =>
      let i := rfind c rest in
      if (0 <=? i)%Z then (i + 1)%Z
      else if Ascii.eqb a c then 0%Z else (-1)%Z
  end.

(** [s[:n]] for [n >= 0] *)
Fixpoint take (n : nat) (s : string) : string :=
  match n, s with
  | O, _ => EmptyString
  | S _, EmptyString => EmptyString
  | S n', String a rest => String a (take n' rest)
  end.

(** [s.rstrip(c)] *)
Fixpoint rstrip (c : ascii) (s : string) : string :=
  match s with
  | EmptyString => EmptyString
  | String a rest =>
      match rstrip c rest with
      | EmptyString => if Ascii.eqb a c then EmptyString else String a EmptyString
      | stripped => String a stripped
      end
  end.

(** [c*n] *)
Fixpoint times (c : ascii) (n : nat) : string :=
  match n with
  | O => EmptyString
  | S n' => String c (times c n')
  end.

(** [dirname(p)] *)
Definition dirname (p : string) : string :=
  let sep := "/"%char in
  let i := (rfind sep p + 1)%Z in
  let head := take (Z.to_nat i) p in
  if negb (String.eqb head "") && negb (String.eqb head (times sep (String.length head)))
  then rstrip sep head
  else head.

(** [join(a, b)], with one component after the first. *)
Definition join (a b : string) : string :=
  let sep := "/" in
  if startswith b sep then b
  else if String.eqb a "" || ends_with_char "/" a then a ^^ b
  else a ^^ sep ^^ b.

End Posixpath.

(** What lines 60-68 append to [sys.path]; [environ] is [os.environ] and
    [file] is [os.path.realpath(__file__)]. *)
Definition ush_path (environ : string -> option string) (file : string) : string :=
  match environ "USHhafs" with
  | Some ush => ush
  | None =>
      match environ "HOMEhafs" with
      | Some home => Posixpath.join home "ush"
      | None =>
          let guess_HOMEhafs := Posixpath.dirname (Posixpath.dirname file) in
          let guess_USHhafs := Posixpath.join guess_HOMEhafs "ush" in
          guess_USHhafs
      end
  end.




(** Stand-ins that differ from [Demo.K] in the respect that their name
    tells. *)
Module Cases.

(** [POSIXLY_CORRECT] is set in the environment. *)
Definition posix : collaborators unit string string (list string) :=
  {| environ_get := fun _ name =>
                      if String.eqb name "POSIXLY_CORRECT" then Some "1" else None;
     setup := setup Demo.K;
     to_datetime := to_datetime Demo.K;
     multistorm_priority := multistorm_priority Demo.K;
     multistorm_parse_args := multistorm_parse_args Demo.K;
     parse_launch_args := parse_launch_args Demo.K;
     launch := launch Demo.K;
     sanity_check := sanity_check Demo.K;
     strinterp := strinterp Demo.K;
     make_holdvars := make_holdvars Demo.K;
     has_option := has_option Demo.K;
     getstr := getstr Demo.K;
     getbool := getbool Demo.K;
     path_exists := path_exists Demo.K;
     dbn_alert := dbn_alert Demo.K;
     open_wt := open_wt Demo.K;
     file_write := file_write Demo.K;
     set_ecflow_event := set_ecflow_event Demo.K |}.

(** Every sanity check fails. *)
Definition insane : collaborators unit string string (list string) :=
  {| environ_get := environ_get Demo.K;
     setup := setup Demo.K;
     to_datetime := to_datetime Demo.K;
     multistorm_priority := multistorm_priority Demo.K;
     multistorm_parse_args := multistorm_parse_args Demo.K;
     parse_launch_args := parse_launch_args Demo.K;
     launch := launch Demo.K;
     sanity_check := fun _ w => (Raise (OtherError "sanity check failed"), w);
     strinterp := strinterp Demo.K;
     make_holdvars := make_holdvars Demo.K;
     has_option := has_option Demo.K;
     getstr := getstr Demo.K;
     getbool := getbool Demo.K;
     path_exists := path_exists Demo.K;
     dbn_alert := dbn_alert Demo.K;
     open_wt := open_wt Demo.K;
     file_write := file_write Demo.K;
     set_ecflow_event := set_ecflow_event Demo.K |}.

(** [multistorm_parse_args] returns no storm, only the options of the
    fake storm. *)
Definition no_storm : collaborators unit string string (list string) :=
  {| environ_get := environ_get Demo.K;
     setup := setup Demo.K;
     to_datetime := to_datetime Demo.K;
     multistorm_priority := multistorm_priority Demo.K;
     multistorm_parse_args := fun _ args w =>
       match args with
       | stid :: case_root :: parm :: more =>
           (Ok (MultiParsedArgs case_root parm [parm ^^ "/hafs.conf"]
                                [] "00L" stid [more]), w)
       | _ => (Raise (SystemExit 2), w)
       end;
     parse_launch_args := parse_launch_args Demo.K;
     launch := launch Demo.K;
     sanity_check := sanity_check Demo.K;
     strinterp := strinterp Demo.K;
     make_holdvars := make_holdvars Demo.K;
     has_option := has_option Demo.K;
     getstr := getstr Demo.K;
     getbool := getbool Demo.K;
     path_exists := path_exists Demo.K;
     dbn_alert := dbn_alert Demo.K;
     open_wt := open_wt Demo.K;
     file_write := file_write Demo.K;
     set_ecflow_event := set_ecflow_event Demo.K |}.

(** An operational run: [RUN_ENVIR] is [nco], the message file exists and
    the configuration names a start file. *)
Definition operational : collaborators unit string string (list string) :=
  {| environ_get := fun _ name =>
                      if String.eqb name "RUN_ENVIR" then Some "nco" else None;
     setup := setup Demo.K;
     to_datetime := to_datetime Demo.K;
     multistorm_priority := multistorm_priority Demo.K;
     multistorm_parse_args := multistorm_parse_args Demo.K;
     parse_launch_args := parse_launch_args Demo.K;
     launch := launch Demo.K;
     sanity_check := sanity_check Demo.K;
     strinterp := strinterp Demo.K;
     make_holdvars := make_holdvars Demo.K;
     has_option := fun _ _ _ w => (Ok true, w);
     getstr := fun c _ opt w =>
                 (Ok (if String.eqb opt "startfile" then c ^^ ".start" else "none"), w);
     getbool := getbool Demo.K;
     path_exists := fun _ w => (Ok true, w);
     dbn_alert := dbn_alert Demo.K;
     open_wt := open_wt Demo.K;
     file_write := file_write Demo.K;
     set_ecflow_event := set_ecflow_event Demo.K |}.

(** A command line with storms only. *)
Definition two_storms : list string := "-m" :: "07L,09L" :: Demo.single_storm.

End Cases.

(** ** Properties *)

(** *** What [getopt] returns for the script's option strings *)

Lemma mem_app x l1 l2 : mem x (l1 ++ l2) = mem x l1 || mem x l2.
Proof. apply existsb_app. Qed.

(** [getopt] fails with [GetoptError] only. *)
Lemma short_has_arg_raise opt shortopts e :
  short_has_arg opt shortopts = Raise e -> exists msg, e = GetoptError msg.
Proof.
  induction shortopts as [|c rest IH]; simpl.
  - intros [= <-]. eauto.
  - destruct (Ascii.eqb opt c && negb (Ascii.eqb c ":")); [discriminate | exact IH].
Qed.

Lemma do_shorts_raise optstring shortopts args e : forall opts,
  do_shorts opts optstring shortopts args = Raise e -> exists msg, e = GetoptError msg.
Proof.
  induction optstring as [|opt rest IH]; intros opts; simpl; [discriminate|].
  destruct (short_has_arg opt shortopts) as [[|]|e'] eqn:Hs.
  - destruct rest; [|discriminate]. destruct args; [|discriminate].
    intros [= <-]. eauto.
  - apply IH.
  - intros [= <-]. exact (short_has_arg_raise _ _ Hs).
Qed.

Lemma long_has_args_raise opt longopts e :
  long_has_args opt longopts = Raise e -> exists msg, e = GetoptError msg.
Proof.
  unfold long_has_args.
  destruct (filter _ longopts) as [|u others]; [intros [= <-]; eauto|].
  destruct (mem opt (u :: others)); [discriminate|].
  destruct (mem (opt ^^ "=") (u :: others)); [discriminate|].
  destruct others; [destruct (ends_with_char "=" u); discriminate|].
  intros [= <-]. eauto.
Qed.

Lemma do_longs_raise opts opt longopts args e :
  do_longs opts opt longopts args = Raise e -> exists msg, e = GetoptError msg.
Proof.
  unfold do_longs.
  destruct (partition_at "=" opt) as [[name value]|];
    match goal with |- context [long_has_args ?o ?l] =>
      destruct (long_has_args o l) as [[[|] full]|e'] eqn:Hl end;
    try discriminate;
    try (intros [= <-]; eauto; exact (long_has_args_raise _ _ Hl)).
  destruct args; [intros [= <-]; eauto | discriminate].
Qed.

Lemma gnu_loop_raise aof so lo opts pa args e :
  gnu_loop aof so lo opts pa args = Raise e -> exists msg, e = GetoptError msg.
Proof.
  funelim (gnu_loop aof so lo opts pa args); try discriminate; auto;
    intros [= <-]; eauto using do_longs_raise, do_shorts_raise.
Qed.

Lemma gnu_getopt_raise posixly_correct argv shortopts longopts e :
  gnu_getopt posixly_correct argv shortopts longopts = Raise e ->
  exists msg, e = GetoptError msg.
Proof.
  unfold gnu_getopt.
  destruct (startswith shortopts "+"); [apply gnu_loop_raise|].
  destruct posixly_correct as [[|]|]; apply gnu_loop_raise.
Qed.

Lemma not_dash_not_option a :
  startswith a "-" = false ->
  String.eqb a "--" = false /\ startswith a "--" = false.
Proof.
  destruct a as [|c a]; [now split|]. unfold startswith. cbn [prefix].
  destruct (ascii_dec "-" c) as [<-|Hc]; [destruct a; discriminate|]. intros _. split.
  - apply String.eqb_neq. intros E. injection E as E _. congruence.
  - reflexivity.
Qed.

(** Arguments that do not start with a dash are all positional. *)
Lemma gnu_loop_positional aof so lo args : forall opts pa,
  Forall (fun a => startswith a "-" = false) args ->
  gnu_loop aof so lo opts pa args = Ok (opts, pa ++ args).
Proof.
  induction args as [|a rest IH]; intros opts pa Hargs; simp gnu_loop.
  - now rewrite app_nil_r.
  - inversion Hargs as [|? ? Ha Hrest]; subst.
    destruct (not_dash_not_option a Ha) as [H1 H2].
    rewrite H1. cbn. rewrite H2. cbn. rewrite Ha. cbn.
    destruct aof; cbn; [reflexivity|].
    rewrite IH by assumption. now rewrite <- app_assoc.
Qed.

Lemma gnu_getopt_positional posixly_correct argv :
  Forall (fun a => startswith a "-" = false) argv ->
  gnu_getopt posixly_correct argv short_opts long_opts = Ok ([], argv).
Proof.
  intros H. unfold gnu_getopt. cbn [startswith short_opts prefix].
  destruct posixly_correct as [[|]|]; cbn; now apply gnu_loop_positional.
Qed.

(** The keys of the options that [getopt] returns are the six that the
    option loop handles, so that its [assert False] is never reached. *)
Lemma keys_known_app opts1 opts2 :
  keys_known (opts1 ++ opts2) = keys_known opts1 && keys_known opts2.
Proof. apply forallb_app. Qed.

Lemma short_has_arg_known opt b :
  short_has_arg opt short_opts = Ok b -> mem ("-" ^^ String opt "") known_keys = true.
Proof.
  unfold short_opts. cbn [short_has_arg].
  destruct (Ascii.eqb_spec opt "m") as [->|_]; [reflexivity|].
  destruct (Ascii.eqb_spec opt ":") as [->|_]; [discriminate|].
  destruct (Ascii.eqb_spec opt "M") as [->|_]; [reflexivity|].
  destruct (Ascii.eqb_spec opt "n") as [->|_]; [reflexivity|].
  cbn. discriminate.
Qed.

Lemma do_shorts_known optstring args opts' args' : forall opts,
  keys_known opts = true ->
  do_shorts opts optstring short_opts args = Ok (opts', args') ->
  keys_known opts' = true.
Proof.
  induction optstring as [|opt rest IH]; intros opts Hk; cbn [do_shorts].
  - now intros [= <- _].
  - destruct (short_has_arg opt short_opts) as [b|e] eqn:Hs; [|discriminate].
    pose proof (short_has_arg_known _ Hs) as Hkey. cbn [String.append] in Hkey.
    destruct b.
    + destruct rest; [destruct args; [discriminate|]|];
        intros [= <- _]; rewrite keys_known_app, Hk; cbn [keys_known forallb fst String.append];
        now rewrite Hkey.
    + apply IH. rewrite keys_known_app, Hk. cbn [keys_known forallb fst String.append].
      now rewrite Hkey.
Qed.

Lemma partition_at_name c s :
  match partition_at c s with
  | Some (name, _) => has_char c name = false
  | None => has_char c s = false
  end.
Proof.
  induction s as [|a s IH]; cbn [partition_at has_char]; [reflexivity|].
  destruct (Ascii.eqb a c) eqn:E; [reflexivity|].
  destruct (partition_at c s) as [[name v]|]; cbn [has_char]; rewrite ?E; exact IH.
Qed.

Lemma append_char_inj c (s t : string) :
  s ^^ String c "" = t ^^ String c "" -> s = t.
Proof.
  revert t. induction s as [|a s IH]; intros [|b t]; cbn; intros H.
  - reflexivity.
  - injection H as _ H. destruct t; discriminate.
  - injection H as _ H. destruct s; discriminate.
  - injection H as -> H. f_equal. now apply IH.
Qed.

Lemma long_has_args_known opt b name :
  has_char "=" opt = false ->
  long_has_args opt long_opts = Ok (b, name) ->
  mem ("--" ^^ name) known_keys = true.
Proof.
  intros Hopt. unfold long_has_args, long_opts. cbn [filter].
  assert (Hexact : forall l, (forall o, In o l -> has_char "=" o = true) ->
                             mem opt l = false).
  { intros l Hl. destruct (mem opt l) eqn:E; [|reflexivity].
    apply existsb_exists in E. destruct E as (o & Ho & E).
    apply String.eqb_eq in E. subst o. rewrite (Hl _ Ho) in Hopt. discriminate. }
  assert (Hfull : forall l,
             (forall o, In o l -> In o ["multistorms="; "multibasins="; "renumber="]) ->
             mem (opt ^^ "=") l = true -> mem ("--" ^^ opt) known_keys = true).
  { intros l Hl E. apply existsb_exists in E. destruct E as (o & Ho & E).
    apply String.eqb_eq in E. apply Hl in Ho. cbn [In] in Ho.
    destruct Ho as [<-|[<-|[<-|[]]]];
      [change "multistorms=" with ("multistorms" ^^ "=") in E
      |change "multibasins=" with ("multibasins" ^^ "=") in E
      |change "renumber=" with ("renumber" ^^ "=") in E];
      apply append_char_inj in E; subst opt; reflexivity. }
  destruct (startswith "multistorms=" opt), (startswith "multibasins=" opt),
    (startswith "renumber=" opt); cbv beta iota; try discriminate;
    match goal with
    | |- context [mem opt ?l] =>
        rewrite (Hexact l) by
          (cbn [In]; intros o Ho;
           repeat match type of Ho with _ \/ _ => destruct Ho as [<-|Ho] end;
           try reflexivity; contradiction);
        destruct (mem (opt ^^ "=") l) eqn:E;
        [intros [= _ <-]; apply (Hfull l); [cbn [In]; tauto | exact E]|]
    end;
    try discriminate;
    cbn; intros [= _ <-]; reflexivity.
Qed.

Lemma do_longs_known opts opt args opts' args' :
  keys_known opts = true ->
  do_longs opts opt long_opts args = Ok (opts', args') ->
  keys_known opts' = true.
Proof.
  intros Hk. unfold do_longs.
  pose proof (partition_at_name "=" opt) as Hname.
  destruct (partition_at "=" opt) as [[name value]|];
    match goal with |- context [long_has_args ?o long_opts] =>
      destruct (long_has_args o long_opts) as [[b full]|e] eqn:Hl; [|discriminate];
      pose proof (long_has_args_known o Hname Hl) as Hkey;
      cbn [String.append] in Hkey
    end;
    destruct b; try discriminate; try (destruct args; [discriminate|]);
    intros [= <- _]; rewrite keys_known_app, Hk; cbn [keys_known forallb fst String.append];
    now rewrite Hkey.
Qed.

Lemma gnu_loop_known aof opts pa args opts' args' :
  keys_known opts = true ->
  gnu_loop aof short_opts long_opts opts pa args = Ok (opts', args') ->
  keys_known opts' = true.
Proof.
  remember short_opts as so eqn:Hso. remember long_opts as lo eqn:Hlo.
  revert opts' args'.
  funelim (gnu_loop aof so lo opts pa args); intros r1 r2 Hk; subst;
    try discriminate; try (now intros [= <- _]);
    eauto using do_longs_known, do_shorts_known.
Qed.

Lemma gnu_getopt_known posixly_correct argv opts args :
  gnu_getopt posixly_correct argv short_opts long_opts = Ok (opts, args) ->
  keys_known opts = true.
Proof.
  unfold gnu_getopt. cbn [startswith short_opts prefix].
  destruct posixly_correct as [[|]|]; cbn; now apply gnu_loop_known.
Qed.

Lemma scan_opts_known opts : forall ms mb rn,
  keys_known opts = true -> exists r, scan_opts opts ms mb rn = Ok r.
Proof.
  induction opts as [|[k v] rest IH]; intros ms mb rn; cbn [keys_known forallb fst String.append].
  - intros _. eexists. reflexivity.
  - intros H. apply andb_true_iff in H. destruct H as [Hk Hrest].
    cbn [scan_opts].
    destruct (mem k ["-m"; "--multistorms"]) eqn:E1; [now apply IH|].
    destruct (mem k ["-M"; "--multibasins"]) eqn:E2; [now apply IH|].
    destruct (mem k ["-n"; "--renumber"]) eqn:E3; [now apply IH|].
    unfold known_keys, multistorms_keys, multibasins_keys, renumber_keys in Hk.
    rewrite !mem_app, E1, E2, E3 in Hk. discriminate.
Qed.

(** The option loop succeeds on what [getopt] returns. *)
Lemma getopt_then_scan posixly_correct argv opts args :
  gnu_getopt posixly_correct argv short_opts long_opts = Ok (opts, args) ->
  exists mslist mblist renumber,
    scan_opts opts [] [] true = Ok (mslist, mblist, renumber).
Proof.
  intros H. apply gnu_getopt_known in H.
  destruct (scan_opts_known opts [] [] true H) as ([[ms mb] rn] & Hr). eauto.
Qed.

(** The loop of [gnu_getopt], one turn unfolded. *)
Lemma gnu_loop_eq aof so lo opts pa args :
  gnu_loop aof so lo opts pa args =
  match args with
  | [] => Ok (opts, pa)
  | a :: rest =>
      if String.eqb a "--" then Ok (opts, pa ++ rest)
      else if startswith a "--" then
        match do_longs opts (drop 2 a) lo rest with
        | Raise e => Raise e
        | Ok (opts', args') => gnu_loop aof so lo opts' pa args'
        end
      else if startswith a "-" && negb (String.eqb a "-") then
        match do_shorts opts (drop 1 a) so rest with
        | Raise e => Raise e
        | Ok (opts', args') => gnu_loop aof so lo opts' pa args'
        end
      else if aof then Ok (opts, pa ++ a :: rest)
      else gnu_loop aof so lo opts (pa ++ [a]) rest
  end.
Proof.
  funelim (gnu_loop aof so lo opts pa args); try reflexivity.
  all: rewrite ?Heq, ?Heq0, ?Heq1, ?Heq2; try reflexivity.
  all: match goal with E : _ = _ |- context [match ?x with _ => _ end] =>
         match type of E with x = _ => rewrite E; reflexivity end
       end.
Qed.

(** An option list handed to [getopt]'s functions stays in front. *)
Lemma do_shorts_prefix pre optstring so args : forall opts,
  do_shorts (pre ++ opts) optstring so args =
  in_front pre (do_shorts opts optstring so args).
Proof.
  induction optstring as [|opt rest IH]; intros opts; cbn [do_shorts]; [reflexivity|].
  destruct (short_has_arg opt so) as [[|]|e]; [| |reflexivity].
  - destruct rest; [destruct args|]; cbn [in_front]; now rewrite ?app_assoc.
  - now rewrite <- IH, app_assoc.
Qed.

Lemma do_longs_prefix pre opts opt lo args :
  do_longs (pre ++ opts) opt lo args = in_front pre (do_longs opts opt lo args).
Proof.
  unfold do_longs.
  destruct (partition_at "=" opt) as [[name value]|];
    match goal with |- context [long_has_args ?o lo] =>
      destruct (long_has_args o lo) as [[[|] full]|e] end;
    try reflexivity; try destruct args; cbn [in_front]; now rewrite ?app_assoc.
Qed.

Lemma gnu_loop_prefix aof so lo pre n : forall args opts pa,
  (length args <= n)%nat ->
  gnu_loop aof so lo (pre ++ opts) pa args =
  in_front pre (gnu_loop aof so lo opts pa args).
Proof.
  induction n as [|n IH]; intros args opts pa Hn;
    rewrite (gnu_loop_eq aof so lo (pre ++ opts)), (gnu_loop_eq aof so lo opts);
    destruct args as [|a rest]; try reflexivity; [simpl in Hn; lia|].
  simpl in Hn.
  destruct (String.eqb a "--"); [reflexivity|].
  destruct (startswith a "--").
  { rewrite do_longs_prefix.
    destruct (do_longs opts (drop 2 a) lo rest) as [[o r]|e] eqn:E; [|reflexivity].
    cbn [in_front]. apply IH.
    assert (length r <= length rest)%nat; [|lia].
    revert E. unfold do_longs.
    destruct (partition_at "=" (drop 2 a)) as [[name value]|];
      match goal with |- context [long_has_args ?x lo] =>
        destruct (long_has_args x lo) as [[[|] full]|err] end;
      try discriminate; try destruct rest; try discriminate;
      intros [= _ <-]; simpl; lia. }
  destruct (startswith a "-" && negb (String.eqb a "-")).
  { rewrite do_shorts_prefix.
    destruct (do_shorts opts (drop 1 a) so rest) as [[o r]|e] eqn:E; [|reflexivity].
    cbn [in_front]. apply IH.
    assert (Hlen : forall s os, do_shorts os s so rest = Ok (o, r) ->
                                (length r <= length rest)%nat).
    { induction s as [|c s IHs]; intros os; cbn [do_shorts].
      - intros [= _ <-]. lia.
      - destruct (short_has_arg c so) as [[|]|err]; try discriminate.
        + destruct s.
          * destruct rest; [discriminate|]. intros [= _ <-]. simpl. lia.
          * intros [= _ <-]. lia.
        + apply IHs. }
    apply Hlen in E. lia. }
  destruct aof; [reflexivity|]. apply IH. lia.
Qed.

(** X1: the short form of the renumbering flag takes no value.  [-n] in
    front of a command line adds the option [-n], without a value, in
    front of those that [getopt] finds in the rest, and changes nothing
    else: the next argument is not consumed. *)
Lemma short_renumber_flag_parsed posixly_correct argv :
  gnu_getopt posixly_correct ("-n" :: argv) short_opts long_opts =
  in_front [("-n", "")] (gnu_getopt posixly_correct argv short_opts long_opts).
Proof.
  assert (Hscript : forall a,
             gnu_getopt posixly_correct a short_opts long_opts =
             gnu_loop match posixly_correct with
                      | Some (String _ _) => true
                      | _ => false
                      end short_opts long_opts [] [] a).
  { intros a. unfold gnu_getopt.
    replace (startswith short_opts "+") with false by reflexivity.
    now destruct posixly_correct as [[|]|]. }
  rewrite !Hscript, (gnu_loop_eq _ _ _ _ _ ("-n" :: argv)).
  replace (String.eqb "-n" "--") with false by reflexivity.
  replace (startswith "-n" "--") with false by reflexivity.
  replace (startswith "-n" "-" && negb (String.eqb "-n" "-")) with true by reflexivity.
  replace (do_shorts [] (drop 1 "-n") short_opts argv)
    with (@Ok (opt_list * list string) ([("-n", "")], argv)) by reflexivity.
  apply (@gnu_loop_prefix _ _ _ [("-n", "")] (length argv) argv [] []). lia.
Qed.

Unset Implicit Arguments.

(** *** More on what [getopt] does with a command line *)

Lemma do_longs_length opts opt lo rest o r :
  do_longs opts opt lo rest = Ok (o, r) -> (length r <= length rest)%nat.
Proof.
  unfold do_longs.
  destruct (partition_at "=" opt) as [[name value]|];
    match goal with |- context [long_has_args ?x lo] =>
      destruct (long_has_args x lo) as [[[|] full]|err] end;
    try discriminate; try destruct rest; try discriminate;
    intros [= _ <-]; simpl; lia.
Qed.

Lemma do_shorts_length so rest o r : forall s os,
  do_shorts os s so rest = Ok (o, r) -> (length r <= length rest)%nat.
Proof.
  induction s as [|c s IHs]; intros os; cbn [do_shorts].
  - intros [= _ <-]. lia.
  - destruct (short_has_arg c so) as [[|]|err]; try discriminate.
    + destruct s.
      * destruct rest; [discriminate|]. intros [= _ <-]. simpl. lia.
      * intros [= _ <-]. lia.
    + apply IHs.
Qed.

(** [gnu_getopt] on the option strings of the script: they do not start
    with [+], so that only [POSIXLY_CORRECT] decides how positional
    arguments are treated. *)
Lemma gnu_getopt_script posixly_correct argv :
  gnu_getopt posixly_correct argv short_opts long_opts =
  gnu_loop match posixly_correct with
           | Some (String _ _) => true
           | _ => false
           end short_opts long_opts [] [] argv.
Proof.
  unfold gnu_getopt.
  replace (startswith short_opts "+") with false by reflexivity.
  now destruct posixly_correct as [[|]|].
Qed.

(** The positional arguments collected so far stay in front. *)
Lemma gnu_loop_args_prefix aof so lo pre n : forall args opts pa,
  (length args <= n)%nat ->
  gnu_loop aof so lo opts (pre ++ pa) args =
  args_in_front pre (gnu_loop aof so lo opts pa args).
Proof.
  induction n as [|n IH]; intros args opts pa Hn;
    rewrite (gnu_loop_eq aof so lo opts (pre ++ pa)), (gnu_loop_eq aof so lo opts pa);
    destruct args as [|a rest]; try reflexivity; [simpl in Hn; lia|].
  simpl in Hn.
  destruct (String.eqb a "--"); [cbn [args_in_front]; now rewrite app_assoc|].
  destruct (startswith a "--").
  { destruct (do_longs opts (drop 2 a) lo rest) as [[o r]|e] eqn:E; [|reflexivity].
    apply IH. apply do_longs_length in E. lia. }
  destruct (startswith a "-" && negb (String.eqb a "-")).
  { destruct (do_shorts opts (drop 1 a) so rest) as [[o r]|e] eqn:E; [|reflexivity].
    apply IH. apply do_shorts_length in E. lia. }
  destruct aof; [cbn [args_in_front]; now rewrite app_assoc|].
  rewrite <- app_assoc. apply IH. lia.
Qed.

(** Without [POSIXLY_CORRECT], arguments that do not start with a dash
    are set aside and the scan goes on. *)
Lemma gnu_loop_skips_arguments so lo rest pos : forall opts pa,
  Forall (fun a => startswith a "-" = false) pos ->
  gnu_loop false so lo opts pa (pos ++ rest) = gnu_loop false so lo opts (pa ++ pos) rest.
Proof.
  induction pos as [|a pos IH]; intros opts pa Hpos.
  - now rewrite app_nil_r.
  - inversion Hpos as [|? ? Ha Hrest]; subst.
    destruct (not_dash_not_option a Ha) as [H1 H2].
    cbn [app]. rewrite gnu_loop_eq, H1, H2, Ha. cbn [andb].
    rewrite IH by assumption. now rewrite <- app_assoc.
Qed.

(** X2: options may follow positional arguments.  Without
    [POSIXLY_CORRECT] in the environment, leading arguments that do not
    start with a dash are kept, in order, in front of the positional
    arguments of the rest of the command line, and the options found are
    those of the rest. *)
Theorem options_may_follow_arguments pos rest :
  Forall (fun a => startswith a "-" = false) pos ->
  gnu_getopt None (pos ++ rest) short_opts long_opts =
  args_in_front pos (gnu_getopt None rest short_opts long_opts).
Proof.
  intros Hpos. rewrite !gnu_getopt_script.
  rewrite (gnu_loop_skips_arguments _ _ rest pos [] [] Hpos). cbn [app].
  rewrite <- (app_nil_r pos) at 1.
  apply (gnu_loop_args_prefix false short_opts long_opts pos (length rest)). lia.
Qed.

(** With a non-empty [POSIXLY_CORRECT], the scan stops at the first
    argument that does not start with a dash. *)
Lemma posixly_correct_stops c s a rest :
  startswith a "-" = false ->
  gnu_getopt (Some (String c s)) (a :: rest) short_opts long_opts = Ok ([], a :: rest).
Proof.
  intros Ha. destruct (not_dash_not_option a Ha) as [H1 H2].
  rewrite gnu_getopt_script, gnu_loop_eq, H1, H2, Ha. reflexivity.
Qed.

(** X3: the long form of the renumbering flag is declared as [renumber=],
    an option with a value.  [--renumber] takes the next argument as its
    value, whatever it is, [--renumber=v] takes [v], and [--renumber] at
    the end of the command line is rejected.  *)
Theorem long_renumber_takes_value posixly_correct v argv :
  gnu_getopt posixly_correct ("--renumber" :: v :: argv) short_opts long_opts =
    in_front [("--renumber", v)]
             (gnu_getopt posixly_correct argv short_opts long_opts) /\
  gnu_getopt posixly_correct (("--renumber=" ^^ v) :: argv) short_opts long_opts =
    in_front [("--renumber", v)]
             (gnu_getopt posixly_correct argv short_opts long_opts) /\
  gnu_getopt posixly_correct ["--renumber"] short_opts long_opts =
    Raise (GetoptError "option --renumber requires argument").
Proof.
  rewrite !gnu_getopt_script. split; [|split].
  - rewrite (gnu_loop_eq _ _ _ _ _ ("--renumber" :: v :: argv)).
    replace (String.eqb "--renumber" "--") with false by reflexivity.
    replace (startswith "--renumber" "--") with true by reflexivity.
    replace (do_longs [] (drop 2 "--renumber") long_opts (v :: argv))
      with (@Ok (opt_list * list string) ([("--renumber", v)], argv)) by reflexivity.
    apply (@gnu_loop_prefix _ _ _ [("--renumber", v)] (length argv) argv [] []). lia.
  - rewrite (gnu_loop_eq _ _ _ _ _ (("--renumber=" ^^ v) :: argv)).
    replace (String.eqb ("--renumber=" ^^ v) "--") with false by reflexivity.
    replace (startswith ("--renumber=" ^^ v) "--") with true by reflexivity.
    replace (do_longs [] (drop 2 ("--renumber=" ^^ v)) long_opts argv)
      with (@Ok (opt_list * list string) ([("--renumber", v)], argv)) by reflexivity.
    apply (@gnu_loop_prefix _ _ _ [("--renumber", v)] (length argv) argv [] []). lia.
  - now destruct posixly_correct as [[|]|].
Qed.

Section Properties.

Variables world conf datetime optmap : Type.
Variable K : collaborators world conf datetime optmap.

Abbreviation M := (M world conf datetime optmap).
Abbreviation event := (event conf datetime optmap).
#[local] Existing Instance Monad_M.
Local Open Scope monad_scope.

(** *** Running the monad *)

Lemma run_bind {A B} (m : M A) (k : A -> M B) (w : world) :
  bind m k w =
  match m w with
  | (Ok a, w1, t1) => let '(r, w2, t2) := k a w1 in (r, w2, t1 ++ t2)
  | (Raise e, w1, t1) => (Raise e, w1, t1)
  end.
Proof. reflexivity. Qed.

Lemma bind_ok_inv {A B} (m : M A) (k : A -> M B) w b w' t :
  bind m k w = (Ok b, w', t) ->
  exists a w1 t1 t2,
    m w = (Ok a, w1, t1) /\ k a w1 = (Ok b, w', t2) /\ t = t1 ++ t2.
Proof.
  rewrite run_bind. destruct (m w) as [[[a|e] w1] t1]; [|discriminate].
  destruct (k a w1) as [[r w2] t2] eqn:Hk. intros [= -> -> <-].
  exists a, w1, t1, t2. auto.
Qed.

Lemma call_inv {R} (f : ext world R) (ev : result R -> event) w r w' t :
  call f ev w = (r, w', t) -> f w = (r, w') /\ t = [ev r].
Proof.
  unfold call. destruct (f w) as [r0 w0]. intros [= -> -> <-]. auto.
Qed.

Lemma events_bind {A B} (m : M A) (k : A -> M B) w :
  events (bind m k w) =
  events (m w) ++
  match outcome (m w) with
  | Ok a => events (k a (final_world (m w)))
  | Raise _ => []
  end.
Proof.
  rewrite run_bind. unfold events, outcome, final_world.
  destruct (m w) as [[[a|e] w1] t1]; simpl.
  - destruct (k a w1) as [[r w2] t2]. reflexivity.
  - now rewrite app_nil_r.
Qed.

Lemma outcome_bind {A B} (m : M A) (k : A -> M B) w :
  outcome (bind m k w) =
  match outcome (m w) with
  | Ok a => outcome (k a (final_world (m w)))
  | Raise e => Raise e
  end.
Proof.
  rewrite run_bind. unfold events, outcome, final_world.
  destruct (m w) as [[[a|e] w1] t1]; simpl; [|reflexivity].
  destruct (k a w1) as [[r w2] t2]. reflexivity.
Qed.

Lemma final_world_bind {A B} (m : M A) (k : A -> M B) w :
  final_world (bind m k w) =
  match outcome (m w) with
  | Ok a => final_world (k a (final_world (m w)))
  | Raise e => final_world (m w)
  end.
Proof.
  rewrite run_bind. unfold events, outcome, final_world.
  destruct (m w) as [[[a|e] w1] t1]; simpl; [|reflexivity].
  destruct (k a w1) as [[r w2] t2]. reflexivity.
Qed.

Lemma events_call {R} (f : ext world R) (ev : result R -> event) w :
  events (call f ev w) = [ev (fst (f w))].
Proof. unfold call, events. now destruct (f w). Qed.

Lemma outcome_call {R} (f : ext world R) (ev : result R -> event) w :
  outcome (call f ev w) = fst (f w).
Proof. unfold call, outcome. now destruct (f w). Qed.

Lemma final_world_call {R} (f : ext world R) (ev : result R -> event) w :
  final_world (call f ev w) = snd (f w).
Proof. unfold call, final_world. now destruct (f w). Qed.

(** *** Computations that emit no event of a given kind *)

Lemma silent_ret sel {A} (a : A) : silent sel (ret a : M A).
Proof. intros w. reflexivity. Qed.

Lemma silent_raise sel {A} e : silent sel (raise e : M A).
Proof. intros w. reflexivity. Qed.

Lemma silent_read sel {R} (f : world -> R) : silent sel (read f : M R).
Proof. intros w. reflexivity. Qed.

Lemma silent_lift sel {A} (r : result A) : silent sel (lift r : M A).
Proof. intros w. reflexivity. Qed.

Lemma silent_emit sel (e : event) : sel e = false -> silent sel (emit e : M unit).
Proof. intros H w. unfold emit, events. simpl. now rewrite H. Qed.

Lemma silent_call sel {R} (f : ext world R) (ev : result R -> event) :
  (forall r, sel (ev r) = false) -> silent sel (call f ev).
Proof.
  intros H w. unfold call, events. destruct (f w) as [r w']. simpl. now rewrite H.
Qed.

Lemma silent_bind sel {A B} (m : M A) (k : A -> M B) :
  silent sel m -> (forall a, silent sel (k a)) -> silent sel (bind m k).
Proof.
  intros Hm Hk w. rewrite events_bind, filter_app, Hm.
  destruct (outcome (m w)); [apply Hk | reflexivity].
Qed.

(** Unfolds the monad's operations in the goal. *)
Ltac run_monad :=
  unfold bind, ret, Monad_M, mbind, mret, log_info, print, emit, read, raise, lift,
         usage, call, ecflow_event;
  cbv beta iota.

(** *** The command line *)

(** What [main] does up to the argument check when [getopt] accepts the
    command line. *)
Lemma main_accepts argv w opts args :
  gnu_getopt (environ_get K w "POSIXLY_CORRECT") argv short_opts long_opts
    = Ok (opts, args) ->
  main K argv w =
  if (length args <? 4)%nat
  then (Raise (SystemExit 2), w,
        [Log ScriptLogger Info MsgTop;
         Log ScriptLogger Critical MsgInvalidArguments;
         EvPrint usage_text])
  else let '(r, w', t) := main_body K opts args w in
       (r, w', Log ScriptLogger Info MsgTop :: t).
Proof.
  intros H. unfold main, parse_command_line. run_monad.
  rewrite H. cbv beta iota.
  destruct (length args <? 4)%nat; run_monad.
  - reflexivity.
  - destruct (main_body K opts args w) as [[r w'] t]. reflexivity.
Qed.

(** A command line of at least four arguments, none starting with a dash,
    passes the first lines of [main]. *)
Lemma plain_arguments_proceed argv w :
  Forall (fun a => startswith a "-" = false) argv ->
  (4 <= length argv)%nat ->
  main K argv w =
  let '(r, w', t) := main_body K [] argv w in
  (r, w', Log ScriptLogger Info MsgTop :: t).
Proof.
  intros Hplain Hlen.
  rewrite (main_accepts argv w [] argv (gnu_getopt_positional _ Hplain)).
  destruct (Nat.ltb_spec (length argv) 4); [lia | reflexivity].
Qed.

(** C5 (as the code has it): when [getopt] rejects the command line, the
    script prints [getopt]'s message and calls [usage] with a string in
    place of the logger; [usage] fails on its first statement, before it
    prints the usage message, and the process ends with status 2 through
    the handler of unexpected exceptions. *)
Theorem getopt_error_skips_usage argv w0 w msg :
  setup K w0 = (Ok tt, w) ->
  gnu_getopt (environ_get K w "POSIXLY_CORRECT") argv short_opts long_opts
    = Raise (GetoptError msg) ->
  main K argv w =
    (Raise (AttributeError "'str' object has no attribute 'critical'"), w,
     [Log ScriptLogger Info MsgTop; EvPrint msg]) /\
  script K argv w0 =
    (2%Z, w,
     [EvSetup (Ok tt); Log JLogger Info MsgStarting;
      Log ScriptLogger Info MsgTop; EvPrint msg;
      Log JLogger Critical (MsgFailed "'str' object has no attribute 'critical'")]).
Proof.
  intros Hsetup H.
  assert (Hmain : main K argv w =
    (Raise (AttributeError "'str' object has no attribute 'critical'"), w,
     [Log ScriptLogger Info MsgTop; EvPrint msg])).
  { unfold main, parse_command_line. run_monad.
    rewrite H. reflexivity. }
  split; [exact Hmain|].
  unfold script. run_monad.
  rewrite Hsetup. cbv beta iota. rewrite Hmain. reflexivity.
Qed.

(** C6: with fewer than four positional arguments the script logs the
    error, prints the usage message and exits with status 2; with four or
    more (so with exactly four and no option) it passes the check and goes
    on to line 138, the conversion of the cycle. *)
Theorem argument_count_check argv w0 w opts args :
  setup K w0 = (Ok tt, w) ->
  gnu_getopt (environ_get K w "POSIXLY_CORRECT") argv short_opts long_opts
    = Ok (opts, args) ->
  if (length args <? 4)%nat
  then main K argv w =
         (Raise (SystemExit 2), w,
          [Log ScriptLogger Info MsgTop;
           Log ScriptLogger Critical MsgInvalidArguments;
           EvPrint usage_text]) /\
       script K argv w0 =
         (2%Z, w,
          [EvSetup (Ok tt); Log JLogger Info MsgStarting;
           Log ScriptLogger Info MsgTop;
           Log ScriptLogger Critical MsgInvalidArguments;
           EvPrint usage_text])
  else exists a0 r rest,
         hd_error args = Some a0 /\
         to_datetime K a0 w = r /\
         events (main K argv w) =
           Log ScriptLogger Info MsgTop :: EvToDatetime a0 (fst r) :: rest.
Proof.
  intros Hsetup H. rewrite (main_accepts _ _ _ _ H).
  destruct (length args <? 4)%nat eqn:Hlen.
  - split; [reflexivity|].
    unfold script. run_monad.
    rewrite Hsetup. cbv beta iota. rewrite (main_accepts _ _ _ _ H), Hlen. reflexivity.
  - apply Nat.ltb_ge in Hlen.
    destruct args as [|a0 args']; [simpl in Hlen; lia|].
    destruct (main_body K opts (a0 :: args') w) as [[r1 w2] t2] eqn:Hbody.
    assert (Ht : t2 = events (main_body K opts (a0 :: args') w)) by now rewrite Hbody.
    unfold main_body in Ht. rewrite events_bind in Ht.
    change (item (a0 :: args') 0 w) with (@Ok string a0, w, @nil event) in Ht.
    cbn [outcome final_world events fst snd app] in Ht.
    rewrite events_bind, events_call in Ht. cbn [app] in Ht.
    exists a0, (to_datetime K a0 w). eexists.
    repeat split. cbn [events snd]. rewrite Ht. reflexivity.
Qed.

Lemma silent_weaken (sel sel' : event -> bool) {A} (m : M A) :
  (forall e, sel' e = true -> sel e = true) -> silent sel m -> silent sel' m.
Proof.
  intros Hsel Hm w. specialize (Hm w).
  induction (events (m w)) as [|e t IH]; [reflexivity|]. simpl in *.
  destruct (sel' e) eqn:He.
  - rewrite (Hsel _ He) in Hm. discriminate.
  - apply IH. destruct (sel e); [discriminate | assumption].
Qed.

Lemma filter_events_bind sel {A B} (m : M A) (k : A -> M B) w :
  filter sel (events (bind m k w)) =
  filter sel (events (m w)) ++
  match outcome (m w) with
  | Ok a => filter sel (events (k a (final_world (m w))))
  | Raise _ => []
  end.
Proof.
  rewrite events_bind, filter_app. now destruct (outcome (m w)).
Qed.

(** Proves [silent sel m] for a computation built from the monad's
    operations, given [H : forall e, kind e = true -> sel e = false] for a
    kind of events that covers what [m] emits. *)
Ltac silence H :=
  repeat first
    [ apply silent_bind
    | apply silent_ret
    | apply silent_raise
    | apply silent_read
    | apply silent_lift
    | apply silent_emit; first [reflexivity | apply H; reflexivity]
    | apply silent_call; intros; first [reflexivity | apply H; reflexivity]
    | progress intros
    | match goal with
      | |- silent _ (if ?b then _ else _) => destruct b
      | |- silent _ (match ?x with _ => _ end) => destruct x
      end ].

(** Proves that the events of one kind are not of another. *)
Ltac kinds := intros []; cbv; congruence.

(** *** Stage by stage *)

(** Lines 137-154: the cycle is converted, the options are echoed and
    scanned, and the rest of [main] runs on the result. *)
Lemma main_body_run opts args w :
  main_body K opts args w =
  match args with
  | [] => (Raise (IndexError "list index out of range"), w, [])
  | a0 :: _ =>
      match to_datetime K a0 w with
      | (Raise e, w1) => (Raise e, w1, [EvToDatetime a0 (Raise e)])
      | (Ok cycle, w1) =>
          match scan_opts opts [] [] true with
          | Raise e =>
              (Raise e, w1,
               [EvToDatetime a0 (Ok cycle);
                Log ScriptLogger Info (MsgAllOptsAndArgs opts args)])
          | Ok (mslist, mblist, renumber) =>
              let '(r, w2, t) := launch_all K cycle args mslist mblist renumber w1 in
              (r, w2,
               EvToDatetime a0 (Ok cycle)
               :: Log ScriptLogger Info (MsgAllOptsAndArgs opts args) :: t)
          end
      end
  end.
Proof.
  unfold main_body, item. destruct args as [|a0 args']; [reflexivity|].
  cbn [nth_error]. run_monad.
  destruct (to_datetime K a0 w) as [[cycle|e] w1]; [|reflexivity].
  destruct (scan_opts opts [] [] true) as [[[ms mb] rn]|e]; [|reflexivity].
  destruct (launch_all K cycle (a0 :: args') ms mb rn w1) as [[r w2] t].
  reflexivity.
Qed.

(** Lines 156-183. *)
Lemma resolve_storms_run args mslist mblist renumber w :
  resolve_storms K args mslist mblist renumber w =
  if truthy mblist then
    let renumber' := if truthy mslist then true else renumber in
    let before := [Log ScriptLogger Info (MsgArgs (tl args));
                   Log ScriptLogger Info (MsgStormBasinLists mslist mblist);
                   Log ScriptLogger Info (MsgRocotoBasins mblist)] in
    match multistorm_priority K args mblist renumber' w with
    | (Ok bstorms, w1) =>
        (Ok (merge_storms mslist bstorms, true), w1,
         before ++
         [EvPriority args mblist renumber' (Ok bstorms);
          Log ScriptLogger Info (MsgPriorityFound bstorms);
          Log ScriptLogger Info (MsgMsList (merge_storms mslist bstorms))])
    | (Raise e, w1) =>
        (Raise e, w1, before ++ [EvPriority args mblist renumber' (Raise e)])
    end
  else
    (Ok (mslist, truthy mslist), w,
     [Log ScriptLogger Info (MsgArgs (tl args));
      Log ScriptLogger Info (MsgStormBasinLists mslist mblist);
      Log ScriptLogger Info (MsgMsList mslist)]).
Proof.
  unfold resolve_storms.
  destruct mslist as [|s ms]; destruct mblist as [|b mb]; cbn [truthy]; run_monad;
    try reflexivity;
    match goal with |- context [multistorm_priority K ?a ?b ?c w] =>
      destruct (multistorm_priority K a b c w) as [[bs|e] w1] end;
    reflexivity.
Qed.

(** Lines 200-207: a single storm. *)
Lemma prepare_single_run cycle args multi_sids w :
  prepare K cycle args multi_sids false w =
  match parse_launch_args K (tl args) w with
  | (Ok p, w1) =>
      (Ok (Plan (pa_case_root p) (pa_infiles p) [pa_stid p] None
                [pa_moreopt p] None 0%Z), w1,
       [EvParse (tl args) (Ok p);
        Log ScriptLogger Info (MsgRequested (pa_stid p) cycle (pa_case_root p))])
  | (Raise e, w1) => (Raise e, w1, [EvParse (tl args) (Raise e)])
  end.
Proof.
  unfold prepare. run_monad.
  destruct (parse_launch_args K (tl args) w) as [[p|e] w1]; reflexivity.
Qed.

(** Lines 188-199: a multistorm run. *)
Lemma prepare_multi_run cycle args multi_sids w :
  prepare K cycle args multi_sids true w =
  let before := Log ScriptLogger Info (MsgParsingMultistorm multi_sids) in
  match multistorm_parse_args K multi_sids (tl args) w with
  | (Raise e, w1) => (Raise e, w1, [before; EvMultiParse multi_sids (tl args) (Raise e)])
  | (Ok p, w1) =>
      match rev (ma_moreopts p) with
      | [] => (Raise (IndexError "list index out of range"), w1,
               [before; EvMultiParse multi_sids (tl args) (Ok p)])
      | moreopt :: _ =>
          let c := LaunchCall (ma_infiles p) cycle (ma_fake_stid p) moreopt
                              (ma_case_root p) true None 1%Z in
          match launch K c w1 with
          | (Raise e, w2) =>
              (Raise e, w2,
               [before; EvMultiParse multi_sids (tl args) (Ok p); EvLaunch c (Raise e)])
          | (Ok fakestorm_conf, w2) =>
              (Ok (Plan (ma_case_root p) (ma_infiles p) (ma_stids p)
                        (Some (ma_fake_stid p)) (ma_moreopts p)
                        (Some fakestorm_conf) 1%Z), w2,
               [before; EvMultiParse multi_sids (tl args) (Ok p);
                EvLaunch c (Ok fakestorm_conf)])
          end
      end
  end.
Proof.
  unfold prepare, last_item. run_monad.
  destruct (multistorm_parse_args K multi_sids (tl args) w) as [[p|e] w1];
    [|reflexivity].
  destruct (rev (ma_moreopts p)) as [|mo rest]; [reflexivity|]. run_monad.
  match goal with |- context [launch K ?c w1] =>
    destruct (launch K c w1) as [[fc|e] w2] end; reflexivity.
Qed.

(** Lines 224-246 emit nothing but artifacts. *)
Lemma artifacts_silent sel c :
  (forall e, is_artifact e = true -> sel e = false) ->
  silent sel (nco_alert K c ;; holdvars <- write_holdvars K c ;;
              write_startfile K c holdvars).
Proof.
  intros H.
  unfold nco_alert, write_holdvars, write_generated_holdvars, write_startfile,
    log_info.
  silence H.
Qed.

(** Lines 248-260 emit nothing but notifications. *)
Lemma notify_silent sel c :
  (forall e, is_notification e = true -> sel e = false) ->
  silent sel (notify K c).
Proof.
  intros H. unfold notify, flag_and_model, ecflow_event. silence H.
Qed.

(** Of the events of lines 222-246 only the sanity check can be of a kind
    that has no artifact. *)
Lemma process_conf_filter sel c w :
  (forall e, is_artifact e = true -> sel e = false) ->
  filter sel (events (process_conf K c w)) =
  filter sel [EvSanityCheck c (fst (sanity_check K c w))].
Proof.
  intros H. unfold process_conf.
  rewrite filter_events_bind, events_call.
  destruct (outcome _); [|now rewrite app_nil_r].
  now rewrite (artifacts_silent sel c H), app_nil_r.
Qed.

Lemma process_conf_ok c w w' t :
  process_conf K c w = (Ok tt, w', t) -> fst (sanity_check K c w) = Ok tt.
Proof.
  unfold process_conf. intros H.
  apply bind_ok_inv in H. destruct H as ([] & w1 & t1 & t2 & H1 & _ & _).
  apply call_inv in H1. destruct H1 as [-> _]. reflexivity.
Qed.

Lemma events_of_run {A} (m : M A) w r w' t : m w = (r, w', t) -> events (m w) = t.
Proof. now intros ->. Qed.

(** Lines 213-220. *)
Lemma obtain_conf_run cycle p i stid global_storm_num w :
  obtain_conf K cycle p i stid global_storm_num w =
  if differs stid (pl_fake_stid p) then
    match nth_error (pl_moreopts p) i with
    | Some moreopt =>
        let c := LaunchCall (pl_infiles p) cycle stid moreopt (pl_case_root p)
                            false (pl_fakestorm_conf p) global_storm_num in
        (fst (launch K c w), snd (launch K c w), [EvLaunch c (fst (launch K c w))])
    | None => (Raise (IndexError "list index out of range"), w, [])
    end
  else
    match pl_fakestorm_conf p with
    | Some c => (Ok c, w, [])
    | None =>
        (Raise (AttributeError "'NoneType' object has no attribute 'sanity_check'"),
         w, [])
    end.
Proof.
  unfold obtain_conf, item.
  destruct (differs stid (pl_fake_stid p)).
  - destruct (nth_error (pl_moreopts p) i) as [mo|]; [|reflexivity]. run_monad.
    match goal with |- context [launch K ?c w] => destruct (launch K c w) end.
    reflexivity.
  - destruct (pl_fakestorm_conf p); reflexivity.
Qed.

Lemma obtain_conf_silent sel cycle p i stid global_storm_num :
  (forall e, is_launch e = true -> sel e = false) ->
  silent sel (obtain_conf K cycle p i stid global_storm_num).
Proof.
  intros H. unfold obtain_conf, item. silence H.
Qed.

Lemma process_conf_silent sel c :
  (forall e, is_loop_event e = true -> sel e = false) ->
  silent sel (process_conf K c).
Proof.
  intros H.
  unfold process_conf, nco_alert, write_holdvars, write_generated_holdvars,
    write_startfile, log_info.
  silence H.
Qed.

(** The loop emits nothing but launches, sanity checks and artifacts. *)
Lemma launch_loop_silent sel cycle p stids :
  (forall e, is_loop_event e = true -> sel e = false) ->
  forall i global_storm_num last,
    silent sel (launch_loop K cycle p i global_storm_num last stids).
Proof.
  intros H. induction stids as [|stid rest IH]; intros i g last; cbn [launch_loop].
  - apply silent_ret.
  - apply silent_bind.
    + apply obtain_conf_silent. intros e He. apply H.
      unfold is_loop_event, is_milestone. rewrite He. apply orb_true_r.
    + intros c. apply silent_bind; [now apply process_conf_silent|].
      intros _. apply IH.
Qed.

(** One turn of the loop, when the loop as a whole succeeds. *)
Lemma launch_loop_step cycle p i g last stid rest w r w' t :
  launch_loop K cycle p i g last (stid :: rest) w = (Ok r, w', t) ->
  exists c w1 t1 w2 t2 t3,
    obtain_conf K cycle p i stid (g + 1) w = (Ok c, w1, t1) /\
    process_conf K c w1 = (Ok tt, w2, t2) /\
    launch_loop K cycle p (S i) (g + 1) (Some c) rest w2 = (Ok r, w', t3) /\
    t = t1 ++ t2 ++ t3.
Proof.
  cbn [launch_loop]. intros H.
  apply bind_ok_inv in H. destruct H as (c & w1 & t1 & t23 & H1 & H & ->).
  apply bind_ok_inv in H. destruct H as ([] & w2 & t2 & t3 & H2 & H3 & ->).
  exists c, w1, t1, w2, t2, t3. auto.
Qed.

Lemma process_conf_ok_filter sel c w w' t :
  process_conf K c w = (Ok tt, w', t) ->
  (forall e, is_artifact e = true -> sel e = false) ->
  filter sel t = filter sel [EvSanityCheck c (Ok tt)].
Proof.
  intros H Hsel. rewrite <- (events_of_run _ _ _ _ _ H).
  rewrite (process_conf_filter sel c w Hsel), (process_conf_ok _ _ _ _ H). reflexivity.
Qed.


(** The variable [conf] after a successful loop: unchanged if there was no
    storm, and else the configuration checked last. *)
Lemma launch_loop_last cycle p stids :
  forall i g last w r w' t,
    launch_loop K cycle p i g last stids w = (Ok r, w', t) ->
    (r = last /\ filter is_sanity_check t = []) \/
    (exists c l, r = Some c /\
                 filter is_sanity_check t = l ++ [EvSanityCheck c (Ok tt)]).
Proof.
  induction stids as [|stid rest IH]; intros i g last w r w' t H.
  - cbn [launch_loop] in H. injection H as <- _ <-. now left.
  - apply launch_loop_step in H.
    destruct H as (c & w1 & t1 & w2 & t2 & t3 & H1 & H2 & H3 & ->).
    rewrite !filter_app, (process_conf_ok_filter is_sanity_check _ _ _ _ H2)
      by kinds.
    pose proof (obtain_conf_silent is_sanity_check cycle p i stid (g + 1)
                  ltac:(kinds) w) as Hs.
    rewrite (events_of_run _ _ _ _ _ H1) in Hs. rewrite Hs. cbn [filter is_sanity_check app].
    right. apply IH in H3. destruct H3 as [[-> ->]|(c' & l & -> & ->)].
    + exists c, []. auto.
    + exists c', (EvSanityCheck c (Ok tt) :: l). auto.
Qed.

(** *** The option loop *)

Lemma split_nonempty sep v : split sep v <> [].
Proof.
  destruct v as [|a v]; simpl; [discriminate|].
  destruct (Ascii.eqb a sep); [discriminate|].
  destruct (split sep v); discriminate.
Qed.

Lemma option_values_nil keys opts :
  option_values keys opts = [] <-> given keys opts = false.
Proof.
  unfold option_values, given.
  induction opts as [|[k v] rest IH]; simpl; [tauto|].
  destruct (mem k keys); simpl.
  - split; [|discriminate]. intros H. apply app_eq_nil in H.
    now destruct (split_nonempty _ _ (proj1 H)).
  - exact IH.
Qed.

(** What the option loop computes: the values of the [-m] options, those
    of the [-M] options, and whether no [-n] was given. *)
Lemma scan_opts_values opts : forall ms mb rn ms' mb' rn',
  scan_opts opts ms mb rn = Ok (ms', mb', rn') ->
  ms' = ms ++ option_values multistorms_keys opts /\
  mb' = mb ++ option_values multibasins_keys opts /\
  rn' = rn && negb (given renumber_keys opts).
Proof.
  induction opts as [|[k v] rest IH]; intros ms mb rn ms' mb' rn'.
  - simpl. intros [= <- <- <-]. now rewrite !app_nil_r, andb_true_r.
  - cbn [scan_opts]. unfold option_values, given. cbn [flat_map existsb fst snd].
    fold (option_values multistorms_keys rest) (option_values multibasins_keys rest)
         (given renumber_keys rest).
    change ["-m"; "--multistorms"] with multistorms_keys.
    change ["-M"; "--multibasins"] with multibasins_keys.
    change ["-n"; "--renumber"] with renumber_keys.
    destruct (mem k multistorms_keys) eqn:Hm;
      [|destruct (mem k multibasins_keys) eqn:HM;
        [|destruct (mem k renumber_keys) eqn:Hn; [|discriminate]]];
      intros H; apply IH in H; destruct H as (-> & -> & ->).
    + assert (mem k multibasins_keys = false /\ mem k renumber_keys = false) as [-> ->].
      { unfold mem, multistorms_keys in Hm. simpl in Hm.
        destruct (String.eqb_spec k "-m") as [->|_]; [now split|].
        destruct (String.eqb_spec k "--multistorms") as [->|_]; [now split|].
        discriminate. }
      now rewrite <- !app_assoc.
    + assert (mem k renumber_keys = false) as ->.
      { unfold mem, multibasins_keys in HM. simpl in HM.
        destruct (String.eqb_spec k "-M") as [->|_]; [reflexivity|].
        destruct (String.eqb_spec k "--multibasins") as [->|_]; [reflexivity|].
        discriminate. }
      now rewrite <- !app_assoc.
    + simpl. now rewrite andb_false_r.
Qed.

(** *** Successful runs *)

Lemma main_ok argv w opts args w' t :
  gnu_getopt (environ_get K w "POSIXLY_CORRECT") argv short_opts long_opts
    = Ok (opts, args) ->
  main K argv w = (Ok tt, w', t) ->
  exists a0 cycle w1 rn t',
    hd_error args = Some a0 /\
    to_datetime K a0 w = (Ok cycle, w1) /\
    scan_opts opts [] [] true
      = Ok (option_values multistorms_keys opts,
            option_values multibasins_keys opts, rn) /\
    launch_all K cycle args (option_values multistorms_keys opts)
               (option_values multibasins_keys opts) rn w1 = (Ok tt, w', t') /\
    t = Log ScriptLogger Info MsgTop
        :: EvToDatetime a0 (Ok cycle)
        :: Log ScriptLogger Info (MsgAllOptsAndArgs opts args) :: t'.
Proof.
  intros Hopt H. rewrite (main_accepts _ _ _ _ Hopt) in H.
  destruct (length args <? 4)%nat; [discriminate|].
  rewrite main_body_run in H.
  destruct args as [|a0 args']; [discriminate|].
  destruct (to_datetime K a0 w) as [[cycle|e] w1] eqn:Hcycle; [|discriminate].
  destruct (scan_opts opts [] [] true) as [[[ms mb] rn]|e] eqn:Hscan; [|discriminate].
  destruct (scan_opts_values _ _ _ _ _ _ _ Hscan) as (Hms & Hmb & _).
  simpl in Hms, Hmb. subst ms mb.
  destruct (launch_all K cycle (a0 :: args') _ _ rn w1) as [[r w2] t2] eqn:Hall.
  injection H as -> -> <-.
  exists a0, cycle, w1, rn, t2. repeat split; assumption || reflexivity.
Qed.

Lemma launch_all_ok cycle args ms mb rn w w' t :
  launch_all K cycle args ms mb rn w = (Ok tt, w', t) ->
  exists sids go w1 t1 p w2 t2 c w3 t3 t4,
    resolve_storms K args ms mb rn w = (Ok (sids, go), w1, t1) /\
    prepare K cycle args sids go w1 = (Ok p, w2, t2) /\
    launch_loop K cycle p 0 (pl_global_storm_num p) None (pl_stids p) w2
      = (Ok (Some c), w3, t3) /\
    notify K c w3 = (Ok tt, w', t4) /\
    t = t1 ++ t2 ++ t3 ++ t4.
Proof.
  unfold launch_all. intros H.
  apply bind_ok_inv in H. destruct H as ([sids go] & w1 & t1 & ta & H1 & H & ->).
  apply bind_ok_inv in H. destruct H as (p & w2 & t2 & tb & H2 & H & ->).
  apply bind_ok_inv in H. destruct H as ([c|] & w3 & t3 & t4 & H3 & H4 & ->);
    [|discriminate].
  exists sids, go, w1, t1, p, w2, t2, c, w3, t3, t4. repeat split; assumption.
Qed.

(** *** A single storm *)

(** Without [-m] and [-M], [main] parses the arguments of one storm,
    launches it once and processes the configuration it got. *)
Lemma single_storm_run cycle args rn w :
  events (launch_all K cycle args [] [] rn w) =
  [Log ScriptLogger Info (MsgArgs (tl args));
   Log ScriptLogger Info (MsgStormBasinLists [] []);
   Log ScriptLogger Info (MsgMsList []);
   EvParse (tl args) (fst (parse_launch_args K (tl args) w))] ++
  match parse_launch_args K (tl args) w with
  | (Raise _, _) => []
  | (Ok p, w1) =>
      [Log ScriptLogger Info (MsgRequested (pa_stid p) cycle (pa_case_root p));
       EvLaunch (single_launch conf cycle p) (fst (launch K (single_launch conf cycle p) w1))] ++
      match launch K (single_launch conf cycle p) w1 with
      | (Raise _, _) => []
      | (Ok c, w2) =>
          events (process_conf K c w2) ++
          match process_conf K c w2 with
          | (Ok _, w3, _) => events (notify K c w3)
          | (Raise _, _, _) => []
          end
      end
  end.
Proof.
  unfold launch_all.
  rewrite run_bind, resolve_storms_run. cbn [truthy]. cbv beta iota.
  rewrite run_bind, prepare_single_run.
  destruct (parse_launch_args K (tl args) w) as [[p|e] w1]; [|reflexivity].
  cbv beta iota. rewrite run_bind. cbn [pl_stids pl_global_storm_num launch_loop].
  rewrite run_bind, obtain_conf_run.
  cbn [differs pl_fake_stid pl_moreopts nth_error pl_infiles pl_case_root
       pl_fakestorm_conf]. cbv zeta.
  change (0 + 1)%Z with 1%Z. fold (single_launch conf cycle p).
  destruct (launch K (single_launch conf cycle p) w1) as [[c|e] w2]; [|reflexivity].
  cbn [fst snd]. rewrite run_bind.
  destruct (process_conf K c w2) as [[[[]|e] w3] t3].
  - cbn [ret Monad_M mret].
    destruct (notify K c w3) as [[r4 w4] t4]. cbn [events snd app].
    now rewrite app_nil_r.
  - cbn [events snd app]. now rewrite !app_nil_r.
Qed.

(** The storm events of a run without [-m] and [-M]. *)
Lemma single_storm_events cycle args rn w :
  let t := filter is_storm_event (events (launch_all K cycle args [] [] rn w)) in
  match parse_launch_args K (tl args) w with
  | (Raise e, _) => t = [EvParse (tl args) (Raise e)]
  | (Ok p, w1) =>
      match launch K (single_launch conf cycle p) w1 with
      | (Raise e, _) =>
          t = [EvParse (tl args) (Ok p); EvLaunch (single_launch conf cycle p) (Raise e)]
      | (Ok c, w2) =>
          t = [EvParse (tl args) (Ok p); EvLaunch (single_launch conf cycle p) (Ok c);
               EvSanityCheck c (fst (sanity_check K c w2))]
      end
  end.
Proof.
  intros t. subst t. rewrite single_storm_run.
  destruct (parse_launch_args K (tl args) w) as [[p|e] w1]; [|reflexivity].
  destruct (launch K (single_launch conf cycle p) w1) as [[c|e] w2]; [|reflexivity].
  rewrite !filter_app, (process_conf_filter is_storm_event c w2) by kinds.
  destruct (process_conf K c w2) as [[[[]|e] w3] t3]; [|reflexivity].
  now rewrite (notify_silent is_storm_event c ltac:(kinds) w3).
Qed.

(** No call of [multistorm_parse_args] in such a run. *)
Lemma single_storm_no_multi_parse cycle args rn w :
  filter is_multi_parse (events (launch_all K cycle args [] [] rn w)) = [].
Proof.
  rewrite single_storm_run.
  destruct (parse_launch_args K (tl args) w) as [[p|e] w1]; [|reflexivity].
  destruct (launch K (single_launch conf cycle p) w1) as [[c|e] w2]; [|reflexivity].
  rewrite !filter_app, (process_conf_filter is_multi_parse c w2) by kinds.
  destruct (process_conf K c w2) as [[[[]|e] w3] t3]; [|reflexivity].
  now rewrite (notify_silent is_multi_parse c ltac:(kinds) w3).
Qed.

(** The events of [main] in terms of those of [launch_all], for any kind
    of event that excludes those of the first lines. *)
Lemma main_filter sel argv w opts args :
  gnu_getopt (environ_get K w "POSIXLY_CORRECT") argv short_opts long_opts
    = Ok (opts, args) ->
  (forall e, is_preamble e = true -> sel e = false) ->
  filter sel (events (main K argv w)) = [] \/
  exists a0 cycle w1 ms mb rn,
    hd_error args = Some a0 /\
    to_datetime K a0 w = (Ok cycle, w1) /\
    scan_opts opts [] [] true = Ok (ms, mb, rn) /\
    filter sel (events (main K argv w))
    = filter sel (events (launch_all K cycle args ms mb rn w1)).
Proof.
  intros Hopt Hsel.
  assert (Hl : forall who lvl m, sel (Log who lvl m) = false) by (intros; now apply Hsel).
  assert (Hp : forall s, sel (EvPrint s) = false) by (intros; now apply Hsel).
  assert (Hd : forall s r, sel (EvToDatetime s r) = false) by (intros; now apply Hsel).
  rewrite (main_accepts _ _ _ _ Hopt).
  destruct (length args <? 4)%nat.
  { left. cbn [events snd filter]. now rewrite !Hl, Hp. }
  rewrite main_body_run.
  destruct args as [|a0 args'];
    [left; cbv beta iota; cbn [events snd filter]; now rewrite ?Hl, ?Hd|].
  destruct (to_datetime K a0 w) as [[cycle|e] w1] eqn:Hcycle;
    [|left; cbv beta iota; cbn [events snd filter]; now rewrite ?Hl, ?Hd].
  destruct (scan_opts opts [] [] true) as [[[ms mb] rn]|e] eqn:Hscan;
    [|left; cbv beta iota; cbn [events snd filter]; now rewrite ?Hl, ?Hd].
  right. exists a0, cycle, w1, ms, mb, rn.
  split; [reflexivity|]. split; [assumption|]. split; [reflexivity|].
  destruct (launch_all K cycle (a0 :: args') ms mb rn w1) as [[r w2] t].
  cbv beta iota. cbn [events snd filter]. now rewrite ?Hl, ?Hd.
Qed.

(** C10: a run without [-m] and [-M] never calls [multistorm_parse_args],
    and its storm events are fixed by what the collaborators answer.
    Nothing is parsed or launched if fewer than four arguments are left or
    the cycle cannot be converted.  Otherwise [parse_launch_args] is
    called; if it fails, nothing is launched.  If it returns, the plan of
    the run has no fake storm's id and no fake storm's configuration, so
    that the id of the storm differs from the fake one, and [launch] is
    called exactly once, for this storm, with [fakestorm_conf=None] and
    not as a fake storm; the configuration that it returns, if it does,
    is the one that is checked. *)
Theorem single_storm_no_placeholder argv w opts args :
  gnu_getopt (environ_get K w "POSIXLY_CORRECT") argv short_opts long_opts
    = Ok (opts, args) ->
  given multistorms_keys opts = false ->
  given multibasins_keys opts = false ->
  filter is_multi_parse (events (main K argv w)) = [] /\
  let t := filter is_storm_event (events (main K argv w)) in
  if (length args <? 4)%nat then t = []
  else
    match args with
    | [] => t = []
    | a0 :: _ =>
        match to_datetime K a0 w with
        | (Raise _, _) => t = []
        | (Ok cycle, w1) =>
            match parse_launch_args K (tl args) w1 with
            | (Raise e, _) => t = [EvParse (tl args) (Raise e)]
            | (Ok p, w2) =>
                (exists pl tp,
                    prepare K cycle args [] false w1 = (Ok pl, w2, tp) /\
                    pl_fake_stid pl = None /\
                    pl_fakestorm_conf pl = None /\
                    pl_stids pl = [pa_stid p] /\
                    differs (pa_stid p) (pl_fake_stid pl) = true) /\
                let c := LaunchCall (pa_infiles p) cycle (pa_stid p) (pa_moreopt p)
                                    (pa_case_root p) false None 1 in
                match launch K c w2 with
                | (Raise e, _) =>
                    t = [EvParse (tl args) (Ok p); EvLaunch c (Raise e)]
                | (Ok cf, w3) =>
                    t = [EvParse (tl args) (Ok p); EvLaunch c (Ok cf);
                         EvSanityCheck cf (fst (sanity_check K cf w3))]
                end
            end
        end
    end.
Proof.
  intros Hopt Hm HM.
  apply option_values_nil in Hm, HM.
  split.
  - destruct (main_filter is_multi_parse _ _ _ _ Hopt ltac:(kinds))
      as [H|(a0 & cycle & w1 & ms & mb & rn & _ & _ & Hscan & ->)]; [exact H|].
    apply scan_opts_values in Hscan. destruct Hscan as (-> & -> & _).
    rewrite Hm, HM. apply single_storm_no_multi_parse.
  - intros t. subst t. rewrite (main_accepts _ _ _ _ Hopt).
    destruct (length args <? 4)%nat; [reflexivity|].
    rewrite main_body_run.
    pose proof (gnu_getopt_known _ _ Hopt) as Hknown.
    destruct (@scan_opts_known opts [] [] true Hknown) as ([[ms mb] rn] & Hscan).
    rewrite Hscan.
    apply scan_opts_values in Hscan. destruct Hscan as (-> & -> & _).
    rewrite Hm, HM. cbn [app]. clear Hopt.
    destruct args as [|a0 args']; [reflexivity|].
    destruct (to_datetime K a0 w) as [[cycle|e] w1]; [|reflexivity].
    pose proof (single_storm_events cycle (a0 :: args') rn w1) as H. cbv zeta in H.
    destruct (launch_all K cycle (a0 :: args') [] [] rn w1) as [[r w2] t].
    cbn [events snd filter is_storm_event is_parse is_milestone is_launch
         is_sanity_check orb] in *.
    pose proof (prepare_single_run cycle (a0 :: args') [] w1) as Hprep.
    destruct (parse_launch_args K (tl (a0 :: args')) w1) as [[p|e] w3]; [|exact H].
    split.
    + eexists _, _. split; [exact Hprep|]. now repeat split.
    + cbv zeta. unfold single_launch in H.
      match type of H with context [launch K ?c w3] =>
        destruct (launch K c w3) as [[cf|e] w4] end; exact H.
Qed.

(** C1, as the code has it: a run without [-m] and [-M] that succeeds has
    parsed the arguments of one storm and has launched and checked that
    storm and no other; the launch is not one of a fake storm and does not
    get a fake storm's configuration; its number is 1, the counter of the
    loop starting at 0 and being incremented before the launch. *)
Theorem single_storm_numbered_one argv w opts args w' t :
  gnu_getopt (environ_get K w "POSIXLY_CORRECT") argv short_opts long_opts
    = Ok (opts, args) ->
  given multistorms_keys opts = false ->
  given multibasins_keys opts = false ->
  main K argv w = (Ok tt, w', t) ->
  exists cycle p c,
    filter is_storm_event t =
    [EvParse (tl args) (Ok p);
     EvLaunch (LaunchCall (pa_infiles p) cycle (pa_stid p) (pa_moreopt p)
                          (pa_case_root p) false None 1)
              (Ok c);
     EvSanityCheck c (Ok tt)].
Proof.
  intros Hopt Hm HM H.
  apply option_values_nil in Hm, HM.
  destruct (main_ok _ _ _ _ _ _ Hopt H)
    as (a0 & cycle & w1 & rn & t' & _ & _ & _ & Hall & ->).
  rewrite Hm, HM in Hall.
  pose proof (single_storm_events cycle args rn w1) as Hev. cbv zeta in Hev.
  rewrite (events_of_run _ _ _ _ _ Hall) in Hev.
  apply launch_all_ok in Hall.
  destruct Hall as (sids & go & w2 & t1 & p & w3 & t2 & c & w4 & t3 & t4 &
                    H1 & H2 & H3 & H4 & ->).
  rewrite resolve_storms_run in H1. cbn [truthy] in H1. injection H1 as <- <- <- <-.
  rewrite prepare_single_run in H2.
  destruct (parse_launch_args K (tl args) w1) as [[pa|e] w2']; [|discriminate].
  injection H2 as <- <- <-.
  cbn [pl_stids pl_global_storm_num] in H3.
  apply launch_loop_step in H3.
  destruct H3 as (c0 & w5 & t5 & w6 & t6 & t7 & Ho & Hp & Hrest & ->).
  rewrite obtain_conf_run in Ho.
  cbn [differs pl_fake_stid pl_moreopts nth_error pl_infiles pl_case_root
       pl_fakestorm_conf] in Ho. cbv zeta in Ho.
  change (0 + 1)%Z with 1%Z in Ho. fold (single_launch conf cycle pa) in Ho.
  destruct (launch K (single_launch conf cycle pa) w2') as [[c1|e] w7]; [|discriminate].
  cbn [fst snd] in Ho. injection Ho as <- <- <-.
  rewrite (process_conf_ok _ _ _ _ Hp) in Hev.
  exists cycle, pa, c1. cbn [filter is_storm_event is_parse is_milestone is_launch
                              is_sanity_check orb].
  exact Hev.
Qed.

(** *** The entity list of a multistorm run *)

Lemma mem_In x l : mem x l = true <-> In x l.
Proof.
  unfold mem. rewrite existsb_exists. split.
  - intros (y & Hy & E). apply String.eqb_eq in E. now subst.
  - intros H. exists x. split; [assumption | apply String.eqb_refl].
Qed.

Lemma merge_storms_first_occurrences bstorms : forall multi_sids seen,
  (forall x, mem x seen = mem x multi_sids) ->
  merge_storms multi_sids bstorms = multi_sids ++ first_occurrences seen bstorms.
Proof.
  unfold merge_storms.
  induction bstorms as [|s rest IH]; intros sids seen Hseen; cbn [fold_left first_occurrences].
  - now rewrite app_nil_r.
  - rewrite Hseen. destruct (mem s sids) eqn:Hs.
    + now apply IH.
    + rewrite (IH (sids ++ [s]) (s :: seen)).
      * now rewrite <- app_assoc.
      * intros x. rewrite mem_app. cbn [mem existsb]. fold (mem x seen).
        rewrite Hseen. now rewrite orb_false_r, orb_comm.
Qed.

(** The loop of lines 179-181 builds the list that the specification
    describes. *)
Lemma merge_storms_spec mslist winners :
  merge_storms mslist winners = spec_entity_list mslist winners.
Proof. now apply merge_storms_first_occurrences. Qed.

Lemma first_occurrences_In l : forall seen x,
  In x (first_occurrences seen l) <-> In x l /\ ~ In x seen.
Proof.
  induction l as [|s rest IH]; intros seen x; cbn [first_occurrences].
  - simpl. tauto.
  - destruct (mem s seen) eqn:Hs.
    + apply mem_In in Hs. rewrite IH. simpl. split.
      * tauto.
      * intros [[<-|H] Hn]; tauto.
    + assert (Hn : ~ In s seen) by (rewrite <- mem_In; congruence).
      simpl. rewrite IH. simpl. split.
      * intros [<-|[H1 H2]]; tauto.
      * intros [[<-|H1] H2]; [now left|].
        destruct (string_dec s x) as [->|Hne]; [now left | right; tauto].
Qed.


(** *** A multistorm run *)

Lemma given_app keys1 keys2 opts :
  given (keys1 ++ keys2) opts = given keys1 opts || given keys2 opts.
Proof.
  unfold given. induction opts as [|[k v] rest IH]; [reflexivity|].
  cbn [existsb fst]. rewrite IH, mem_app.
  destruct (mem k keys1), (mem k keys2), (existsb _ rest), (existsb _ rest);
    reflexivity.
Qed.

Lemma truthy_true {A} (l : list A) : l <> [] -> truthy l = true.
Proof. destruct l; [congruence | reflexivity]. Qed.

(** Lines 156-183 emit log records and the call of the priority resolver. *)
Lemma resolve_storms_silent sel args ms mb rn :
  (forall e, is_artifact e || is_priority e = true -> sel e = false) ->
  silent sel (resolve_storms K args ms mb rn).
Proof.
  intros H w. rewrite resolve_storms_run.
  assert (Hl : forall who lvl m, sel (Log who lvl m) = false) by (intros; now apply H).
  assert (Hp : forall a b c r, sel (EvPriority a b c r) = false) by (intros; now apply H).
  destruct (truthy mb); cbv zeta.
  - destruct (multistorm_priority K args mb _ w) as [[bs|e] w1];
      cbn [events snd app filter]; now rewrite ?Hl, ?Hp.
  - cbn [events snd app filter]. now rewrite ?Hl.
Qed.

(** The priority resolver is not called after line 183. *)
Lemma no_priority_after_resolve cycle args sids go :
  silent is_priority
    (p <- prepare K cycle args sids go ;;
     last <- launch_loop K cycle p 0 (pl_global_storm_num p) None (pl_stids p) ;;
     match last with
     | Some c => notify K c
     | None => raise (UnboundLocalError
                        "local variable 'conf' referenced before assignment")
     end).
Proof.
  apply silent_bind.
  - unfold prepare, last_item, log_info. silence I.
  - intros p. apply silent_bind; [apply launch_loop_silent; kinds|].
    intros [c|]; [apply notify_silent; kinds | apply silent_raise].
Qed.

(** With a [-M] option the priority resolver is called once, with the
    basins of the options and with renumbering forced if there is a [-m]
    option as well. *)
Lemma multibasin_priority_events cycle args ms mb rn w :
  mb <> [] ->
  filter is_priority (events (launch_all K cycle args ms mb rn w)) =
  [EvPriority args mb (if truthy ms then true else rn)
              (fst (multistorm_priority K args mb (if truthy ms then true else rn) w))].
Proof.
  intros Hmb. unfold launch_all.
  rewrite filter_events_bind, resolve_storms_run, (truthy_true mb Hmb). cbv zeta.
  destruct (multistorm_priority K args mb _ w) as [[bs|e] w1];
    cbn [events outcome final_world fst snd app filter is_priority]; [|reflexivity].
  now rewrite (no_priority_after_resolve cycle args (merge_storms ms bs) true w1).
Qed.






(** *** The ecFlow events *)

Lemma main_ok_getopt argv w w' t :
  main K argv w = (Ok tt, w', t) ->
  exists opts args,
    gnu_getopt (environ_get K w "POSIXLY_CORRECT") argv short_opts long_opts
    = Ok (opts, args).
Proof.
  unfold main, parse_command_line. run_monad.
  destruct (gnu_getopt _ argv short_opts long_opts) as [[opts args]|e]; [eauto|].
  destruct e; discriminate.
Qed.

(** A flag and the model that goes with it, lines 252-253 and 257-258:
    the model is asked for only if the flag is set. *)
Lemma flag_and_model_ok c flag model_opt model w b w' t :
  flag_and_model K c flag model_opt model w = (Ok b, w', t) ->
  exists enabled m,
    t = EvGetBool c "config" flag (Ok enabled)
        :: (if enabled then [EvGetStr c "config" model_opt (Ok m)] else []) /\
    b = enabled && String.eqb (upper m) model.
Proof.
  unfold flag_and_model. intros H.
  apply bind_ok_inv in H. destruct H as (enabled & w1 & t1 & t2 & H1 & H2 & ->).
  apply call_inv in H1. destruct H1 as [_ ->].
  destruct enabled.
  - apply bind_ok_inv in H2. destruct H2 as (m & w2 & t3 & t4 & H3 & H4 & ->).
    apply call_inv in H3. destruct H3 as [_ ->].
    injection H4 as <- _ <-. exists true, m. now split.
  - injection H2 as <- _ <-. exists false, "". now split.
Qed.

Lemma when_ecflow_ok (b : bool) name w w' t :
  (if b then ecflow_event K name else ret tt) w = (Ok tt, w', t) ->
  t = if b then [EvEcflow name (Ok tt)] else [].
Proof.
  destruct b.
  - unfold ecflow_event. intros H. apply call_inv in H. now destruct H as [_ ->].
  - now intros [= _ <-].
Qed.

(** Lines 248-260, when they succeed. *)
Lemma notify_ok c w w' t :
  notify K c w = (Ok tt, w', t) ->
  exists g o om wv wm,
    t = [EvGetBool c "config" "run_gsi" (Ok g)]
        ++ (if g then [EvEcflow "Analysis" (Ok tt)] else [])
        ++ [EvGetBool c "config" "run_ocean" (Ok o)]
        ++ (if o then [EvGetStr c "config" "ocean_model" (Ok om)] else [])
        ++ (if o && String.eqb (upper om) "HYCOM"
            then [EvEcflow "Ocean" (Ok tt)] else [])
        ++ [EvGetBool c "config" "run_wave" (Ok wv)]
        ++ (if wv then [EvGetStr c "config" "wave_model" (Ok wm)] else [])
        ++ (if wv && String.eqb (upper wm) "WW3"
            then [EvEcflow "Wave" (Ok tt)] else []).
Proof.
  unfold notify. intros H.
  apply bind_ok_inv in H. destruct H as (g & w1 & t1 & ta & H1 & H & ->).
  apply call_inv in H1. destruct H1 as [_ ->].
  apply bind_ok_inv in H. destruct H as ([] & w2 & t2 & tb & H2 & H & ->).
  apply when_ecflow_ok in H2. subst t2.
  apply bind_ok_inv in H. destruct H as (hycom & w3 & t3 & tc & H3 & H & ->).
  apply flag_and_model_ok in H3. destruct H3 as (o & om & -> & ->).
  apply bind_ok_inv in H. destruct H as ([] & w4 & t4 & td & H4 & H & ->).
  apply when_ecflow_ok in H4. subst t4.
  apply bind_ok_inv in H. destruct H as (wave & w5 & t5 & t6 & H5 & H6 & ->).
  apply flag_and_model_ok in H5. destruct H5 as (wv & wm & -> & ->).
  apply when_ecflow_ok in H6. subst t6.
  exists g, o, om, wv, wm. cbn [app]. reflexivity.
Qed.

Lemma ecflow_names_app (t1 t2 : list event) :
  ecflow_names (t1 ++ t2) = ecflow_names t1 ++ ecflow_names t2.
Proof. apply flat_map_app. Qed.

Lemma ecflow_names_silent (t : list event) :
  filter is_ecflow t = [] -> ecflow_names t = [].
Proof.
  induction t as [|e t IH]; [reflexivity|]. cbn [filter].
  destruct e; cbn [is_ecflow]; try discriminate; intros Hu; cbn; auto.
Qed.

(** C7: in a run that succeeds, the configuration [c] that was checked
    last is asked for [run_gsi], for [run_ocean] and, if that is set, for
    [ocean_model], for [run_wave] and, if that is set, for [wave_model];
    the ecFlow events set in the whole run are "Analysis" if [run_gsi] is
    set, then "Ocean" if [run_ocean] is set and the upper-cased ocean model
    is "HYCOM", then "Wave" if [run_wave] is set and the upper-cased wave
    model is "WW3", each at most once, and nothing else is sent to ecFlow:
    there is no call that clears an event. *)
Theorem ecflow_events_follow_flags argv w w' t :
  main K argv w = (Ok tt, w', t) ->
  exists c before g o ocean_model wv wave_model,
    t = before
        ++ [EvGetBool c "config" "run_gsi" (Ok g)]
        ++ (if g then [EvEcflow "Analysis" (Ok tt)] else [])
        ++ [EvGetBool c "config" "run_ocean" (Ok o)]
        ++ (if o then [EvGetStr c "config" "ocean_model" (Ok ocean_model)] else [])
        ++ (if o && String.eqb (upper ocean_model) "HYCOM"
            then [EvEcflow "Ocean" (Ok tt)] else [])
        ++ [EvGetBool c "config" "run_wave" (Ok wv)]
        ++ (if wv then [EvGetStr c "config" "wave_model" (Ok wave_model)] else [])
        ++ (if wv && String.eqb (upper wave_model) "WW3"
            then [EvEcflow "Wave" (Ok tt)] else []) /\
    filter is_ecflow before = [] /\
    (exists l, filter is_sanity_check before = l ++ [EvSanityCheck c (Ok tt)]) /\
    ecflow_names t =
      (if g then ["Analysis"] else [])
      ++ (if o && String.eqb (upper ocean_model) "HYCOM" then ["Ocean"] else [])
      ++ (if wv && String.eqb (upper wave_model) "WW3" then ["Wave"] else []).
Proof.
  intros H. destruct (main_ok_getopt _ _ _ _ H) as (opts & args & Hopt).
  destruct (main_ok _ _ _ _ _ _ Hopt H)
    as (a0 & cycle & w1 & rn & t' & _ & _ & _ & Hall & ->).
  apply launch_all_ok in Hall.
  destruct Hall as (sids & go & w2 & t1 & p & w3 & t2 & c & w4 & t3 & t4 &
                    H1 & H2 & H3 & H4 & ->).
  pose proof (resolve_storms_silent is_ecflow args
                (option_values multistorms_keys opts)
                (option_values multibasins_keys opts) rn ltac:(kinds) w1) as R1.
  pose proof (resolve_storms_silent is_sanity_check args
                (option_values multistorms_keys opts)
                (option_values multibasins_keys opts) rn ltac:(kinds) w1) as R2.
  rewrite (events_of_run _ _ _ _ _ H1) in R1, R2.
  assert (P : filter is_ecflow t2 = [] /\ filter is_sanity_check t2 = []).
  { assert (S1 : silent is_ecflow (prepare K cycle args sids go))
      by (unfold prepare, last_item, log_info; silence I).
    assert (S2 : silent is_sanity_check (prepare K cycle args sids go))
      by (unfold prepare, last_item, log_info; silence I).
    specialize (S1 w2). specialize (S2 w2).
    rewrite (events_of_run _ _ _ _ _ H2) in S1, S2. now split. }
  destruct P as [P1 P2].
  pose proof (launch_loop_silent is_ecflow cycle p (pl_stids p) ltac:(kinds)
                0%nat (pl_global_storm_num p) None w3) as L1.
  rewrite (events_of_run _ _ _ _ _ H3) in L1.
  destruct (launch_loop_last _ _ _ _ _ _ _ _ _ _ H3) as [[E _]|(c' & l & E & L2)];
    [discriminate|].
  injection E as <-.
  apply notify_ok in H4. destruct H4 as (g & o & om & wv & wm & H4).
  set (before := Log ScriptLogger Info MsgTop
                 :: EvToDatetime a0 (Ok cycle)
                 :: Log ScriptLogger Info (MsgAllOptsAndArgs opts args)
                 :: t1 ++ t2 ++ t3).
  exists c, before, g, o, om, wv, wm.
  assert (Hbefore : filter is_ecflow before = []).
  { unfold before. cbn [filter is_ecflow]. now rewrite !filter_app, R1, P1, L1. }
  match goal with |- ?lhs = _ /\ _ => assert (Ht : lhs = before ++ t4) end.
  { unfold before. cbn [app]. now rewrite <- !app_assoc. }
  rewrite Ht. subst t4.
  split; [reflexivity|]. split; [exact Hbefore|]. split.
  - exists l. unfold before. cbn [filter is_sanity_check].
    rewrite !filter_app, R2, P2, L2. reflexivity.
  - rewrite ecflow_names_app, (ecflow_names_silent _ Hbefore). cbn [app].
    destruct g, o, wv; cbn [andb];
      repeat match goal with |- context [String.eqb ?a ?b] => destruct (String.eqb a b) end;
      reflexivity.
Qed.

(** *** The holdvars files *)

(** Lines 233-234 and 238-239, when they succeed. *)
Lemma write_generated_holdvars_ok c path w w' t :
  write_generated_holdvars K c path w = (Ok tt, w', t) ->
  exists text w1,
    fst (make_holdvars K c w1) = Ok text /\
    t = [EvOpen path (Ok tt); EvMakeHoldvars c (Ok text); EvWrite path text (Ok tt)].
Proof.
  unfold write_generated_holdvars. intros H.
  apply bind_ok_inv in H. destruct H as ([] & w1 & t1 & ta & H1 & H & ->).
  apply call_inv in H1. destruct H1 as [_ ->].
  apply bind_ok_inv in H. destruct H as (text & w2 & t2 & t3 & H2 & H3 & ->).
  apply call_inv in H2. destruct H2 as [H2 ->].
  apply call_inv in H3. destruct H3 as [_ ->].
  exists text, w1. rewrite H2. now split.
Qed.

(** Lines 231-239, when they succeed. *)
Lemma write_holdvars_ok c w holdvars w' t :
  write_holdvars K c w = (Ok holdvars, w', t) ->
  exists holdvars2 text text2 w1 w2,
    fst (make_holdvars K c w1) = Ok text /\
    fst (make_holdvars K c w2) = Ok text2 /\
    t = [EvStrinterp c "dir" holdvars_template [] (Ok holdvars);
         Log ScriptLogger Info (MsgHoldvars holdvars);
         EvOpen holdvars (Ok tt);
         EvMakeHoldvars c (Ok text);
         EvWrite holdvars text (Ok tt);
         EvStrinterp c "dir" holdvars2_template [] (Ok holdvars2);
         Log ScriptLogger Info (MsgHoldvars2 holdvars2);
         EvOpen holdvars2 (Ok tt);
         EvMakeHoldvars c (Ok text2);
         EvWrite holdvars2 text2 (Ok tt)].
Proof.
  unfold write_holdvars. intros H.
  apply bind_ok_inv in H. destruct H as (h & w1 & t1 & ta & H1 & H & ->).
  apply call_inv in H1. destruct H1 as [_ ->].
  apply bind_ok_inv in H. destruct H as ([] & w2 & t2 & tb & H2 & H & ->).
  injection H2 as <- <-.
  apply bind_ok_inv in H. destruct H as ([] & w3 & t3 & tc & H3 & H & ->).
  apply write_generated_holdvars_ok in H3. destruct H3 as (text & wa & Ha & ->).
  apply bind_ok_inv in H. destruct H as (h2 & w4 & t4 & td & H4 & H & ->).
  apply call_inv in H4. destruct H4 as [_ ->].
  apply bind_ok_inv in H. destruct H as ([] & w5 & t5 & te & H5 & H & ->).
  injection H5 as <- <-.
  apply bind_ok_inv in H. destruct H as ([] & w6 & t6 & t7 & H6 & H7 & ->).
  apply write_generated_holdvars_ok in H6. destruct H6 as (text2 & wb & Hb & ->).
  injection H7 as <- _ <-.
  exists h2, text, text2, wa, wb. repeat split; assumption.
Qed.


(** *** The renumbering flag *)

Lemma scan_opts_without_renumber opts : forall ms mb rn rn',
  storm_and_basin_lists (scan_opts opts ms mb rn) =
  storm_and_basin_lists (scan_opts (without_renumber opts) ms mb rn').
Proof.
  induction opts as [|[k v] rest IH]; intros ms mb rn rn'; [reflexivity|].
  cbn [scan_opts without_renumber filter fst].
  fold (without_renumber rest).
  change ["-n"; "--renumber"] with renumber_keys.
  destruct (mem k renumber_keys) eqn:Hn; cbn [negb].
  - assert (mem k ["-m"; "--multistorms"] = false /\
            mem k ["-M"; "--multibasins"] = false) as [-> ->].
    { unfold mem, renumber_keys in Hn. simpl in Hn.
      destruct (String.eqb_spec k "-n") as [->|_]; [now split|].
      destruct (String.eqb_spec k "--renumber") as [->|_]; [now split|].
      discriminate. }
    apply IH.
  - cbn [scan_opts]. change ["-n"; "--renumber"] with renumber_keys. rewrite Hn.
    destruct (mem k ["-m"; "--multistorms"]); [apply IH|].
    destruct (mem k ["-M"; "--multibasins"]); [apply IH|]. reflexivity.
Qed.

(** Without basins, [renumber] is not used. *)
Lemma launch_all_ignores_renumber cycle args ms rn rn' w :
  launch_all K cycle args ms [] rn w = launch_all K cycle args ms [] rn' w.
Proof.
  unfold launch_all. rewrite !run_bind, !resolve_storms_run. reflexivity.
Qed.

(** C9, as the code has it: two command lines that [getopt] splits into
    the same positional arguments and into options that differ only in
    their [-n]/[--renumber] entries, none of them a [-M] option, lead to
    the same outcome, the same final state of the world and the same
    events, except for the log record that echoes the parsed options. *)
Theorem renumber_flag_only_reaches_priority argv1 argv2 w opts1 opts2 args :
  gnu_getopt (environ_get K w "POSIXLY_CORRECT") argv1 short_opts long_opts
    = Ok (opts1, args) ->
  gnu_getopt (environ_get K w "POSIXLY_CORRECT") argv2 short_opts long_opts
    = Ok (opts2, args) ->
  without_renumber opts1 = without_renumber opts2 ->
  given multibasins_keys opts1 = false ->
  outcome (main K argv1 w) = outcome (main K argv2 w) /\
  final_world (main K argv1 w) = final_world (main K argv2 w) /\
  without_option_echo (events (main K argv1 w)) =
  without_option_echo (events (main K argv2 w)).
Proof.
  intros H1 H2 Hsame HM.
  rewrite (main_accepts _ _ _ _ H1), (main_accepts _ _ _ _ H2).
  destruct (length args <? 4)%nat; [now repeat split|].
  rewrite !main_body_run.
  destruct args as [|a0 args']; [now repeat split|].
  destruct (to_datetime K a0 w) as [[cycle|e] w1]; [|now repeat split].
  pose proof (scan_opts_without_renumber opts1 [] [] true true) as S1.
  pose proof (scan_opts_without_renumber opts2 [] [] true true) as S2.
  rewrite Hsame, <- S2 in S1. clear S2.
  destruct (scan_opts opts1 [] [] true) as [[[ms1 mb1] rn1]|e1] eqn:E1;
    destruct (scan_opts opts2 [] [] true) as [[[ms2 mb2] rn2]|e2] eqn:E2;
    cbn [storm_and_basin_lists] in S1; try discriminate.
  - injection S1 as <- <-.
    apply scan_opts_values in E1. destruct E1 as (_ & Hmb & _).
    apply option_values_nil in HM. rewrite HM in Hmb. cbn [app] in Hmb. subst mb1.
    rewrite (launch_all_ignores_renumber cycle (a0 :: args') ms1 rn1 rn2 w1).
    destruct (launch_all K cycle (a0 :: args') ms1 [] rn2 w1) as [[r w2] t].
    now repeat split.
  - injection S1 as <-. now repeat split.
Qed.

(** *** Any run, stage by stage *)

Lemma launch_calls_app (t1 t2 : list event) :
  launch_calls (t1 ++ t2) = launch_calls t1 ++ launch_calls t2.
Proof. apply flat_map_app. Qed.

Lemma launch_calls_silent (t : list event) :
  filter is_launch t = [] -> launch_calls t = [].
Proof.
  induction t as [|e t IH]; [reflexivity|]. cbn [filter].
  destruct e; cbn [is_launch]; try discriminate; intros Hu; cbn; auto.
Qed.

Lemma filter_nil_Forall {A} (sel : A -> bool) (l : list A) :
  Forall (fun a => sel a = false) l -> filter sel l = [].
Proof.
  induction 1 as [|a l Ha _ IH]; [reflexivity|]. cbn [filter]. now rewrite Ha.
Qed.

(** Lines 222-246: nothing is done with a configuration that fails its
    sanity check. *)
Lemma process_conf_run c w :
  process_conf K c w =
  match sanity_check K c w with
  | (Raise e, w1) => (Raise e, w1, [EvSanityCheck c (Raise e)])
  | (Ok _, w1) =>
      let '(r, w2, t) :=
        (nco_alert K c ;; holdvars <- write_holdvars K c ;;
         write_startfile K c holdvars) w1 in
      (r, w2, EvSanityCheck c (Ok tt) :: t)
  end.
Proof.
  unfold process_conf. rewrite run_bind. unfold call at 1.
  destruct (sanity_check K c w) as [[[]|e] w1]; [|reflexivity].
  match goal with |- context [bind ?m ?k w1] => destruct (bind m k w1) as [[r w2] t] end.
  reflexivity.
Qed.

(** Lines 212-246: one turn of the loop. *)
Lemma launch_loop_run cycle p i g last stid rest w :
  launch_loop K cycle p i g last (stid :: rest) w =
  match obtain_conf K cycle p i stid (g + 1) w with
  | (Raise e, w1, t1) => (Raise e, w1, t1)
  | (Ok c, w1, t1) =>
      match process_conf K c w1 with
      | (Raise e, w2, t2) => (Raise e, w2, t1 ++ t2)
      | (Ok _, w2, t2) =>
          let '(r, w3, t3) := launch_loop K cycle p (S i) (g + 1) (Some c) rest w2 in
          (r, w3, t1 ++ t2 ++ t3)
      end
  end.
Proof.
  cbn [launch_loop]. rewrite run_bind.
  destruct (obtain_conf K cycle p i stid (g + 1) w) as [[[c|e] w1] t1]; [|reflexivity].
  rewrite run_bind.
  destruct (process_conf K c w1) as [[[[]|e] w2] t2]; [|reflexivity].
  destruct (launch_loop K cycle p (S i) (g + 1) (Some c) rest w2) as [[r w3] t3].
  reflexivity.
Qed.

(** Lines 156-260: the stages of [main] after the option loop. *)
Lemma launch_all_run cycle args ms mb rn w :
  launch_all K cycle args ms mb rn w =
  match resolve_storms K args ms mb rn w with
  | (Raise e, w1, t1) => (Raise e, w1, t1)
  | (Ok (sids, go), w1, t1) =>
      match prepare K cycle args sids go w1 with
      | (Raise e, w2, t2) => (Raise e, w2, t1 ++ t2)
      | (Ok p, w2, t2) =>
          match launch_loop K cycle p 0 (pl_global_storm_num p) None (pl_stids p) w2 with
          | (Raise e, w3, t3) => (Raise e, w3, t1 ++ t2 ++ t3)
          | (Ok None, w3, t3) =>
              (Raise (UnboundLocalError
                        "local variable 'conf' referenced before assignment"),
               w3, t1 ++ t2 ++ t3)
          | (Ok (Some c), w3, t3) =>
              let '(r, w4, t4) := notify K c w3 in (r, w4, t1 ++ t2 ++ t3 ++ t4)
          end
      end
  end.
Proof.
  unfold launch_all. rewrite run_bind.
  destruct (resolve_storms K args ms mb rn w) as [[[[sids go]|e] w1] t1]; [|reflexivity].
  rewrite run_bind.
  destruct (prepare K cycle args sids go w1) as [[[p|e] w2] t2]; [|reflexivity].
  rewrite run_bind.
  destruct (launch_loop K cycle p 0 (pl_global_storm_num p) None (pl_stids p) w2)
    as [[[[c|]|e] w3] t3]; [| |reflexivity].
  - destruct (notify K c w3) as [[r w4] t4]. reflexivity.
  - unfold raise. now rewrite app_nil_r.
Qed.

(** [main] either stops in its first lines, having emitted nothing but
    log records, printed text and the conversion of the cycle, or it gets
    as far as line 156 and goes through the stages above. *)
Lemma main_cases argv w :
  ((exists e, outcome (main K argv w) = Raise e) /\
   Forall (fun e => is_preamble e = true) (events (main K argv w)))
  \/
  (exists opts args a0 cycle w1 ms mb rn,
      gnu_getopt (environ_get K w "POSIXLY_CORRECT") argv short_opts long_opts
        = Ok (opts, args) /\
      hd_error args = Some a0 /\
      to_datetime K a0 w = (Ok cycle, w1) /\
      scan_opts opts [] [] true = Ok (ms, mb, rn) /\
      main K argv w =
        let '(r, w', t) := launch_all K cycle args ms mb rn w1 in
        (r, w',
         [Log ScriptLogger Info MsgTop; EvToDatetime a0 (Ok cycle);
          Log ScriptLogger Info (MsgAllOptsAndArgs opts args)] ++ t)).
Proof.
  destruct (gnu_getopt (environ_get K w "POSIXLY_CORRECT") argv short_opts long_opts)
    as [[opts args]|e] eqn:Hopt.
  - rewrite (main_accepts _ _ _ _ Hopt).
    destruct (length args <? 4)%nat.
    { left. split; [eexists; reflexivity|]. repeat constructor. }
    rewrite main_body_run.
    destruct args as [|a0 args'].
    { left. split; [eexists; reflexivity|]. repeat constructor. }
    destruct (to_datetime K a0 w) as [[cycle|e] w1] eqn:Hcycle.
    2:{ left. split; [eexists; reflexivity|]. repeat constructor. }
    destruct (scan_opts opts [] [] true) as [[[ms mb] rn]|e] eqn:Hscan.
    2:{ left. split; [eexists; reflexivity|]. repeat constructor. }
    right. exists opts, (a0 :: args'), a0, cycle, w1, ms, mb, rn.
    repeat split; try assumption.
    destruct (launch_all K cycle (a0 :: args') ms mb rn w1) as [[r w2] t]. reflexivity.
  - left. destruct (gnu_getopt_raise _ _ _ _ Hopt) as [msg ->].
    assert (Hmain : main K argv w =
      (Raise (AttributeError "'str' object has no attribute 'critical'"), w,
       [Log ScriptLogger Info MsgTop; EvPrint msg])).
    { unfold main, parse_command_line. run_monad. rewrite Hopt. reflexivity. }
    rewrite Hmain. split; [eexists; reflexivity|]. repeat constructor.
Qed.

(** What [main] emits, the DBN alert of lines 224-229 aside: no record of
    the job logger and no call of [produtil.setup.setup], which belong to
    the [__main__] block. *)
Lemma launch_loop_quiet sel cycle p stids :
  (forall e, is_main_event e && negb (is_alert e) = true -> sel e = false) ->
  (forall c, silent sel (nco_alert K c)) ->
  forall i global_storm_num last,
    silent sel (launch_loop K cycle p i global_storm_num last stids).
Proof.
  intros H Hnco. induction stids as [|stid rest IH]; intros i g last; cbn [launch_loop].
  - apply silent_ret.
  - apply silent_bind.
    + unfold obtain_conf, item. silence H.
    + intros c. apply silent_bind.
      * unfold process_conf. apply silent_bind; [silence H|].
        intros _. apply silent_bind; [apply Hnco|].
        intros _. unfold write_holdvars, write_generated_holdvars, write_startfile,
                    log_info.
        silence H.
      * intros _. apply IH.
Qed.

Lemma main_quiet_but_alerts sel argv :
  (forall e, is_main_event e && negb (is_alert e) = true -> sel e = false) ->
  (forall c, silent sel (nco_alert K c)) ->
  silent sel (main K argv).
Proof.
  intros H Hnco. unfold main. apply silent_bind.
  { unfold log_info. silence H. }
  intros _. apply silent_bind.
  { unfold parse_command_line, usage, print. silence H. }
  intros [opts args]. unfold main_body. apply silent_bind.
  { unfold item. silence H. }
  intros a0. apply silent_bind; [silence H|].
  intros cycle. apply silent_bind; [unfold log_info; silence H|].
  intros _. apply silent_bind; [silence H|].
  intros [[ms mb] rn]. unfold launch_all. apply silent_bind.
  { unfold resolve_storms, log_info. silence H. }
  intros [sids go]. apply silent_bind.
  { unfold prepare, last_item, log_info. silence H. }
  intros p. apply silent_bind; [now apply launch_loop_quiet|].
  intros [c|]; [|apply silent_raise].
  unfold notify, flag_and_model, ecflow_event. silence H.
Qed.

Lemma main_quiet sel argv :
  (forall e, is_main_event e = true -> sel e = false) ->
  silent sel (main K argv).
Proof.
  intros H.
  assert (H' : forall e, is_main_event e && negb (is_alert e) = true -> sel e = false).
  { intros e He. apply andb_true_iff in He. now apply H. }
  apply main_quiet_but_alerts; [exact H'|].
  intros c. unfold nco_alert. silence H.
Qed.

(** *** The exit status *)

(** X4: the exit status of the script and what the job logger gets.
    [main] itself never logs there.  If [setup] fails, [main] is not run
    and "starting" is not logged.  If [setup] and [main] return, the
    status is 0 and the records are "starting" and "completed"; if one of
    them raises an [Exception], the status is 2 and the last record is the
    failure with the text of the exception, "completed" being left out; a
    [SystemExit], as raised by [usage], ends the process with its own
    code and leaves no failure record. *)
Theorem exit_status_and_job_log argv w0 :
  let status := fst (fst (script K argv w0)) in
  let records := filter is_jlogger (snd (script K argv w0)) in
  match setup K w0 with
  | (Raise e, _) =>
      status = exit_code e /\
      snd (script K argv w0) =
        EvSetup (Raise e)
        :: if is_Exception e
           then [Log JLogger Critical (MsgFailed (str_of_exn e))]
           else []
  | (Ok _, w1) =>
      match outcome (main K argv w1) with
      | Ok _ =>
          status = 0%Z /\
          records = [Log JLogger Info MsgStarting; Log JLogger Info MsgCompleted]
      | Raise e =>
          status = exit_code e /\
          records = Log JLogger Info MsgStarting ::
                    if is_Exception e
                    then [Log JLogger Critical (MsgFailed (str_of_exn e))]
                    else []
      end
  end.
Proof.
  unfold script. run_monad.
  destruct (setup K w0) as [[[]|e] w1].
  - assert (Hq : forall e : event, is_main_event e = true -> is_jlogger e = false).
    { intros e He. destruct e; try reflexivity. destruct who; [reflexivity|discriminate]. }
    pose proof (main_quiet is_jlogger argv Hq w1) as Hmain.
    destruct (main K argv w1) as [[[[]|e] w2] t]; cbn [outcome events fst snd] in *.
    + split; [reflexivity|].
      cbn [app filter is_jlogger]. now rewrite filter_app, Hmain.
    + destruct e; cbn [exit_code is_Exception fst snd];
        (split; [reflexivity|]);
        cbn [app filter is_jlogger]; rewrite ?filter_app, Hmain; reflexivity.
  - destruct e; cbn [exit_code is_Exception fst snd]; split; reflexivity.
Qed.

(** *** The option loop on any list of options *)

Lemma scan_opts_unknown opts :
  keys_known opts = false ->
  forall ms mb rn, scan_opts opts ms mb rn = Raise (AssertionError "UNHANDLED OPTION").
Proof.
  induction opts as [|[k v] rest IH]; cbn [keys_known forallb fst]; [discriminate|].
  intros H ms mb rn. cbn [scan_opts].
  unfold known_keys at 1, multistorms_keys, multibasins_keys, renumber_keys in H.
  rewrite !mem_app in H.
  destruct (mem k ["-m"; "--multistorms"]); [now apply IH|].
  destruct (mem k ["-M"; "--multibasins"]); [now apply IH|].
  destruct (mem k ["-n"; "--renumber"]); [now apply IH|].
  reflexivity.
Qed.

Lemma truthy_option_values keys opts :
  truthy (option_values keys opts) = given keys opts.
Proof.
  destruct (given keys opts) eqn:Hg.
  - apply truthy_true. rewrite option_values_nil. congruence.
  - apply option_values_nil in Hg. now rewrite Hg.
Qed.

(** X5: what the loop of lines 146-154 computes from a list of options.
    If every key is one of the six that it knows, the storm list holds the
    comma-separated pieces of the values of the [-m] options, in order,
    the basin list those of the [-M] options, and [renumber] is false
    exactly when there is a [-n] option, whatever its value; any other key
    ends the loop with an [AssertionError]. *)
Theorem option_loop_result opts :
  scan_opts opts [] [] true =
  if keys_known opts
  then Ok (option_values multistorms_keys opts,
           option_values multibasins_keys opts,
           negb (given renumber_keys opts))
  else Raise (AssertionError "UNHANDLED OPTION").
Proof.
  destruct (keys_known opts) eqn:Hk.
  - destruct (@scan_opts_known opts [] [] true Hk) as ([[ms mb] rn] & Hr).
    rewrite Hr. now destruct (scan_opts_values _ _ _ _ _ _ _ Hr) as (-> & -> & ->).
  - now apply scan_opts_unknown.
Qed.

(** X6: the [assert False] of line 154 is out of reach.  The options that
    [getopt] returns for the option strings of the script always pass the
    loop of lines 146-154, which gives the comma-separated pieces of the
    values of the [-m] options, those of the [-M] options, and [renumber],
    false exactly when there is a [-n] option. *)
Theorem getopt_options_always_handled posixly_correct argv opts args :
  gnu_getopt posixly_correct argv short_opts long_opts = Ok (opts, args) ->
  scan_opts opts [] [] true =
  Ok (option_values multistorms_keys opts,
      option_values multibasins_keys opts,
      negb (given renumber_keys opts)).
Proof.
  intros H. apply gnu_getopt_known in H.
  destruct (@scan_opts_known opts [] [] true H) as ([[ms mb] rn] & Hr).
  rewrite Hr. now destruct (scan_opts_values _ _ _ _ _ _ _ Hr) as (-> & -> & ->).
Qed.

(** *** Which parser and which resolver a run calls *)

Lemma no_basins_no_priority cycle args ms rn w :
  filter is_priority (events (launch_all K cycle args ms [] rn w)) = [].
Proof.
  unfold launch_all. rewrite filter_events_bind, resolve_storms_run. cbn [truthy].
  cbn [events outcome final_world fst snd filter is_priority app].
  apply no_priority_after_resolve.
Qed.

(** X7: the call of the priority resolver.  It is made at most once in a
    run, and only if there is a [-M] option; its arguments are the
    positional arguments, the basins of the [-M] options and
    [renumber], which is false exactly when there is a [-n] option and no
    [-m] option. *)
Theorem priority_call_arguments argv w opts args :
  gnu_getopt (environ_get K w "POSIXLY_CORRECT") argv short_opts long_opts
    = Ok (opts, args) ->
  filter is_priority (events (main K argv w)) = [] \/
  (given multibasins_keys opts = true /\
   exists r,
     filter is_priority (events (main K argv w)) =
     [EvPriority args (option_values multibasins_keys opts)
                 (given multistorms_keys opts || negb (given renumber_keys opts)) r]).
Proof.
  intros Hopt.
  destruct (main_filter is_priority _ _ _ _ Hopt ltac:(kinds))
    as [H|(a0 & cycle & w1 & ms & mb & rn & _ & _ & Hscan & ->)]; [now left|].
  apply scan_opts_values in Hscan. destruct Hscan as (-> & -> & ->). cbn [app andb].
  destruct (given multibasins_keys opts) eqn:HM.
  - right. split; [reflexivity|].
    rewrite multibasin_priority_events by (rewrite option_values_nil; congruence).
    rewrite truthy_option_values.
    destruct (given multistorms_keys opts); eexists; reflexivity.
  - left. apply option_values_nil in HM. rewrite HM. apply no_basins_no_priority.
Qed.

(** After line 207 only the loop and the ecFlow events are left. *)
Lemma after_prepare_silent sel cycle p :
  (forall e, is_loop_event e || is_notification e = true -> sel e = false) ->
  silent sel
    (last <- launch_loop K cycle p 0 (pl_global_storm_num p) None (pl_stids p) ;;
     match last with
     | Some c => notify K c
     | None => raise (UnboundLocalError
                        "local variable 'conf' referenced before assignment")
     end).
Proof.
  intros H. apply silent_bind.
  - apply launch_loop_silent. intros e He. apply H. now rewrite He.
  - intros [c|]; [|apply silent_raise].
    apply notify_silent. intros e He. apply H. rewrite He. apply orb_true_r.
Qed.

(** With storms or basins, line 183 is reached with
    [go_since_multistorm_sids] set; without basins the storm list is the
    one of the options. *)
Lemma resolve_storms_go args ms mb rn w :
  truthy ms || truthy mb = true ->
  match outcome (resolve_storms K args ms mb rn w) with
  | Ok (sids, go) => go = true /\ (mb = [] -> sids = ms)
  | Raise _ => True
  end.
Proof.
  intros H. rewrite resolve_storms_run.
  destruct mb as [|b mb]; cbn [truthy] in *.
  - rewrite orb_false_r in H. rewrite H. now cbn.
  - cbv zeta.
    destruct (multistorm_priority K args (b :: mb) _ w) as [[bs|e] w1]; cbn; [|exact I].
    split; [reflexivity | discriminate].
Qed.

(** The parsers that a run with storms or basins calls. *)
Lemma multistorm_parsers cycle args ms mb rn w :
  truthy ms || truthy mb = true ->
  filter is_parse (events (launch_all K cycle args ms mb rn w)) = [] /\
  (filter is_multi_parse (events (launch_all K cycle args ms mb rn w)) = [] \/
   exists sids r,
     (mb = [] -> sids = ms) /\
     filter is_multi_parse (events (launch_all K cycle args ms mb rn w))
     = [EvMultiParse sids (tl args) r]).
Proof.
  intros H. pose proof (resolve_storms_go args ms mb rn w H) as Hgo.
  unfold launch_all. rewrite !(filter_events_bind _ (resolve_storms K args ms mb rn)).
  rewrite (resolve_storms_silent is_parse args ms mb rn ltac:(kinds) w).
  rewrite (resolve_storms_silent is_multi_parse args ms mb rn ltac:(kinds) w).
  destruct (outcome (resolve_storms K args ms mb rn w)) as [[sids go]|e];
    [|split; [reflexivity | now left]].
  destruct Hgo as [-> Hsids]. cbn [app].
  set (w1 := final_world (resolve_storms K args ms mb rn w)).
  rewrite !(filter_events_bind _ (prepare K cycle args sids true)).
  rewrite prepare_multi_run. cbv zeta.
  destruct (multistorm_parse_args K sids (tl args) w1) as [[p|e] w2].
  2:{ split; [reflexivity|]. right. exists sids, (Raise e). now split. }
  destruct (rev (ma_moreopts p)) as [|mo mos].
  { split; [reflexivity|]. right. exists sids, (Ok p). now split. }
  match goal with |- context [launch K ?lc w2] =>
    destruct (launch K lc w2) as [[fc|e] w3] end.
  2:{ split; [reflexivity|]. right. exists sids, (Ok p). now split. }
  cbn [events outcome final_world fst snd filter is_parse is_multi_parse app].
  rewrite (after_prepare_silent is_parse cycle _ ltac:(kinds) w3).
  rewrite (after_prepare_silent is_multi_parse cycle _ ltac:(kinds) w3).
  split; [reflexivity|]. right. exists sids, (Ok p). now split.
Qed.

(** X8: with a [-m] or a [-M] option, [parse_launch_args], the parser of
    the arguments of a single storm, is never called, whatever the values
    of the options are and however the run ends. *)
Theorem multistorm_skips_single_parser argv w opts args :
  gnu_getopt (environ_get K w "POSIXLY_CORRECT") argv short_opts long_opts
    = Ok (opts, args) ->
  given (multistorms_keys ++ multibasins_keys) opts = true ->
  filter is_parse (events (main K argv w)) = [].
Proof.
  intros Hopt Hgiven.
  destruct (main_filter is_parse _ _ _ _ Hopt ltac:(kinds))
    as [H|(a0 & cycle & w1 & ms & mb & rn & _ & _ & Hscan & ->)]; [exact H|].
  apply scan_opts_values in Hscan. destruct Hscan as (-> & -> & _). cbn [app].
  apply multistorm_parsers.
  now rewrite !truthy_option_values, <- given_app.
Qed.

(** X9: with [-m] options and no [-M] option, the priority resolver is
    not called, and the storm list handed to [multistorm_parse_args], in
    the one call that is made at most, is the list of the options as it
    was given: in command-line order and with its repetitions. *)
Theorem storm_list_passed_unchanged argv w opts args :
  gnu_getopt (environ_get K w "POSIXLY_CORRECT") argv short_opts long_opts
    = Ok (opts, args) ->
  given multistorms_keys opts = true ->
  given multibasins_keys opts = false ->
  filter is_priority (events (main K argv w)) = [] /\
  (filter is_multi_parse (events (main K argv w)) = [] \/
   exists r,
     filter is_multi_parse (events (main K argv w))
     = [EvMultiParse (option_values multistorms_keys opts) (tl args) r]).
Proof.
  intros Hopt Hm HM. split.
  - destruct (main_filter is_priority _ _ _ _ Hopt ltac:(kinds))
      as [H|(a0 & cycle & w1 & ms & mb & rn & _ & _ & Hscan & ->)]; [exact H|].
    apply scan_opts_values in Hscan. destruct Hscan as (-> & -> & _). cbn [app].
    apply option_values_nil in HM. rewrite HM. apply no_basins_no_priority.
  - destruct (main_filter is_multi_parse _ _ _ _ Hopt ltac:(kinds))
      as [H|(a0 & cycle & w1 & ms & mb & rn & _ & _ & Hscan & ->)]; [now left|].
    apply scan_opts_values in Hscan. destruct Hscan as (-> & -> & _). cbn [app].
    apply option_values_nil in HM. rewrite HM.
    destruct (multistorm_parsers cycle args (option_values multistorms_keys opts) [] rn w1)
      as [_ [H|(sids & r & Hsids & H)]].
    + now rewrite truthy_option_values, Hm.
    + now left.
    + right. exists r. now rewrite (Hsids eq_refl) in H.
Qed.

Lemma single_storm_parse_events cycle args rn w :
  filter is_parse (events (launch_all K cycle args [] [] rn w)) =
  [EvParse (tl args) (fst (parse_launch_args K (tl args) w))].
Proof.
  rewrite single_storm_run.
  destruct (parse_launch_args K (tl args) w) as [[p|e] w1]; [|reflexivity].
  destruct (launch K (single_launch conf cycle p) w1) as [[c|e] w2]; [|reflexivity].
  rewrite !filter_app, (process_conf_filter is_parse c w2) by kinds.
  destruct (process_conf K c w2) as [[[[]|e] w3] t3]; [|reflexivity].
  now rewrite (notify_silent is_parse c ltac:(kinds) w3).
Qed.

(** X10: with a non-empty [POSIXLY_CORRECT] in the environment, a command
    line that starts with the cycle has no options at all: [-m], [-M] and
    [-n] after it are positional arguments.  The run is one of a single
    storm, without a call of the priority resolver or of
    [multistorm_parse_args], and everything after the cycle goes to
    [parse_launch_args]. *)
Theorem posixly_correct_disables_options w c s a rest :
  environ_get K w "POSIXLY_CORRECT" = Some (String c s) ->
  startswith a "-" = false ->
  filter is_priority (events (main K (a :: rest) w)) = [] /\
  filter is_multi_parse (events (main K (a :: rest) w)) = [] /\
  (filter is_parse (events (main K (a :: rest) w)) = [] \/
   exists r, filter is_parse (events (main K (a :: rest) w)) = [EvParse rest r]).
Proof.
  intros Henv Ha.
  pose proof (posixly_correct_stops c s a rest Ha) as Hopt. rewrite <- Henv in Hopt.
  split; [|split].
  - destruct (main_filter is_priority _ _ _ _ Hopt ltac:(kinds))
      as [H|(a0 & cycle & w1 & ms & mb & rn & _ & _ & Hscan & ->)]; [exact H|].
    injection Hscan as <- <- <-. apply no_basins_no_priority.
  - destruct (main_filter is_multi_parse _ _ _ _ Hopt ltac:(kinds))
      as [H|(a0 & cycle & w1 & ms & mb & rn & _ & _ & Hscan & ->)]; [exact H|].
    injection Hscan as <- <- <-. apply single_storm_no_multi_parse.
  - destruct (main_filter is_parse _ _ _ _ Hopt ltac:(kinds))
      as [H|(a0 & cycle & w1 & ms & mb & rn & _ & _ & Hscan & ->)]; [now left|].
    injection Hscan as <- <- <-. right. rewrite single_storm_parse_events.
    eexists. reflexivity.
Qed.

(** *** The merged storm list *)

Lemma first_occurrences_seen l : forall seen,
  (forall x, In x l -> In x seen) -> first_occurrences seen l = [].
Proof.
  induction l as [|s rest IH]; intros seen H; cbn [first_occurrences]; [reflexivity|].
  assert (Hs : mem s seen = true) by (apply mem_In, H; now left).
  rewrite Hs. apply IH. intros x Hx. apply H. now right.
Qed.

(** X11: the list that lines 179-181 build from the storms of the options
    and the storms that the priority resolver found holds exactly the
    storms of both, starts with the storms of the options as they were
    given, and is not changed by merging the same storms again. *)
Theorem merged_storm_list multi_sids bstorms :
  (forall s, In s (merge_storms multi_sids bstorms) <->
             In s multi_sids \/ In s bstorms) /\
  firstn (length multi_sids) (merge_storms multi_sids bstorms) = multi_sids /\
  merge_storms (merge_storms multi_sids bstorms) bstorms =
  merge_storms multi_sids bstorms.
Proof.
  assert (Hin : forall s, In s (merge_storms multi_sids bstorms) <->
                          In s multi_sids \/ In s bstorms).
  { intros s. rewrite merge_storms_spec. unfold spec_entity_list.
    rewrite in_app_iff, first_occurrences_In.
    destruct (in_dec string_dec s multi_sids); tauto. }
  split; [exact Hin|]. split.
  - rewrite merge_storms_spec. unfold spec_entity_list.
    rewrite firstn_app, firstn_all, Nat.sub_diag. cbn [firstn]. apply app_nil_r.
  - rewrite (merge_storms_spec (merge_storms multi_sids bstorms)).
    unfold spec_entity_list. rewrite first_occurrences_seen; [apply app_nil_r|].
    intros x Hx. apply Hin. now right.
Qed.

(** *** The launches of any run *)

Lemma launch_numbers_app (t1 t2 : list event) :
  launch_numbers (t1 ++ t2) = launch_numbers t1 ++ launch_numbers t2.
Proof. unfold launch_numbers. now rewrite launch_calls_app, map_app. Qed.

Lemma launch_numbers_silent (t : list event) :
  filter is_launch t = [] -> launch_numbers t = [].
Proof. intros H. unfold launch_numbers. now rewrite launch_calls_silent. Qed.

Lemma sorted_above_cons g nums :
  StronglySorted Z.lt nums /\ Forall (fun n => (g + 1 < n)%Z) nums ->
  StronglySorted Z.lt ((g + 1)%Z :: nums) /\
  Forall (fun n => (g < n)%Z) ((g + 1)%Z :: nums).
Proof.
  intros [Hs Hf]. split.
  - now constructor.
  - constructor; [lia|]. eapply Forall_impl; [|exact Hf]. cbv beta. intros; lia.
Qed.

Lemma sorted_above_weaken g nums :
  StronglySorted Z.lt nums /\ Forall (fun n => (g + 1 < n)%Z) nums ->
  StronglySorted Z.lt nums /\ Forall (fun n => (g < n)%Z) nums.
Proof.
  intros [Hs Hf]. split; [exact Hs|].
  eapply Forall_impl; [|exact Hf]. cbv beta. intros; lia.
Qed.

Lemma process_conf_no_launch c w :
  launch_calls (events (process_conf K c w)) = [].
Proof.
  apply launch_calls_silent. now rewrite (process_conf_filter is_launch c w) by kinds.
Qed.

(** The numbers of the launches of the loop increase, from above the
    value of the counter at its start. *)
Lemma launch_loop_numbers cycle p stids : forall i g last w,
  StronglySorted Z.lt
    (launch_numbers (events (launch_loop K cycle p i g last stids w))) /\
  Forall (fun n => (g < n)%Z)
    (launch_numbers (events (launch_loop K cycle p i g last stids w))).
Proof.
  induction stids as [|stid rest IH]; intros i g last w.
  - cbn. split; constructor.
  - rewrite launch_loop_run, obtain_conf_run.
    assert (Htail : forall c w1,
      StronglySorted Z.lt
        (launch_numbers
           (events
              match process_conf K c w1 with
              | (Raise e, w2, t2) => (@Raise (option conf) e, w2, t2)
              | (Ok _, w2, t2) =>
                  let '(r, w3, t3) :=
                    launch_loop K cycle p (S i) (g + 1) (Some c) rest w2 in
                  (r, w3, t2 ++ t3)
              end)) /\
      Forall (fun n => (g + 1 < n)%Z)
        (launch_numbers
           (events
              match process_conf K c w1 with
              | (Raise e, w2, t2) => (@Raise (option conf) e, w2, t2)
              | (Ok _, w2, t2) =>
                  let '(r, w3, t3) :=
                    launch_loop K cycle p (S i) (g + 1) (Some c) rest w2 in
                  (r, w3, t2 ++ t3)
              end))).
    { intros c w1. pose proof (process_conf_no_launch c w1) as Hp.
      destruct (process_conf K c w1) as [[[[]|e] w2] t2]; cbn [events snd] in Hp.
      - specialize (IH (S i) (g + 1)%Z (Some c) w2).
        destruct (launch_loop K cycle p (S i) (g + 1) (Some c) rest w2) as [[r w3] t3].
        cbn [events snd] in *. unfold launch_numbers in *.
        now rewrite launch_calls_app, Hp.
      - cbn [events snd]. unfold launch_numbers. rewrite Hp. split; constructor. }
    destruct (differs stid (pl_fake_stid p)).
    + destruct (nth_error (pl_moreopts p) i) as [mo|]; [|cbn; split; constructor].
      cbv zeta.
      match goal with |- context [launch K ?lc w] =>
        destruct (launch K lc w) as [[c|e] w1] end; cbn [fst snd].
      * specialize (Htail c w1).
        destruct (process_conf K c w1) as [[[[]|e] w2] t2].
        -- destruct (launch_loop K cycle p (S i) (g + 1) (Some c) rest w2)
             as [[r w3] t3].
           cbn [events snd] in *. now apply sorted_above_cons.
        -- cbn [events snd] in *. now apply sorted_above_cons.
      * cbn. split; repeat constructor. lia.
    + destruct (pl_fakestorm_conf p) as [c|]; [|cbn; split; constructor].
      specialize (Htail c w).
      destruct (process_conf K c w) as [[[[]|e] w2] t2].
      * destruct (launch_loop K cycle p (S i) (g + 1) (Some c) rest w2)
          as [[r w3] t3].
        cbn [events snd app] in *. now apply sorted_above_weaken.
      * cbn [events snd app] in *. now apply sorted_above_weaken.
Qed.

Lemma launch_all_numbers cycle args ms mb rn w :
  StronglySorted Z.lt
    (launch_numbers (events (launch_all K cycle args ms mb rn w))) /\
  Forall (fun n => (0 < n)%Z)
    (launch_numbers (events (launch_all K cycle args ms mb rn w))).
Proof.
  rewrite launch_all_run.
  pose proof (resolve_storms_silent is_launch args ms mb rn ltac:(kinds) w) as R.
  apply launch_numbers_silent in R.
  destruct (resolve_storms K args ms mb rn w) as [[[[sids go]|e] w1] t1];
    cbn [events snd] in R.
  2:{ cbn [events snd]. rewrite R. split; constructor. }
  assert (Hloop : forall p w2,
    let run :=
      match launch_loop K cycle p 0 (pl_global_storm_num p) None (pl_stids p) w2 with
      | (Raise e, w3, t3) => (@Raise unit e, w3, t3)
      | (Ok None, w3, t3) =>
          (Raise (UnboundLocalError
                    "local variable 'conf' referenced before assignment"), w3, t3)
      | (Ok (Some c), w3, t3) => let '(r, w4, t4) := notify K c w3 in (r, w4, t3 ++ t4)
      end in
    StronglySorted Z.lt (launch_numbers (events run)) /\
    Forall (fun n => (pl_global_storm_num p < n)%Z) (launch_numbers (events run))).
  { intros p w2.
    pose proof (launch_loop_numbers cycle p (pl_stids p) 0 (pl_global_storm_num p)
                  None w2) as L.
    destruct (launch_loop K cycle p 0 (pl_global_storm_num p) None (pl_stids p) w2)
      as [[[[c|]|e] w3] t3]; cbn [events snd] in L; cbv zeta; try exact L.
    pose proof (notify_silent is_launch c ltac:(kinds) w3) as N.
    apply launch_numbers_silent in N.
    destruct (notify K c w3) as [[r w4] t4]. cbn [events snd] in *.
    now rewrite launch_numbers_app, N, app_nil_r. }
  destruct go.
  - rewrite prepare_multi_run. cbv zeta.
    destruct (multistorm_parse_args K sids (tl args) w1) as [[p|e] w2].
    2:{ cbn [events snd]. rewrite launch_numbers_app, R. cbn. split; constructor. }
    destruct (rev (ma_moreopts p)) as [|mo mos].
    { cbn [events snd]. rewrite launch_numbers_app, R. cbn. split; constructor. }
    match goal with |- context [launch K ?lc w2] =>
      destruct (launch K lc w2) as [[fc|e] w3] end.
    2:{ cbn [events snd]. rewrite launch_numbers_app, R. cbn.
        split; repeat constructor. }
    match goal with |- context [launch_loop K cycle ?P 0 _ None _ w3] =>
      specialize (Hloop P w3); cbv zeta in Hloop;
      destruct (launch_loop K cycle P 0 (pl_global_storm_num P) None (pl_stids P) w3)
        as [[[[c|]|e] w4] t3]
    end.
    + destruct (notify K c w4) as [[r w5] t4]. cbn [events snd pl_global_storm_num] in *.
      rewrite launch_numbers_app, R. cbn [app].
      apply (sorted_above_cons 0). exact Hloop.
    + cbn [events snd pl_global_storm_num] in *.
      rewrite launch_numbers_app, R. cbn [app].
      apply (sorted_above_cons 0). exact Hloop.
    + cbn [events snd pl_global_storm_num] in *.
      rewrite launch_numbers_app, R. cbn [app].
      apply (sorted_above_cons 0). exact Hloop.
  - rewrite prepare_single_run.
    destruct (parse_launch_args K (tl args) w1) as [[pa|e] w2].
    2:{ cbn [events snd]. rewrite launch_numbers_app, R. cbn. split; constructor. }
    match goal with |- context [launch_loop K cycle ?P 0 _ None _ w2] =>
      specialize (Hloop P w2); cbv zeta in Hloop;
      destruct (launch_loop K cycle P 0 (pl_global_storm_num P) None (pl_stids P) w2)
        as [[[[c|]|e] w4] t3]
    end.
    + destruct (notify K c w4) as [[r w5] t4]. cbn [events snd pl_global_storm_num] in *.
      rewrite launch_numbers_app, R. cbn [app].
      exact Hloop.
    + cbn [events snd pl_global_storm_num] in *.
      rewrite launch_numbers_app, R. cbn [app].
      exact Hloop.
    + cbn [events snd pl_global_storm_num] in *.
      rewrite launch_numbers_app, R. cbn [app].
      exact Hloop.
Qed.

(** X12: in any run, however it ends, the storm numbers of the launches
    increase strictly from one launch to the next and start at 1 or
    above: no two launches of a run get the same number. *)
Theorem launch_numbers_increase argv w :
  StronglySorted Z.lt (launch_numbers (events (main K argv w))) /\
  Forall (fun n => (1 <= n)%Z) (launch_numbers (events (main K argv w))).
Proof.
  destruct (main_cases argv w)
    as [[_ Hpre]|(opts & args & a0 & cycle & w1 & ms & mb & rn & _ & _ & _ & _ & ->)].
  - rewrite launch_numbers_silent; [split; constructor|].
    apply filter_nil_Forall. eapply Forall_impl; [|exact Hpre].
    intros []; cbv; congruence.
  - pose proof (launch_all_numbers cycle args ms mb rn w1) as [Hs Hf].
    destruct (launch_all K cycle args ms mb rn w1) as [[r w2] t].
    cbn [events snd app] in *. split; [exact Hs|].
    eapply Forall_impl; [|exact Hf]. cbv beta. intros; lia.
Qed.

(** The launches of the loop. *)
Lemma launch_loop_launches cycle p stids : forall i g last w,
  Forall (is_loop_launch cycle (pl_infiles p) (pl_case_root p) (pl_fakestorm_conf p))
         (filter is_launch (events (launch_loop K cycle p i g last stids w))).
Proof.
  induction stids as [|stid rest IH]; intros i g last w.
  - cbn. constructor.
  - rewrite launch_loop_run, obtain_conf_run.
    assert (Htail : forall c w1 t1,
      Forall (is_loop_launch cycle (pl_infiles p) (pl_case_root p) (pl_fakestorm_conf p))
             (filter is_launch t1) ->
      Forall (is_loop_launch cycle (pl_infiles p) (pl_case_root p) (pl_fakestorm_conf p))
        (filter is_launch
           (events
              match process_conf K c w1 with
              | (Raise e, w2, t2) => (@Raise (option conf) e, w2, t1 ++ t2)
              | (Ok _, w2, t2) =>
                  let '(r, w3, t3) :=
                    launch_loop K cycle p (S i) (g + 1) (Some c) rest w2 in
                  (r, w3, t1 ++ t2 ++ t3)
              end))).
    { intros c w1 t1 H1.
      pose proof (process_conf_filter is_launch c w1 ltac:(kinds)) as Hp.
      cbn [filter is_launch] in Hp.
      destruct (process_conf K c w1) as [[[[]|e] w2] t2]; cbn [events snd] in Hp.
      - specialize (IH (S i) (g + 1)%Z (Some c) w2).
        destruct (launch_loop K cycle p (S i) (g + 1) (Some c) rest w2) as [[r w3] t3].
        cbn [events snd] in *. rewrite !filter_app, Hp. cbn [app].
        apply Forall_app. now split.
      - cbn [events snd]. now rewrite filter_app, Hp, app_nil_r. }
    destruct (differs stid (pl_fake_stid p)).
    + destruct (nth_error (pl_moreopts p) i) as [mo|]; [|cbn; constructor].
      cbv zeta.
      match goal with |- context [launch K ?lc w] =>
        assert (Hone : forall r,
                   Forall (is_loop_launch cycle (pl_infiles p) (pl_case_root p)
                                          (pl_fakestorm_conf p))
                          (filter is_launch [EvLaunch lc r]))
          by (intros r; repeat constructor; exists lc, r; now repeat split);
        destruct (launch K lc w) as [[c|e] w1]
      end; cbn [fst snd].
      * apply Htail, Hone.
      * apply Hone.
    + destruct (pl_fakestorm_conf p) as [c|]; [|cbn; constructor].
      apply (Htail c w []). constructor.
Qed.

Lemma single_storm_launch_events cycle args rn w :
  filter is_launch (events (launch_all K cycle args [] [] rn w)) =
  match parse_launch_args K (tl args) w with
  | (Raise _, _) => []
  | (Ok p, w1) =>
      [EvLaunch (single_launch conf cycle p)
                (fst (launch K (single_launch conf cycle p) w1))]
  end.
Proof.
  rewrite single_storm_run.
  destruct (parse_launch_args K (tl args) w) as [[p|e] w1]; [|reflexivity].
  destruct (launch K (single_launch conf cycle p) w1) as [[c|e] w2]; [|reflexivity].
  rewrite !filter_app, (process_conf_filter is_launch c w2) by kinds.
  destruct (process_conf K c w2) as [[[[]|e] w3] t3]; [|reflexivity].
  now rewrite (notify_silent is_launch c ltac:(kinds) w3).
Qed.

Lemma multistorm_launch_events cycle args ms mb rn w :
  truthy ms || truthy mb = true ->
  filter is_launch (events (launch_all K cycle args ms mb rn w)) = [] \/
  exists c r others,
    filter is_launch (events (launch_all K cycle args ms mb rn w))
    = EvLaunch c r :: others /\
    lc_cycle c = cycle /\ lc_fakestorm c = true /\ lc_fakestorm_conf c = None /\
    lc_storm_num c = 1%Z /\
    Forall (is_loop_launch cycle (lc_infiles c) (lc_case_root c) (returned_conf r))
           others.
Proof.
  intros H. pose proof (resolve_storms_go args ms mb rn w H) as Hgo.
  unfold launch_all. rewrite (filter_events_bind _ (resolve_storms K args ms mb rn)).
  rewrite (resolve_storms_silent is_launch args ms mb rn ltac:(kinds) w).
  destruct (outcome (resolve_storms K args ms mb rn w)) as [[sids go]|e]; [|now left].
  destruct Hgo as [-> _]. cbn [app].
  set (w1 := final_world (resolve_storms K args ms mb rn w)).
  rewrite (filter_events_bind _ (prepare K cycle args sids true)).
  rewrite prepare_multi_run. cbv zeta.
  destruct (multistorm_parse_args K sids (tl args) w1) as [[p|e] w2]; [|now left].
  destruct (rev (ma_moreopts p)) as [|mo mos]; [now left|].
  match goal with |- context [launch K ?lc w2] =>
    set (c0 := lc); destruct (launch K c0 w2) as [[fc|e] w3] end.
  2:{ right. exists c0, (Raise e), []. cbn. repeat split. constructor. }
  right. cbn [events outcome final_world fst snd filter is_launch app].
  eexists c0, (Ok fc), _. split; [reflexivity|]. repeat split.
  rewrite filter_events_bind.
  match goal with |- context [launch_loop K cycle ?P 0 ?g None ?l w3] =>
    pose proof (launch_loop_launches cycle P l 0 g None w3) as L;
    destruct (outcome (launch_loop K cycle P 0 g None l w3)) as [[c|]|e]
  end; cbn [pl_infiles pl_case_root pl_fakestorm_conf] in L.
  - now rewrite (notify_silent is_launch c ltac:(kinds)), app_nil_r.
  - now rewrite app_nil_r.
  - now rewrite app_nil_r.
Qed.

(** X13: the launches of any run.  The first launch has the number 1 and
    gets no fake storm's configuration.  If it is not the launch of a fake
    storm, it is the only launch of the run.  Otherwise every later launch
    is one of a real storm, for the same cycle, configuration files and
    case root as the first, and gets the configuration that the first
    launch returned. *)
Theorem launches_of_a_run argv w c r others :
  filter is_launch (events (main K argv w)) = EvLaunch c r :: others ->
  lc_storm_num c = 1%Z /\
  lc_fakestorm_conf c = None /\
  (lc_fakestorm c = false -> others = []) /\
  Forall (is_loop_launch (lc_cycle c) (lc_infiles c) (lc_case_root c) (returned_conf r))
         others.
Proof.
  intros H.
  destruct (main_cases argv w)
    as [[_ Hpre]|(opts & args & a0 & cycle & w1 & ms & mb & rn & _ & _ & _ & _ & Hmain)].
  { rewrite filter_nil_Forall in H; [discriminate|].
    eapply Forall_impl; [|exact Hpre]. intros []; cbv; congruence. }
  rewrite Hmain in H. clear Hmain.
  assert (Ht : filter is_launch (events (launch_all K cycle args ms mb rn w1))
               = EvLaunch c r :: others).
  { destruct (launch_all K cycle args ms mb rn w1) as [[r0 w2] t]. exact H. }
  clear H.
  destruct (truthy ms || truthy mb) eqn:Hmulti.
  - destruct (multistorm_launch_events cycle args ms mb rn w1 Hmulti)
      as [H|(c0 & r0 & others0 & H & Hc & Hf & Hfc & Hn & Hall)];
      rewrite H in Ht; [discriminate|].
    injection Ht as <- <- <-. subst cycle.
    repeat split; try assumption. rewrite Hf. discriminate.
  - destruct ms; [|discriminate]. destruct mb; [|discriminate].
    rewrite single_storm_launch_events in Ht.
    destruct (parse_launch_args K (tl args) w1) as [[p|e] w2]; [|discriminate].
    injection Ht as <- <- <-. repeat split. constructor.
Qed.

(** *** The ecFlow events of any run *)

(** Lines 156-207 emit no ecFlow event, no sanity check and nothing that
    a run leaves behind. *)
Lemma prepare_silent sel cycle args sids go :
  (forall e, is_parse e || is_multi_parse e || is_launch e || is_log e = true ->
             sel e = false) ->
  silent sel (prepare K cycle args sids go).
Proof.
  intros H. unfold prepare, last_item, log_info. silence H.
Qed.

Lemma resolve_storms_quiet sel args ms mb rn :
  (forall e, is_log e || is_priority e = true -> sel e = false) ->
  silent sel (resolve_storms K args ms mb rn).
Proof.
  intros H. unfold resolve_storms, log_info. silence H.
Qed.

(** Whatever the configuration answers and whatever fails, lines 248-260
    set a subsequence of "Analysis", "Ocean", "Wave". *)
Lemma notify_names c w :
  exists analysis ocean wave : bool,
    ecflow_names (events (notify K c w)) =
    (if analysis then ["Analysis"] else [])
    ++ (if ocean then ["Ocean"] else [])
    ++ (if wave then ["Wave"] else []).
Proof.
  unfold notify, flag_and_model, ecflow_event. run_monad.
  repeat (match goal with
          | |- context [getbool K ?c ?s ?o ?w] =>
              destruct (getbool K c s o w) as [[[|]|?] ?]
          | |- context [getstr K ?c ?s ?o ?w] =>
              destruct (getstr K c s o w) as [[?|?] ?]
          | |- context [set_ecflow_event K ?n ?w] =>
              destruct (set_ecflow_event K n w) as [[[]|?] ?]
          | |- context [String.eqb (upper ?m) ?x] =>
              destruct (String.eqb (upper m) x)
          end; cbv beta iota);
    cbn [events snd app ecflow_names flat_map];
    first [ exists false, false, false; reflexivity
          | exists true, false, false; reflexivity
          | exists false, true, false; reflexivity
          | exists false, false, true; reflexivity
          | exists true, true, false; reflexivity
          | exists true, false, true; reflexivity
          | exists false, true, true; reflexivity
          | exists true, true, true; reflexivity ].
Qed.

(** [main] after the option loop: the events before the lines 248-260
    and those of these lines, if they are reached. *)
Lemma launch_all_ends_with_notify cycle args ms mb rn w :
  exists before after,
    events (launch_all K cycle args ms mb rn w) = before ++ after /\
    filter is_ecflow before = [] /\
    (after = [] \/ exists c w3, after = events (notify K c w3)).
Proof.
  rewrite launch_all_run.
  pose proof (resolve_storms_silent is_ecflow args ms mb rn ltac:(kinds) w) as R.
  destruct (resolve_storms K args ms mb rn w) as [[[[sids go]|e] w1] t1];
    cbn [events snd] in R.
  2:{ exists t1, []. rewrite app_nil_r. auto. }
  pose proof (prepare_silent is_ecflow cycle args sids go ltac:(kinds) w1) as P.
  destruct (prepare K cycle args sids go w1) as [[[p|e] w2] t2]; cbn [events snd] in P.
  2:{ exists (t1 ++ t2), []. rewrite app_nil_r, filter_app, R, P. auto. }
  pose proof (launch_loop_silent is_ecflow cycle p (pl_stids p) ltac:(kinds)
                0%nat (pl_global_storm_num p) None w2) as L.
  destruct (launch_loop K cycle p 0 (pl_global_storm_num p) None (pl_stids p) w2)
    as [[[[c|]|e] w3] t3]; cbn [events snd] in L.
  - destruct (notify K c w3) as [[r w4] t4] eqn:N.
    exists (t1 ++ t2 ++ t3), t4. cbn [events snd].
    rewrite !filter_app, R, P, L, <- !app_assoc.
    repeat split. right. exists c, w3. now rewrite N.
  - exists (t1 ++ t2 ++ t3), []. cbn [events snd].
    rewrite !filter_app, R, P, L, app_nil_r. auto.
  - exists (t1 ++ t2 ++ t3), []. cbn [events snd].
    rewrite !filter_app, R, P, L, app_nil_r. auto.
Qed.

(** X14: the ecFlow events of any run, however it ends.  They come at the
    end: once the first is set, the script only queries the configuration
    and sets further events; no storm is launched, checked or written
    after it.  The events set are "Analysis", "Ocean" and "Wave", in this
    order, each at most once. *)
Theorem ecflow_events_close_the_run argv w :
  exists before after (analysis ocean wave : bool),
    events (main K argv w) = before ++ after /\
    filter is_ecflow before = [] /\
    filter (fun e => negb (is_notification e)) after = [] /\
    ecflow_names (events (main K argv w)) =
      (if analysis then ["Analysis"] else [])
      ++ (if ocean then ["Ocean"] else [])
      ++ (if wave then ["Wave"] else []).
Proof.
  destruct (main_cases argv w)
    as [[_ Hpre]|(opts & args & a0 & cycle & w1 & ms & mb & rn & _ & _ & _ & _ & ->)].
  - assert (He : filter is_ecflow (events (main K argv w)) = []).
    { apply filter_nil_Forall. eapply Forall_impl; [|exact Hpre].
      intros []; cbv; congruence. }
    exists (events (main K argv w)), [], false, false, false.
    rewrite app_nil_r, (ecflow_names_silent _ He). auto.
  - destruct (launch_all_ends_with_notify cycle args ms mb rn w1)
      as (before & after & Ht & Hb & Ha).
    destruct (launch_all K cycle args ms mb rn w1) as [[r w2] t].
    cbn [events snd] in *. subst t.
    set (pre := [Log ScriptLogger Info MsgTop; EvToDatetime a0 (Ok cycle);
                 Log ScriptLogger Info (MsgAllOptsAndArgs opts args)]).
    assert (Hpb : filter is_ecflow (pre ++ before) = [])
      by (rewrite filter_app, Hb; reflexivity).
    destruct Ha as [->|(c & w3 & ->)].
    + exists (pre ++ before), [], false, false, false.
      rewrite !app_nil_r, (ecflow_names_silent _ Hpb). auto.
    + destruct (notify_names c w3) as (analysis & ocean & wave & Hn).
      exists (pre ++ before), (events (notify K c w3)), analysis, ocean, wave.
      rewrite app_assoc. repeat split.
      * exact Hpb.
      * apply (notify_silent (fun e => negb (is_notification e)) c).
        intros e He. now rewrite He.
      * now rewrite ecflow_names_app, (ecflow_names_silent _ Hpb).
Qed.

(** *** Sanity checks come before anything is left behind *)

(** As long as no sanity check has passed, the loop has left nothing
    behind, and if it has ended it has not bound [conf]. *)
Lemma launch_loop_unchecked cycle p stids : forall i g last w,
  filter is_passed_check (events (launch_loop K cycle p i g last stids w)) = [] ->
  filter is_output (events (launch_loop K cycle p i g last stids w)) = [] /\
  forall r, outcome (launch_loop K cycle p i g last stids w) = Ok r -> r = last.
Proof.
  induction stids as [|stid rest IH]; intros i g last w.
  - cbn. intros _. split; [reflexivity|]. now intros r [= <-].
  - rewrite launch_loop_run.
    pose proof (obtain_conf_silent is_output cycle p i stid (g + 1) ltac:(kinds) w) as O.
    destruct (obtain_conf K cycle p i stid (g + 1) w) as [[[c|e] w1] t1];
      cbn [events snd] in O.
    2:{ intros _. split; [exact O | discriminate]. }
    rewrite process_conf_run.
    destruct (sanity_check K c w1) as [[[]|e] w2].
    + match goal with |- context [bind ?m ?k w2] =>
        destruct (bind m k w2) as [[[[]|e] w3] t2] end.
      * destruct (launch_loop K cycle p (S i) (g + 1) (Some c) rest w3) as [[r w4] t3].
        cbn [events snd]. rewrite !filter_app. cbn [filter is_passed_check].
        intros H. apply app_eq_nil in H. destruct H as [_ H]. discriminate.
      * cbn [events snd]. rewrite !filter_app. cbn [filter is_passed_check].
        intros H. apply app_eq_nil in H. destruct H as [_ H]. discriminate.
    + intros _. cbn [events snd outcome fst]. rewrite filter_app, O.
      split; [reflexivity | discriminate].
Qed.

Lemma launch_all_unchecked cycle args ms mb rn w :
  filter is_passed_check (events (launch_all K cycle args ms mb rn w)) = [] ->
  filter is_output (events (launch_all K cycle args ms mb rn w)) = [] /\
  exists e, outcome (launch_all K cycle args ms mb rn w) = Raise e.
Proof.
  rewrite launch_all_run.
  pose proof (resolve_storms_quiet is_output args ms mb rn ltac:(kinds) w) as R.
  destruct (resolve_storms K args ms mb rn w) as [[[[sids go]|e] w1] t1];
    cbn [events snd] in R.
  2:{ intros _. split; [exact R | eexists; reflexivity]. }
  pose proof (prepare_silent is_output cycle args sids go ltac:(kinds) w1) as P.
  destruct (prepare K cycle args sids go w1) as [[[p|e] w2] t2]; cbn [events snd] in P.
  2:{ intros _. cbn [events snd]. rewrite filter_app, R, P.
      split; [reflexivity | eexists; reflexivity]. }
  pose proof (launch_loop_unchecked cycle p (pl_stids p) 0 (pl_global_storm_num p)
                None w2) as L.
  destruct (launch_loop K cycle p 0 (pl_global_storm_num p) None (pl_stids p) w2)
    as [[[[c|]|e] w3] t3]; cbn [events snd outcome fst] in L.
  - destruct (notify K c w3) as [[r w4] t4]. cbn [events snd].
    rewrite !filter_app. intros H.
    apply app_eq_nil in H. destruct H as [_ H].
    apply app_eq_nil in H. destruct H as [_ H].
    apply app_eq_nil in H. destruct H as [H _].
    destruct (L H) as [_ Hlast]. discriminate (Hlast _ eq_refl).
  - cbn [events snd outcome fst]. rewrite !filter_app. intros H.
    apply app_eq_nil in H. destruct H as [_ H].
    apply app_eq_nil in H. destruct H as [_ H].
    destruct (L H) as [Hout _]. rewrite R, P, Hout.
    split; [reflexivity | eexists; reflexivity].
  - cbn [events snd outcome fst]. rewrite !filter_app. intros H.
    apply app_eq_nil in H. destruct H as [_ H].
    apply app_eq_nil in H. destruct H as [_ H].
    destruct (L H) as [Hout _]. rewrite R, P, Hout.
    split; [reflexivity | eexists; reflexivity].
Qed.

(** X15: nothing is left behind before a sanity check has passed.  A run
    in which no sanity check succeeded has sent no DBN alert, has opened
    and written no file and has set no ecFlow event, and it has ended with
    an exception. *)
Theorem outputs_need_a_passed_check argv w :
  filter is_passed_check (events (main K argv w)) = [] ->
  filter is_output (events (main K argv w)) = [] /\
  exists e, outcome (main K argv w) = Raise e.
Proof.
  destruct (main_cases argv w)
    as [[He Hpre]|(opts & args & a0 & cycle & w1 & ms & mb & rn & _ & _ & _ & _ & ->)].
  - intros _. split; [|exact He].
    apply filter_nil_Forall. eapply Forall_impl; [|exact Hpre].
    intros []; cbv; congruence.
  - pose proof (launch_all_unchecked cycle args ms mb rn w1) as H.
    destruct (launch_all K cycle args ms mb rn w1) as [[r w2] t].
    cbn [events snd outcome fst app filter is_passed_check is_output] in *. exact H.
Qed.

(** *** The files of a run *)

Lemma opened_paths_app (t1 t2 : list event) :
  opened_paths (t1 ++ t2) = opened_paths t1 ++ opened_paths t2.
Proof. apply flat_map_app. Qed.

Lemma written_paths_app (t1 t2 : list event) :
  written_paths (t1 ++ t2) = written_paths t1 ++ written_paths t2.
Proof. apply flat_map_app. Qed.

Lemma paths_silent (t : list event) :
  filter is_file_event t = [] -> opened_paths t = [] /\ written_paths t = [].
Proof.
  induction t as [|e t IH]; [now split|]. cbn [filter].
  destruct e; cbn [is_file_event]; try discriminate; intros Hu; cbn; auto.
Qed.

(** The files of one storm: each is written right after it was opened
    and its text obtained, so that at most the file opened last is left
    unwritten, and none if the storm was processed to the end. *)
Lemma process_conf_files c w :
  exists pending,
    opened_paths (events (process_conf K c w)) =
    written_paths (events (process_conf K c w)) ++ pending /\
    (length pending <= 1)%nat /\
    (forall u, outcome (process_conf K c w) = Ok u -> pending = []).
Proof.
  unfold process_conf, nco_alert, write_holdvars, write_generated_holdvars,
    write_startfile.
  run_monad.
  repeat (match goal with
          | |- context [sanity_check K ?c ?w] =>
              destruct (sanity_check K c w) as [[[]|?] ?]
          | |- context [run_envir_is_nco K ?w] => destruct (run_envir_is_nco K w)
          | |- context [strinterp K ?c ?a ?b ?kw ?w] =>
              destruct (strinterp K c a b kw w) as [[?|?] ?]
          | |- context [path_exists K ?a ?w] =>
              destruct (path_exists K a w) as [[[|]|?] ?]
          | |- context [dbn_alert K ?a ?w] =>
              destruct (dbn_alert K a w) as [[[]|?] ?]
          | |- context [open_wt K ?a ?w] =>
              destruct (open_wt K a w) as [[[]|?] ?]
          | |- context [make_holdvars K ?c ?w] =>
              destruct (make_holdvars K c w) as [[?|?] ?]
          | |- context [file_write K ?a ?b ?w] =>
              destruct (file_write K a b w) as [[[]|?] ?]
          | |- context [has_option K ?c ?a ?b ?w] =>
              destruct (has_option K c a b w) as [[[|]|?] ?]
          | |- context [getstr K ?c ?a ?b ?w] =>
              destruct (getstr K c a b w) as [[?|?] ?]
          end; cbv beta iota);
    cbn [events outcome fst snd app opened_paths written_paths flat_map];
    eexists; (split; [reflexivity|]); (split; [cbn; lia|]);
    intros u Hu; first [reflexivity | discriminate Hu].
Qed.

Lemma launch_loop_files cycle p stids : forall i g last w,
  exists pending,
    opened_paths (events (launch_loop K cycle p i g last stids w)) =
    written_paths (events (launch_loop K cycle p i g last stids w)) ++ pending /\
    (length pending <= 1)%nat /\
    (forall r, outcome (launch_loop K cycle p i g last stids w) = Ok r -> pending = []).
Proof.
  induction stids as [|stid rest IH]; intros i g last w.
  - exists []. cbn. auto.
  - rewrite launch_loop_run.
    pose proof (obtain_conf_silent is_file_event cycle p i stid (g + 1) ltac:(kinds) w)
      as O.
    apply paths_silent in O. destruct O as [O1 O2].
    destruct (obtain_conf K cycle p i stid (g + 1) w) as [[[c|e] w1] t1];
      cbn [events snd] in O1, O2.
    2:{ exists []. cbn [events outcome fst snd]. rewrite O1, O2.
        split; [cbn [app]; now rewrite ?app_nil_r|]. split; [cbn; lia | discriminate]. }
    destruct (process_conf_files c w1) as (pending & Hp & Hlen & Hok).
    destruct (process_conf K c w1) as [[[[]|e] w2] t2];
      cbn [events outcome fst snd] in Hp, Hok.
    + rewrite (Hok tt eq_refl), app_nil_r in Hp.
      destruct (IH (S i) (g + 1)%Z (Some c) w2) as (pending3 & Hp3 & Hlen3 & Hok3).
      destruct (launch_loop K cycle p (S i) (g + 1) (Some c) rest w2) as [[r w3] t3].
      cbn [events outcome fst snd] in *. exists pending3.
      rewrite !opened_paths_app, !written_paths_app, O1, O2, Hp, Hp3. cbn [app].
      now rewrite app_assoc.
    + exists pending. cbn [events outcome fst snd].
      rewrite !opened_paths_app, !written_paths_app, O1, O2, Hp.
      split; [cbn [app]; now rewrite ?app_nil_r|]. split; [assumption | discriminate].
Qed.

Lemma launch_all_files cycle args ms mb rn w :
  exists pending,
    opened_paths (events (launch_all K cycle args ms mb rn w)) =
    written_paths (events (launch_all K cycle args ms mb rn w)) ++ pending /\
    (length pending <= 1)%nat /\
    (forall u, outcome (launch_all K cycle args ms mb rn w) = Ok u -> pending = []).
Proof.
  rewrite launch_all_run.
  pose proof (resolve_storms_quiet is_file_event args ms mb rn ltac:(kinds) w) as R.
  apply paths_silent in R. destruct R as [R1 R2].
  destruct (resolve_storms K args ms mb rn w) as [[[[sids go]|e] w1] t1];
    cbn [events snd] in R1, R2.
  2:{ exists []. cbn [events outcome fst snd]. rewrite R1, R2.
      split; [cbn [app]; now rewrite ?app_nil_r|]. split; [cbn; lia | discriminate]. }
  pose proof (prepare_silent is_file_event cycle args sids go ltac:(kinds) w1) as P.
  apply paths_silent in P. destruct P as [P1 P2].
  destruct (prepare K cycle args sids go w1) as [[[p|e] w2] t2];
    cbn [events snd] in P1, P2.
  2:{ exists []. cbn [events outcome fst snd].
      rewrite !opened_paths_app, !written_paths_app, R1, R2, P1, P2.
      split; [cbn [app]; now rewrite ?app_nil_r|]. split; [cbn; lia | discriminate]. }
  destruct (launch_loop_files cycle p (pl_stids p) 0 (pl_global_storm_num p) None w2)
    as (pending & Hp & Hlen & Hok).
  destruct (launch_loop K cycle p 0 (pl_global_storm_num p) None (pl_stids p) w2)
    as [[[[c|]|e] w3] t3]; cbn [events outcome fst snd] in Hp, Hok.
  - pose proof (notify_silent is_file_event c ltac:(kinds) w3) as N.
    apply paths_silent in N. destruct N as [N1 N2].
    destruct (notify K c w3) as [[r w4] t4]. cbn [events outcome fst snd] in *.
    exists []. rewrite (Hok _ eq_refl), app_nil_r in Hp.
    rewrite !opened_paths_app, !written_paths_app, R1, R2, P1, P2, N1, N2, Hp.
    split; [cbn [app]; now rewrite ?app_nil_r|]. split; [cbn; lia | reflexivity].
  - exists pending. cbn [events outcome fst snd].
    rewrite !opened_paths_app, !written_paths_app, R1, R2, P1, P2, Hp.
    split; [cbn [app]; now rewrite ?app_nil_r|]. split; [assumption | discriminate].
  - exists pending. cbn [events outcome fst snd].
    rewrite !opened_paths_app, !written_paths_app, R1, R2, P1, P2, Hp.
    split; [cbn [app]; now rewrite ?app_nil_r|]. split; [assumption | discriminate].
Qed.

(** X16: the files of any run.  The files written are, in order, the
    files opened for writing, except that a run that fails can leave the
    file it opened last unwritten, as it opens a holdvars file before it
    asks the configuration for the text.  A run that succeeds has written
    every file it opened. *)
Theorem written_files_were_opened argv w :
  exists pending,
    opened_paths (events (main K argv w)) =
    written_paths (events (main K argv w)) ++ pending /\
    (length pending <= 1)%nat /\
    (forall u, outcome (main K argv w) = Ok u -> pending = []).
Proof.
  destruct (main_cases argv w)
    as [[[e He] Hpre]|(opts & args & a0 & cycle & w1 & ms & mb & rn & _ & _ & _ & _ & ->)].
  - assert (Hf : filter is_file_event (events (main K argv w)) = []).
    { apply filter_nil_Forall. eapply Forall_impl; [|exact Hpre].
      intros []; cbv; congruence. }
    apply paths_silent in Hf. destruct Hf as [-> ->].
    exists []. split; [reflexivity|]. split; [cbn; lia|]. rewrite He. discriminate.
  - destruct (launch_all_files cycle args ms mb rn w1) as (pending & Hp & Hlen & Hok).
    destruct (launch_all K cycle args ms mb rn w1) as [[r w2] t].
    exists pending. cbn [events outcome fst snd app opened_paths written_paths flat_map] in *.
    auto.
Qed.

(** *** The DBN alert and the start file of a storm *)

Lemma nco_alert_off c w :
  run_envir_is_nco K w = false -> nco_alert K c w = (Ok tt, w, []).
Proof. intros H. unfold nco_alert. run_monad. now rewrite H. Qed.

(** Lines 224-229, when they succeed. *)
Lemma nco_alert_ok c w w' t :
  nco_alert K c w = (Ok tt, w', t) ->
  if run_envir_is_nco K w then
    exists message alert_type present,
      t = [EvStrinterp c "wcoss_fcst_nco" "{messages}/message{storm_num}" [] (Ok message);
           EvStrinterp c "config" "{RUN}_MESSAGE" [] (Ok alert_type);
           EvPathExists message (Ok present)]
          ++ (if present : bool
              then [EvDBNAlert ["MODEL"; upper alert_type; "{job}"; message] (Ok tt)]
              else [])
  else t = [].
Proof.
  unfold nco_alert. intros H.
  apply bind_ok_inv in H. destruct H as (nco & w1 & t1 & t2 & H1 & H & ->).
  unfold read in H1. injection H1 as <- <- <-.
  destruct (run_envir_is_nco K w).
  - apply bind_ok_inv in H. destruct H as (message & w2 & t3 & ta & H2 & H & ->).
    apply call_inv in H2. destruct H2 as [_ ->].
    apply bind_ok_inv in H. destruct H as (alert_type & w3 & t4 & tb & H3 & H & ->).
    apply call_inv in H3. destruct H3 as [_ ->].
    apply bind_ok_inv in H. destruct H as (present & w4 & t5 & t6 & H4 & H5 & ->).
    apply call_inv in H4. destruct H4 as [_ ->].
    exists message, alert_type, present. destruct present.
    + apply call_inv in H5. destruct H5 as [_ ->]. reflexivity.
    + injection H5 as _ <-. reflexivity.
  - injection H as _ <-. reflexivity.
Qed.

(** Lines 241-246, when they succeed. *)
Lemma write_startfile_ok c holdvars w w' t :
  write_startfile K c holdvars w = (Ok tt, w', t) ->
  exists has startfile contents,
    t = EvHasOption c "config" "startfile" (Ok has)
        :: (if has : bool
            then [EvGetStr c "config" "startfile" (Ok startfile);
                  Log ScriptLogger Info (MsgStartfile startfile);
                  EvStrinterp c "config" startdata [("holdvars", holdvars)] (Ok contents);
                  EvOpen startfile (Ok tt);
                  EvWrite startfile contents (Ok tt)]
            else []).
Proof.
  unfold write_startfile. intros H.
  apply bind_ok_inv in H. destruct H as (has & w1 & t1 & ta & H1 & H & ->).
  apply call_inv in H1. destruct H1 as [_ ->].
  destruct has.
  - apply bind_ok_inv in H. destruct H as (startfile & w2 & t2 & tb & H2 & H & ->).
    apply call_inv in H2. destruct H2 as [_ ->].
    apply bind_ok_inv in H. destruct H as ([] & w3 & t3 & tc & H3 & H & ->).
    injection H3 as <- <-.
    apply bind_ok_inv in H. destruct H as (contents & w4 & t4 & td & H4 & H & ->).
    apply call_inv in H4. destruct H4 as [_ ->].
    apply bind_ok_inv in H. destruct H as ([] & w5 & t5 & t6 & H5 & H6 & ->).
    apply call_inv in H5. destruct H5 as [_ ->].
    apply call_inv in H6. destruct H6 as [_ ->].
    exists true, startfile, contents. reflexivity.
  - injection H as _ <-. exists false, "", "". reflexivity.
Qed.

(** X17: the DBN alert of a storm that was processed to the end.  Right
    after the sanity check the environment is asked for [RUN_ENVIR].  If
    its upper-cased value is not NCO (DEV being the default), nothing is
    done.  Otherwise the configuration gives the path of the message file
    and the alert type, and the alert is sent exactly if the message file
    exists, with four arguments: MODEL, the upper-cased alert type (which
    for an alert type of ASCII characters is [upper] of it), the literal
    [{job}] and the path.  Nothing later in the processing of the storm
    tests for a file or sends an alert. *)
Theorem dbn_alert_of_a_storm c w w' t :
  process_conf K c w = (Ok tt, w', t) ->
  exists w1 alert after,
    sanity_check K c w = (Ok tt, w1) /\
    t = EvSanityCheck c (Ok tt) :: alert ++ after /\
    filter is_alert after = [] /\
    if run_envir_is_nco K w1 then
      exists message alert_type upper_type present,
        (is_ascii alert_type = true -> upper_type = upper alert_type) /\
        alert =
          [EvStrinterp c "wcoss_fcst_nco" "{messages}/message{storm_num}" [] (Ok message);
           EvStrinterp c "config" "{RUN}_MESSAGE" [] (Ok alert_type);
           EvPathExists message (Ok present)]
          ++ (if present : bool
              then [EvDBNAlert ["MODEL"; upper_type; "{job}"; message] (Ok tt)]
              else [])
    else alert = [].
Proof.
  intros H. unfold process_conf in H.
  apply bind_ok_inv in H. destruct H as ([] & w1 & t1 & ta & H1 & H & ->).
  apply call_inv in H1. destruct H1 as [H1 ->].
  apply bind_ok_inv in H. destruct H as ([] & w2 & t2 & tb & H2 & H & ->).
  assert (S : silent is_alert (holdvars <- write_holdvars K c ;;
                               write_startfile K c holdvars)).
  { unfold write_holdvars, write_generated_holdvars, write_startfile, log_info.
    silence I. }
  specialize (S w2). rewrite (events_of_run _ _ _ _ _ H) in S.
  exists w1, t2, tb. repeat split; try assumption.
  pose proof (nco_alert_ok _ _ _ _ H2) as Hnco.
  destruct (run_envir_is_nco K w1); [|exact Hnco].
  destruct Hnco as (message & alert_type & present & ->).
  exists message, alert_type, (upper alert_type), present. now split.
Qed.

(** X18: the start file of a storm that was processed to the end.  After
    the two holdvars files the configuration is asked whether it has the
    option [startfile] in the section [config].  If not, nothing more is
    done.  If so, the start file is written at the path that the option
    gives, with the text that the configuration makes of [startdata] when
    [holdvars] stands for the path of the first holdvars file, the one
    named after the storm label. *)
Theorem start_file_names_first_holdvars c w w' t :
  process_conf K c w = (Ok tt, w', t) ->
  exists first holdvars holdvars2 text text2 has startfile contents,
    filter is_startfile_event first = [] /\
    t = first
        ++ [EvStrinterp c "dir" holdvars_template [] (Ok holdvars);
            Log ScriptLogger Info (MsgHoldvars holdvars);
            EvOpen holdvars (Ok tt);
            EvMakeHoldvars c (Ok text);
            EvWrite holdvars text (Ok tt);
            EvStrinterp c "dir" holdvars2_template [] (Ok holdvars2);
            Log ScriptLogger Info (MsgHoldvars2 holdvars2);
            EvOpen holdvars2 (Ok tt);
            EvMakeHoldvars c (Ok text2);
            EvWrite holdvars2 text2 (Ok tt);
            EvHasOption c "config" "startfile" (Ok has)]
        ++ (if has : bool
            then [EvGetStr c "config" "startfile" (Ok startfile);
                  Log ScriptLogger Info (MsgStartfile startfile);
                  EvStrinterp c "config" startdata [("holdvars", holdvars)] (Ok contents);
                  EvOpen startfile (Ok tt);
                  EvWrite startfile contents (Ok tt)]
            else []).
Proof.
  intros H. unfold process_conf in H.
  apply bind_ok_inv in H. destruct H as ([] & w1 & t1 & ta & H1 & H & ->).
  apply call_inv in H1. destruct H1 as [_ ->].
  apply bind_ok_inv in H. destruct H as ([] & w2 & t2 & tb & H2 & H & ->).
  apply bind_ok_inv in H. destruct H as (h & w3 & t3 & t4 & H3 & H4 & ->).
  apply write_holdvars_ok in H3.
  destruct H3 as (h2 & text & text2 & wa & wb & _ & _ & ->).
  apply write_startfile_ok in H4. destruct H4 as (has & startfile & contents & ->).
  assert (S2 : silent is_startfile_event (nco_alert K c))
    by (unfold nco_alert; silence I).
  specialize (S2 w1). rewrite (events_of_run _ _ _ _ _ H2) in S2.
  exists (EvSanityCheck c (Ok tt) :: t2), h, h2, text, text2, has, startfile, contents.
  split; [exact S2|].
  cbn [app]. reflexivity.
Qed.

(** X19: outside operations nothing of lines 224-229 happens.  If
    [RUN_ENVIR], upper-cased, is never NCO, no run tests for a message
    file or sends a DBN alert. *)
Theorem no_alert_outside_operations argv w :
  (forall w', run_envir_is_nco K w' = false) ->
  filter is_alert (events (main K argv w)) = [].
Proof.
  intros Hdev. apply main_quiet_but_alerts.
  - intros e He. destruct (is_alert e); [|reflexivity].
    rewrite andb_false_r in He. discriminate.
  - intros c w'. now rewrite (nco_alert_off c w' (Hdev w')).
Qed.

(** *** A multistorm run without storms *)

Lemma not_In_silent (sel : event -> bool) (t : list event) e :
  filter sel t = [] -> In e t -> sel e = true -> False.
Proof.
  intros Hf Hin He.
  assert (H : In e (filter sel t)) by (apply filter_In; auto).
  rewrite Hf in H. contradiction.
Qed.

Lemma launch_all_no_storm cycle args ms mb rn w sids a p :
  In (EvMultiParse sids a (Ok p)) (events (launch_all K cycle args ms mb rn w)) ->
  ma_stids p = [] ->
  filter is_sanity_check (events (launch_all K cycle args ms mb rn w)) = [] /\
  (exists e, outcome (launch_all K cycle args ms mb rn w) = Raise e) /\
  forall c fc,
    In (EvLaunch c (Ok fc)) (events (launch_all K cycle args ms mb rn w)) ->
    exists msg,
      outcome (launch_all K cycle args ms mb rn w) = Raise (UnboundLocalError msg).
Proof.
  rewrite launch_all_run.
  pose proof (resolve_storms_silent is_multi_parse args ms mb rn ltac:(kinds) w) as R1.
  pose proof (resolve_storms_silent is_sanity_check args ms mb rn ltac:(kinds) w) as R2.
  pose proof (resolve_storms_silent is_launch args ms mb rn ltac:(kinds) w) as R3.
  destruct (resolve_storms K args ms mb rn w) as [[[[sids' go]|e] w1] t1];
    cbn [events snd] in R1, R2, R3.
  2:{ intros Hin. now destruct (not_In_silent _ _ _ R1 Hin eq_refl). }
  destruct go.
  - rewrite prepare_multi_run. cbv zeta.
    destruct (multistorm_parse_args K sids' (tl args) w1) as [[p'|e] w2].
    2:{ cbn [events snd]. intros Hin. apply in_app_or in Hin. destruct Hin as [Hin|Hin];
          [now destruct (not_In_silent _ _ _ R1 Hin eq_refl)|].
        cbn [In] in Hin. destruct Hin as [Hin|[Hin|[]]]; discriminate. }
    destruct (rev (ma_moreopts p')) as [|mo mos].
    { intros _ _. cbn [events snd outcome fst]. rewrite filter_app, R2.
      split; [reflexivity|]. split; [eexists; reflexivity|].
      intros c fc Hin. apply in_app_or in Hin. destruct Hin as [Hin|Hin];
        [now destruct (not_In_silent _ _ _ R3 Hin eq_refl)|].
      cbn [In] in Hin. destruct Hin as [Hin|[Hin|[]]]; discriminate. }
    match goal with |- context [launch K ?lc w2] =>
      destruct (launch K lc w2) as [[fc0|e] w3] end.
    2:{ intros _ _. cbn [events snd outcome fst]. rewrite filter_app, R2.
        split; [reflexivity|]. split; [eexists; reflexivity|].
        intros c fc Hin. apply in_app_or in Hin. destruct Hin as [Hin|Hin];
          [now destruct (not_In_silent _ _ _ R3 Hin eq_refl)|].
        cbn [In] in Hin. destruct Hin as [Hin|[Hin|[Hin|[]]]]; discriminate. }
    cbn [pl_stids pl_global_storm_num].
    destruct (ma_stids p') as [|s l] eqn:Hstids.
    + intros _ _. cbn [launch_loop ret Monad_M mret events snd outcome fst].
      rewrite filter_app, R2, app_nil_r.
      split; [reflexivity|]. split; eauto.
    + match goal with |- context [launch_loop K cycle ?P 0 1 None (s :: l) w3] =>
        pose proof (launch_loop_silent is_multi_parse cycle P (s :: l) ltac:(kinds)
                      0%nat 1%Z None w3) as L;
        destruct (launch_loop K cycle P 0 1 None (s :: l) w3) as [[[[c1|]|e] w4] t3]
      end; cbn [events snd] in L.
      * pose proof (notify_silent is_multi_parse c1 ltac:(kinds) w4) as N.
        destruct (notify K c1 w4) as [[r w5] t4]. cbn [events snd] in *.
        intros Hin Hempty. exfalso.
        apply in_app_or in Hin. destruct Hin as [Hin|Hin];
          [now destruct (not_In_silent _ _ _ R1 Hin eq_refl)|].
        apply in_app_or in Hin. destruct Hin as [Hin|Hin].
        { cbn [In] in Hin. destruct Hin as [Hin|[Hin|[Hin|[]]]]; try discriminate.
          injection Hin as _ _ <-. congruence. }
        apply in_app_or in Hin. destruct Hin as [Hin|Hin].
        -- now destruct (not_In_silent _ _ _ L Hin eq_refl).
        -- now destruct (not_In_silent _ _ _ N Hin eq_refl).
      * cbn [events snd] in *. intros Hin Hempty. exfalso.
        apply in_app_or in Hin. destruct Hin as [Hin|Hin];
          [now destruct (not_In_silent _ _ _ R1 Hin eq_refl)|].
        apply in_app_or in Hin. destruct Hin as [Hin|Hin].
        { cbn [In] in Hin. destruct Hin as [Hin|[Hin|[Hin|[]]]]; try discriminate.
          injection Hin as _ _ <-. congruence. }
        now destruct (not_In_silent _ _ _ L Hin eq_refl).
      * cbn [events snd] in *. intros Hin Hempty. exfalso.
        apply in_app_or in Hin. destruct Hin as [Hin|Hin];
          [now destruct (not_In_silent _ _ _ R1 Hin eq_refl)|].
        apply in_app_or in Hin. destruct Hin as [Hin|Hin].
        { cbn [In] in Hin. destruct Hin as [Hin|[Hin|[Hin|[]]]]; try discriminate.
          injection Hin as _ _ <-. congruence. }
        now destruct (not_In_silent _ _ _ L Hin eq_refl).
  - rewrite prepare_single_run.
    destruct (parse_launch_args K (tl args) w1) as [[pa|e] w2].
    2:{ cbn [events snd]. intros Hin. exfalso.
        apply in_app_or in Hin. destruct Hin as [Hin|Hin];
          [now destruct (not_In_silent _ _ _ R1 Hin eq_refl)|].
        cbn [In] in Hin. destruct Hin as [Hin|[]]. discriminate. }
    match goal with |- context [launch_loop K cycle ?P 0 ?g None ?l w2] =>
      pose proof (launch_loop_silent is_multi_parse cycle P l ltac:(kinds)
                    0%nat g None w2) as L;
      destruct (launch_loop K cycle P 0 g None l w2) as [[[[c1|]|e] w4] t3]
    end; cbn [events snd] in L.
    + pose proof (notify_silent is_multi_parse c1 ltac:(kinds) w4) as N.
      destruct (notify K c1 w4) as [[r w5] t4]. cbn [events snd] in *.
      intros Hin. exfalso.
      apply in_app_or in Hin. destruct Hin as [Hin|Hin];
        [now destruct (not_In_silent _ _ _ R1 Hin eq_refl)|].
      apply in_app_or in Hin. destruct Hin as [Hin|Hin].
      { cbn [In] in Hin. destruct Hin as [Hin|[Hin|[]]]; discriminate. }
      apply in_app_or in Hin. destruct Hin as [Hin|Hin].
      * now destruct (not_In_silent _ _ _ L Hin eq_refl).
      * now destruct (not_In_silent _ _ _ N Hin eq_refl).
    + cbn [events snd]. intros Hin. exfalso.
      apply in_app_or in Hin. destruct Hin as [Hin|Hin];
        [now destruct (not_In_silent _ _ _ R1 Hin eq_refl)|].
      apply in_app_or in Hin. destruct Hin as [Hin|Hin].
      { cbn [In] in Hin. destruct Hin as [Hin|[Hin|[]]]; discriminate. }
      now destruct (not_In_silent _ _ _ L Hin eq_refl).
    + cbn [events snd]. intros Hin. exfalso.
      apply in_app_or in Hin. destruct Hin as [Hin|Hin];
        [now destruct (not_In_silent _ _ _ R1 Hin eq_refl)|].
      apply in_app_or in Hin. destruct Hin as [Hin|Hin].
      { cbn [In] in Hin. destruct Hin as [Hin|[Hin|[]]]; discriminate. }
      now destruct (not_In_silent _ _ _ L Hin eq_refl).
Qed.

(** X20: a multistorm run without storms.  If [multistorm_parse_args]
    returns an empty list of storms, the loop of lines 212-246 is not
    entered and the variable [conf] stays unbound: no configuration is
    checked, and the run ends with an exception, which is the
    [UnboundLocalError] of line 248 once the fake storm has been
    launched. *)
Theorem empty_storm_list_fails argv w sids a p :
  In (EvMultiParse sids a (Ok p)) (events (main K argv w)) ->
  ma_stids p = [] ->
  filter is_sanity_check (events (main K argv w)) = [] /\
  (exists e, outcome (main K argv w) = Raise e) /\
  forall c fc,
    In (EvLaunch c (Ok fc)) (events (main K argv w)) ->
    exists msg, outcome (main K argv w) = Raise (UnboundLocalError msg).
Proof.
  destruct (main_cases argv w)
    as [[_ Hpre]|(opts & args & a0 & cycle & w1 & ms & mb & rn & _ & _ & _ & _ & ->)].
  - intros Hin. rewrite Forall_forall in Hpre. apply Hpre in Hin. discriminate.
  - pose proof (launch_all_no_storm cycle args ms mb rn w1 sids a p) as H.
    destruct (launch_all K cycle args ms mb rn w1) as [[r w2] t].
    cbn [events outcome fst snd app] in *.
    intros Hin Hempty.
    destruct Hin as [Hin|[Hin|[Hin|Hin]]]; try discriminate.
    destruct (H Hin Hempty) as (H1 & H2 & H3).
    split; [exact H1|]. split; [exact H2|].
    intros c fc Hl. apply (H3 c fc).
    destruct Hl as [Hl|[Hl|[Hl|Hl]]]; try discriminate. exact Hl.
Qed.

(** *** Failures are not swallowed *)

Lemma stops_ret {A} (a : A) : stops_at_failure (ret a : M A).
Proof. intros w. left. constructor. Qed.

Lemma stops_raise {A} e : stops_at_failure (raise e : M A).
Proof. intros w. left. constructor. Qed.

Lemma stops_read {R} (f : world -> R) : stops_at_failure (read f : M R).
Proof. intros w. left. constructor. Qed.

Lemma stops_lift {A} (r : result A) : stops_at_failure (lift r : M A).
Proof. intros w. left. constructor. Qed.

Lemma stops_emit (e : event) : raised e = None -> stops_at_failure (emit e : M unit).
Proof. intros H w. left. now repeat constructor. Qed.

Lemma stops_call {R} (f : ext world R) (ev : result R -> event) :
  (forall r, raised (ev r) = failure r) -> stops_at_failure (call f ev).
Proof.
  intros H w. unfold call. destruct (f w) as [[a|e] w']; cbn [events outcome fst snd].
  - left. repeat constructor. now rewrite H.
  - right. exists [], (ev (Raise e)), e. repeat split; [constructor | now rewrite H].
Qed.

Lemma stops_bind {A B} (m : M A) (k : A -> M B) :
  stops_at_failure m -> (forall a, stops_at_failure (k a)) ->
  stops_at_failure (bind m k).
Proof.
  intros Hm Hk w. rewrite run_bind. specialize (Hm w).
  destruct (m w) as [[[a|e] w1] t1]; cbn [events outcome fst snd] in *.
  2:{ destruct Hm as [Hm|(b & e0 & ex & -> & Hb & He & [= ->])]; [now left|].
      right. exists b, e0, ex. now repeat split. }
  destruct Hm as [Hm|(b & e & ex & _ & _ & _ & Hm)]; [|discriminate].
  specialize (Hk a w1). destruct (k a w1) as [[r w2] t2].
  cbn [events outcome fst snd] in *.
  destruct Hk as [Hk|(b & e & ex & -> & Hb & He & ->)].
  - left. apply Forall_app. now split.
  - right. exists (t1 ++ b), e, ex. rewrite app_assoc. repeat split; try assumption.
    apply Forall_app. now split.
Qed.

(** Proves [stops_at_failure m] for a computation built from the monad's
    operations. *)
Ltac stops :=
  repeat first
    [ apply stops_bind
    | apply stops_ret
    | apply stops_raise
    | apply stops_read
    | apply stops_lift
    | apply stops_emit; reflexivity
    | apply stops_call; intros; reflexivity
    | progress intros
    | match goal with
      | |- stops_at_failure (if ?b then _ else _) => destruct b
      | |- stops_at_failure (match ?x with _ => _ end) => destruct x
      end ].

Lemma launch_loop_stops cycle p stids : forall i global_storm_num last,
  stops_at_failure (launch_loop K cycle p i global_storm_num last stids).
Proof.
  induction stids as [|stid rest IH]; intros i g last; cbn [launch_loop].
  - apply stops_ret.
  - apply stops_bind.
    + unfold obtain_conf, item. stops.
    + intros c. apply stops_bind.
      * unfold process_conf, nco_alert, write_holdvars, write_generated_holdvars,
          write_startfile, log_info.
        stops.
      * intros _. apply IH.
Qed.

Lemma main_stops argv : stops_at_failure (main K argv).
Proof.
  unfold main. apply stops_bind.
  { unfold log_info. stops. }
  intros _. apply stops_bind.
  { unfold parse_command_line, usage, print. stops. }
  intros [opts args]. unfold main_body. apply stops_bind.
  { unfold item. stops. }
  intros a0. apply stops_bind; [stops|].
  intros cycle. apply stops_bind; [unfold log_info; stops|].
  intros _. apply stops_bind; [stops|].
  intros [[ms mb] rn]. unfold launch_all. apply stops_bind.
  { unfold resolve_storms, log_info. stops. }
  intros [sids go]. apply stops_bind.
  { unfold prepare, last_item, log_info. stops. }
  intros p. apply stops_bind; [apply launch_loop_stops|].
  intros [c|]; [|apply stops_raise].
  unfold notify, flag_and_model, ecflow_event. stops.
Qed.

Lemma failure_is_last (before after b : list event) e e' ex :
  before ++ e :: after = b ++ [e'] ->
  Forall (fun e => raised e = None) b ->
  raised e = Some ex ->
  after = [] /\ e = e'.
Proof.
  revert b. induction before as [|y before IH]; intros [|x b] Heq Hb He; cbn [app] in Heq.
  - injection Heq as -> ->. now split.
  - injection Heq as -> _. inversion Hb; congruence.
  - injection Heq as _ Heq. now destruct before.
  - injection Heq as _ Heq. inversion Hb; subst. now apply (IH b).
Qed.

(** X21: [main] swallows no failure.  Whichever call into the launcher,
    the configuration, the file system, DBN or ecFlow raises an exception,
    it is the last call that [main] makes, and [main] ends with that very
    exception: no call is retried and none is made after it. *)
Theorem main_stops_at_first_failure argv w before e ex after :
  events (main K argv w) = before ++ e :: after ->
  raised e = Some ex ->
  after = [] /\ outcome (main K argv w) = Raise ex.
Proof.
  intros Heq He.
  destruct (main_stops argv w) as [Hclean|(b & e' & ex' & Hb & Hclean & He' & Hout)].
  - rewrite Heq in Hclean. apply Forall_app in Hclean. destruct Hclean as [_ Hclean].
    inversion Hclean; congruence.
  - rewrite Heq in Hb.
    destruct (failure_is_last _ _ _ _ _ _ Hb Hclean He) as [-> <-].
    split; [reflexivity|]. congruence.
Qed.

(** *** Where the configurations come from *)

Lemma always_ret P {A} (a : A) : always P (ret a : M A).
Proof. intros w. constructor. Qed.

Lemma always_read P {R} (f : world -> R) : always P (read f : M R).
Proof. intros w. constructor. Qed.

Lemma always_emit (P : event -> Prop) (e : event) : P e -> always P (emit e : M unit).
Proof. intros H w. now repeat constructor. Qed.

Lemma always_call (P : event -> Prop) {R} (f : ext world R) (ev : result R -> event) :
  (forall r, P (ev r)) -> always P (call f ev).
Proof.
  intros H w. unfold call. destruct (f w) as [r w']. now repeat constructor.
Qed.

Lemma always_bind P {A B} (m : M A) (k : A -> M B) :
  always P m -> (forall a, always P (k a)) -> always P (bind m k).
Proof.
  intros Hm Hk w. rewrite events_bind. apply Forall_app. split; [apply Hm|].
  destruct (outcome (m w)); [apply Hk | constructor].
Qed.

(** What follows the sanity check of [c] in the processing of [c]: no
    further sanity check, and holdvars texts made from [c] only. *)
Lemma after_check_about c :
  always (fun e => (forall c' r, e = EvMakeHoldvars c' r -> c' = c) /\
                   (forall c' r, e <> EvSanityCheck c' r))
         (nco_alert K c ;; holdvars <- write_holdvars K c ;;
          write_startfile K c holdvars).
Proof.
  unfold nco_alert, write_holdvars, write_generated_holdvars, write_startfile, log_info.
  repeat first
    [ apply always_bind
    | apply always_ret
    | apply always_read
    | apply always_emit; split; intros; congruence
    | apply always_call; intros; split; intros; congruence
    | progress intros
    | match goal with
      | |- always _ (if ?b then _ else _) => destruct b
      end ].
Qed.

Lemma split_at_event (t1 t2 a b : list event) e :
  t1 ++ t2 = a ++ e :: b ->
  (exists a', t1 = a ++ e :: a' /\ b = a' ++ t2) \/
  (exists b', a = t1 ++ b' /\ t2 = b' ++ e :: b).
Proof.
  revert a. induction t1 as [|x t1 IH]; intros a H; cbn [app] in H.
  - right. exists a. now split.
  - destruct a as [|y a]; cbn [app] in H.
    + injection H as -> <-. left. exists t1. now split.
    + injection H as -> H. destruct (IH a H) as [(a' & -> & ->)|(b' & -> & ->)].
      * left. exists a'. now split.
      * right. exists b'. now split.
Qed.

Lemma checked_before_use_app (t1 t2 : list event) :
  checked_before_use t1 -> checked_before_use t2 -> checked_before_use (t1 ++ t2).
Proof.
  intros H1 H2 c r a b Heq.
  destruct (split_at_event _ _ _ _ _ Heq) as [(a' & E & _)|(b' & -> & E)].
  - exact (H1 c r a a' E).
  - destruct (H2 c r b' b E) as (t0 & t0' & ->).
    exists (t1 ++ t0), t0'. now rewrite app_assoc.
Qed.

Lemma checked_before_use_silent (t : list event) :
  filter is_make_holdvars t = [] -> checked_before_use t.
Proof.
  intros H c r a b ->. exfalso.
  apply (not_In_silent is_make_holdvars _ (EvMakeHoldvars c r) H);
    [apply in_elt | reflexivity].
Qed.

Lemma process_conf_checked c w : checked_before_use (events (process_conf K c w)).
Proof.
  rewrite process_conf_run.
  destruct (sanity_check K c w) as [[[]|e] w1].
  - pose proof (after_check_about c w1) as Hall.
    match goal with |- context [bind ?m ?k w1] =>
      destruct (bind m k w1) as [[r w2] t] end.
    cbn [events snd] in *. intros c' r' a b Heq.
    destruct a as [|x a]; cbn [app] in Heq; [discriminate|].
    injection Heq as <- ->.
    rewrite Forall_forall in Hall.
    destruct (Hall (EvMakeHoldvars c' r') (in_elt _ _ _)) as [Hc _].
    rewrite (Hc c' r' eq_refl). exists [], a. reflexivity.
  - apply checked_before_use_silent. reflexivity.
Qed.

Lemma launch_loop_checked cycle p stids : forall i g last w,
  checked_before_use (events (launch_loop K cycle p i g last stids w)).
Proof.
  induction stids as [|stid rest IH]; intros i g last w.
  - apply checked_before_use_silent. reflexivity.
  - rewrite launch_loop_run.
    pose proof (obtain_conf_silent is_make_holdvars cycle p i stid (g + 1)
                  ltac:(kinds) w) as O.
    destruct (obtain_conf K cycle p i stid (g + 1) w) as [[[c|e] w1] t1];
      cbn [events snd] in O; [|now apply checked_before_use_silent].
    pose proof (process_conf_checked c w1) as Hp.
    destruct (process_conf K c w1) as [[[[]|e] w2] t2]; cbn [events snd] in Hp.
    + specialize (IH (S i) (g + 1)%Z (Some c) w2).
      destruct (launch_loop K cycle p (S i) (g + 1) (Some c) rest w2) as [[r w3] t3].
      cbn [events snd] in *.
      apply checked_before_use_app; [now apply checked_before_use_silent|].
      now apply checked_before_use_app.
    + cbn [events snd].
      apply checked_before_use_app; [now apply checked_before_use_silent | exact Hp].
Qed.

Lemma launch_all_checked cycle args ms mb rn w :
  checked_before_use (events (launch_all K cycle args ms mb rn w)).
Proof.
  rewrite launch_all_run.
  pose proof (resolve_storms_quiet is_make_holdvars args ms mb rn ltac:(kinds) w) as R.
  destruct (resolve_storms K args ms mb rn w) as [[[[sids go]|e] w1] t1];
    cbn [events snd] in R; [|now apply checked_before_use_silent].
  pose proof (prepare_silent is_make_holdvars cycle args sids go ltac:(kinds) w1) as P.
  destruct (prepare K cycle args sids go w1) as [[[p|e] w2] t2]; cbn [events snd] in P.
  2:{ cbn [events snd].
      apply checked_before_use_app; now apply checked_before_use_silent. }
  pose proof (launch_loop_checked cycle p (pl_stids p) 0 (pl_global_storm_num p)
                None w2) as L.
  destruct (launch_loop K cycle p 0 (pl_global_storm_num p) None (pl_stids p) w2)
    as [[[[c|]|e] w3] t3]; cbn [events snd] in L.
  - pose proof (notify_silent is_make_holdvars c ltac:(kinds) w3) as N.
    destruct (notify K c w3) as [[r w4] t4]. cbn [events snd] in *.
    repeat (apply checked_before_use_app;
            [first [assumption | now apply checked_before_use_silent]|]).
    now apply checked_before_use_silent.
  - cbn [events snd].
    repeat (apply checked_before_use_app;
            [first [assumption | now apply checked_before_use_silent]|]).
    assumption.
  - cbn [events snd].
    repeat (apply checked_before_use_app;
            [first [assumption | now apply checked_before_use_silent]|]).
    assumption.
Qed.

(** X22: holdvars texts come from checked configurations only.  In any
    run, whenever [make_holdvars] is called on a configuration, the
    sanity check of that very configuration has succeeded earlier in the
    run. *)
Theorem holdvars_only_from_checked_conf argv w c r t1 t2 :
  events (main K argv w) = t1 ++ EvMakeHoldvars c r :: t2 ->
  exists t0 t0', t1 = t0 ++ EvSanityCheck c (Ok tt) :: t0'.
Proof.
  revert c r t1 t2. change (checked_before_use (events (main K argv w))).
  destruct (main_cases argv w)
    as [[_ Hpre]|(opts & args & a0 & cycle & w1 & ms & mb & rn & _ & _ & _ & _ & ->)].
  - apply checked_before_use_silent, filter_nil_Forall.
    eapply Forall_impl; [|exact Hpre]. intros []; cbv; congruence.
  - pose proof (launch_all_checked cycle args ms mb rn w1) as H.
    destruct (launch_all K cycle args ms mb rn w1) as [[r w2] t].
    cbn [events snd] in *.
    apply checked_before_use_app; [|exact H].
    apply checked_before_use_silent. reflexivity.
Qed.

Lemma launched_before_check_app fc (t1 t2 : list event) :
  launched_before_check fc t1 -> launched_before_check fc t2 ->
  launched_before_check fc (t1 ++ t2).
Proof.
  intros H1 H2 c r a b Heq.
  destruct (split_at_event _ _ _ _ _ Heq) as [(a' & E & _)|(b' & -> & E)].
  - exact (H1 c r a a' E).
  - destruct (H2 c r b' b E) as [H|(lc & H)]; [now left|].
    right. exists lc. apply in_or_app. now right.
Qed.

Lemma launched_before_check_silent fc (t : list event) :
  filter is_sanity_check t = [] -> launched_before_check fc t.
Proof.
  intros H c r a b ->. exfalso.
  apply (not_In_silent is_sanity_check _ (EvSanityCheck c r) H);
    [apply in_elt | reflexivity].
Qed.

(** The processing of [c] starts with the sanity check of [c], the only
    one. *)
Lemma process_conf_first c w :
  exists r t',
    events (process_conf K c w) = EvSanityCheck c r :: t' /\
    filter is_sanity_check t' = [].
Proof.
  rewrite process_conf_run.
  destruct (sanity_check K c w) as [[[]|e] w1].
  - pose proof (artifacts_silent is_sanity_check c ltac:(kinds) w1) as Hs.
    match goal with |- context [bind ?m ?k w1] =>
      destruct (bind m k w1) as [[r w2] t] end.
    cbn [events snd] in *. now exists (Ok tt), t.
  - now exists (Raise e), [].
Qed.

(** One turn of the loop: the configuration that is checked is the one
    that the launch before it returned, or the fake storm's. *)
Lemma checked_after pre c r (t' : list event) fc :
  filter is_sanity_check pre = [] ->
  filter is_sanity_check t' = [] ->
  fc = Some c \/ (exists lc, In (EvLaunch lc (Ok c)) pre) ->
  launched_before_check fc (pre ++ EvSanityCheck c r :: t').
Proof.
  intros Hpre Ht' Hc c' r' a b Heq.
  destruct (split_at_event _ _ _ _ _ Heq) as [(a' & E & _)|(b' & -> & E)].
  - exfalso. apply (not_In_silent is_sanity_check _ (EvSanityCheck c' r') Hpre);
      [rewrite E; apply in_elt | reflexivity].
  - destruct b' as [|x b']; cbn [app] in E.
    + injection E as <- _ _. destruct Hc as [Hc|(lc & Hc)]; [now left|].
      right. exists lc. now rewrite app_nil_r.
    + injection E as _ E. exfalso.
      apply (not_In_silent is_sanity_check _ (EvSanityCheck c' r') Ht');
        [rewrite E; apply in_elt | reflexivity].
Qed.

Lemma launch_loop_launched cycle p stids : forall i g last w,
  launched_before_check (pl_fakestorm_conf p)
                        (events (launch_loop K cycle p i g last stids w)).
Proof.
  induction stids as [|stid rest IH]; intros i g last w.
  - apply launched_before_check_silent. reflexivity.
  - rewrite launch_loop_run.
    assert (Hturn : forall c w1 pre,
      filter is_sanity_check pre = [] ->
      pl_fakestorm_conf p = Some c \/ (exists lc, In (EvLaunch lc (Ok c)) pre) ->
      launched_before_check (pl_fakestorm_conf p)
        (events
           match process_conf K c w1 with
           | (Raise e, w2, t2) => (@Raise (option conf) e, w2, pre ++ t2)
           | (Ok _, w2, t2) =>
               let '(r, w3, t3) :=
                 launch_loop K cycle p (S i) (g + 1) (Some c) rest w2 in
               (r, w3, pre ++ t2 ++ t3)
           end)).
    { intros c w1 pre Hpre Hc.
      destruct (process_conf_first c w1) as (r & t' & Hp & Ht').
      destruct (process_conf K c w1) as [[[[]|e] w2] t2]; cbn [events snd] in Hp;
        subst t2.
      - specialize (IH (S i) (g + 1)%Z (Some c) w2).
        destruct (launch_loop K cycle p (S i) (g + 1) (Some c) rest w2) as [[r3 w3] t3].
        cbn [events snd] in *. rewrite app_assoc.
        apply launched_before_check_app; [|exact IH].
        now apply checked_after.
      - cbn [events snd]. now apply checked_after. }
    rewrite obtain_conf_run.
    destruct (differs stid (pl_fake_stid p)).
    + destruct (nth_error (pl_moreopts p) i) as [mo|];
        [|apply launched_before_check_silent; reflexivity].
      cbv zeta.
      match goal with |- context [launch K ?lc w] =>
        set (lc0 := lc); destruct (launch K lc0 w) as [[c|e] w1] end; cbn [fst snd].
      * apply Hturn; [reflexivity|]. right. exists lc0. now left.
      * apply launched_before_check_silent. reflexivity.
    + destruct (pl_fakestorm_conf p) as [c|] eqn:Hfc;
        [|apply launched_before_check_silent; reflexivity].
      apply (Hturn c w []); [reflexivity | now left].
Qed.

(** The plan of lines 185-207: no configuration has been checked yet, and
    the fake storm's configuration, if there is one, has been returned by
    a launch. *)
Lemma prepare_plan cycle args sids go w p w2 t2 :
  prepare K cycle args sids go w = (Ok p, w2, t2) ->
  filter is_sanity_check t2 = [] /\
  match pl_fakestorm_conf p with
  | Some fc => exists lc, In (EvLaunch lc (Ok fc)) t2
  | None => True
  end.
Proof.
  destruct go.
  - rewrite prepare_multi_run. cbv zeta.
    destruct (multistorm_parse_args K sids (tl args) w) as [[mp|e] w1]; [|discriminate].
    destruct (rev (ma_moreopts mp)) as [|mo mos]; [discriminate|].
    match goal with |- context [launch K ?lc w1] =>
      set (lc0 := lc); destruct (launch K lc0 w1) as [[fc|e] w3] end; [|discriminate].
    intros [= <- _ <-]. split; [reflexivity|].
    cbn [pl_fakestorm_conf]. exists lc0. cbn [In]. auto.
  - rewrite prepare_single_run.
    destruct (parse_launch_args K (tl args) w) as [[pa|e] w1]; [|discriminate].
    intros [= <- _ <-]. now split.
Qed.

Lemma launch_all_launched cycle args ms mb rn w :
  launched_before_check None (events (launch_all K cycle args ms mb rn w)).
Proof.
  rewrite launch_all_run.
  pose proof (resolve_storms_quiet is_sanity_check args ms mb rn ltac:(kinds) w) as R.
  destruct (resolve_storms K args ms mb rn w) as [[[[sids go]|e] w1] t1];
    cbn [events snd] in R; [|now apply launched_before_check_silent].
  pose proof (prepare_silent is_sanity_check cycle args sids go ltac:(kinds) w1) as P.
  destruct (prepare K cycle args sids go w1) as [[[p|e] w2] t2] eqn:Hprep;
    cbn [events snd] in P.
  2:{ cbn [events snd]. apply launched_before_check_silent.
      now rewrite filter_app, R, P. }
  destruct (prepare_plan _ _ _ _ _ _ _ _ Hprep) as [_ Hfc].
  pose proof (launch_loop_launched cycle p (pl_stids p) 0 (pl_global_storm_num p)
                None w2) as L.
  assert (Hloop : forall t3 : list event,
             launched_before_check (pl_fakestorm_conf p) t3 ->
             launched_before_check None (t1 ++ t2 ++ t3)).
  { intros t3 H3 c r a b Heq. rewrite app_assoc in Heq.
    destruct (split_at_event _ _ _ _ _ Heq) as [(a' & E & _)|(b' & -> & E)].
    - exfalso.
      apply (not_In_silent is_sanity_check (t1 ++ t2) (EvSanityCheck c r));
        [now rewrite filter_app, R, P | rewrite E; apply in_elt | reflexivity].
    - right. destruct (H3 c r b' b E) as [H|(lc & H)].
      + rewrite H in Hfc. destruct Hfc as (lc & Hlc). exists lc.
        apply in_or_app. left. apply in_or_app. now right.
      + exists lc. apply in_or_app. now right. }
  destruct (launch_loop K cycle p 0 (pl_global_storm_num p) None (pl_stids p) w2)
    as [[[[c|]|e] w3] t3]; cbn [events snd] in L.
  - pose proof (notify_silent is_sanity_check c ltac:(kinds) w3) as N.
    destruct (notify K c w3) as [[r w4] t4]. cbn [events snd] in *.
    replace (t1 ++ t2 ++ t3 ++ t4) with ((t1 ++ t2 ++ t3) ++ t4)
      by now rewrite <- !app_assoc.
    apply launched_before_check_app; [now apply Hloop|].
    now apply launched_before_check_silent.
  - cbn [events snd]. now apply Hloop.
  - cbn [events snd]. now apply Hloop.
Qed.

(** X23: only launched configurations are checked.  In any run, a
    configuration whose sanity check is called has been returned by a
    successful launch earlier in the run: by the launch of its storm or,
    for the fake storm, by the launch of the fake storm. *)
Theorem checked_conf_was_launched argv w c r t1 t2 :
  events (main K argv w) = t1 ++ EvSanityCheck c r :: t2 ->
  exists lc, In (EvLaunch lc (Ok c)) t1.
Proof.
  intros Heq.
  assert (H : launched_before_check None (events (main K argv w))).
  { destruct (main_cases argv w)
      as [[_ Hpre]|(opts & args & a0 & cycle & w1 & ms & mb & rn & _ & _ & _ & _ & ->)].
    - apply launched_before_check_silent, filter_nil_Forall.
      eapply Forall_impl; [|exact Hpre]. intros []; cbv; congruence.
    - pose proof (launch_all_launched cycle args ms mb rn w1) as H.
      destruct (launch_all K cycle args ms mb rn w1) as [[r0 w2] t].
      cbn [events snd] in *.
      apply launched_before_check_app; [|exact H].
      apply launched_before_check_silent. reflexivity. }
  destruct (H c r t1 t2 Heq) as [H'|H']; [discriminate | exact H'].
Qed.

(** *** Splitting the value of an option *)

(** X24: [v.split(",")], by which lines 148 and 150 take the value of an
    option apart.  There is always at least one piece, no piece contains
    the separator, and the pieces joined by the separator give the value
    back. *)
Theorem split_pieces sep v :
  split sep v <> [] /\
  Forall (fun piece => has_char sep piece = false) (split sep v) /\
  str_join sep (split sep v) = v.
Proof.
  split; [apply split_nonempty|]. split.
  - induction v as [|a v IH]; cbn [split]; [repeat constructor|].
    destruct (Ascii.eqb a sep) eqn:E; [now constructor|].
    destruct (split sep v) as [|piece pieces].
    + repeat constructor. cbn [has_char]. now rewrite E.
    + inversion IH; subst. constructor; [|assumption].
      cbn [has_char]. now rewrite E.
  - induction v as [|a v IH]; cbn [split]; [reflexivity|].
    pose proof (split_nonempty sep v) as Hne.
    destruct (Ascii.eqb_spec a sep) as [->|_].
    + destruct (split sep v) as [|piece pieces]; [congruence|].
      cbn [str_join String.append]. cbn [str_join] in IH. now rewrite IH.
    + destruct (split sep v) as [|piece pieces]; [congruence|].
      cbn [str_join] in *. destruct pieces; cbn [String.append]; now rewrite IH.
Qed.

End Properties.

(** *** The directory of the Python modules *)

Lemma rfind_absent c s : has_char c s = false -> Posixpath.rfind c s = (-1)%Z.
Proof.
  induction s as [|a s IH]; cbn [has_char Posixpath.rfind]; [reflexivity|].
  intros H. apply orb_false_iff in H. destruct H as [Ha Hs].
  now rewrite (IH Hs), Ha.
Qed.

Lemma rfind_last c s t :
  has_char c t = false ->
  Posixpath.rfind c (s ^^ String c t) = Z.of_nat (String.length s).
Proof.
  intros Ht. induction s as [|a s IH]; cbn [String.append Posixpath.rfind String.length].
  - now rewrite (rfind_absent c t Ht), Ascii.eqb_refl.
  - rewrite IH. destruct (Z.leb_spec 0 (Z.of_nat (String.length s))); lia.
Qed.

Lemma take_app s t : Posixpath.take (String.length s) (s ^^ t) = s.
Proof.
  induction s as [|a s IH]; cbn [String.length Posixpath.take String.append].
  - now destruct t.
  - now rewrite IH.
Qed.

Lemma append_assoc (s t u : string) : (s ^^ t) ^^ u = s ^^ t ^^ u.
Proof. induction s as [|a s IH]; cbn [String.append]; [reflexivity | now rewrite IH]. Qed.

Lemma append_length (s t : string) :
  String.length (s ^^ t) = (String.length s + String.length t)%nat.
Proof. induction s as [|a s IH]; cbn [String.append String.length]; [reflexivity | now rewrite IH]. Qed.

Lemma ends_with_char_app c s t :
  t <> "" -> ends_with_char c (s ^^ t) = ends_with_char c t.
Proof.
  intros Ht. induction s as [|a s IH]; cbn [String.append]; [reflexivity|].
  cbn [ends_with_char]. destruct (s ^^ t) eqn:E; [|exact IH].
  destruct s; [cbn in E; congruence | discriminate].
Qed.

Lemma ends_with_char_absent c s : has_char c s = false -> ends_with_char c s = false.
Proof.
  induction s as [|a s IH]; cbn [has_char ends_with_char]; [reflexivity|].
  intros H. apply orb_false_iff in H. destruct H as [Ha Hs].
  destruct s; [exact Ha | now apply IH].
Qed.

Lemma ends_with_char_times c n : n <> O -> ends_with_char c (Posixpath.times c n) = true.
Proof.
  induction n as [|n IH]; [congruence|]. intros _. cbn [Posixpath.times ends_with_char].
  destruct n; [apply Ascii.eqb_refl|]. now apply IH.
Qed.

Lemma rstrip_added c s :
  ends_with_char c s = false -> Posixpath.rstrip c (s ^^ String c "") = s.
Proof.
  induction s as [|a s IH]; cbn [String.append Posixpath.rstrip ends_with_char].
  - now rewrite Ascii.eqb_refl.
  - destruct s as [|b s].
    + intros Ha. cbn [String.append Posixpath.rstrip]. now rewrite Ascii.eqb_refl, Ha.
    + intros Hs. now rewrite (IH Hs).
Qed.

Lemma not_all_slashes c s : forall n,
  s <> "" -> ends_with_char c s = false -> s ^^ String c "" <> Posixpath.times c n.
Proof.
  induction s as [|a s IH]; intros n Hne Hend E; [congruence|].
  destruct n as [|n]; [discriminate|].
  cbn [String.append Posixpath.times] in E. injection E as -> E.
  destruct s as [|b s].
  - cbn in Hend. rewrite Ascii.eqb_refl in Hend. discriminate.
  - apply (IH n); [discriminate | exact Hend | exact E].
Qed.

(** The directory of a path [s/t], where [t] has no slash and [s] is not
    empty and does not end with one. *)
Lemma dirname_of_child s t :
  s <> "" -> ends_with_char "/" s = false -> has_char "/" t = false ->
  Posixpath.dirname (s ^^ String "/" t) = s.
Proof.
  intros Hne Hs Ht. unfold Posixpath.dirname. cbv zeta.
  rewrite (rfind_last "/" s t Ht).
  replace (Z.to_nat (Z.of_nat (String.length s) + 1)) with (String.length (s ^^ "/"))
    by (rewrite append_length; cbn; lia).
  replace (s ^^ String "/" t) with ((s ^^ "/") ^^ t)
    by (rewrite append_assoc; reflexivity).
  rewrite take_app.
  assert (H1 : String.eqb (s ^^ "/") "" = false).
  { destruct s; [congruence | reflexivity]. }
  assert (H2 : String.eqb (s ^^ "/") (Posixpath.times "/" (String.length (s ^^ "/")))
               = false).
  { apply String.eqb_neq. now apply not_all_slashes. }
  rewrite H1, H2. cbn [negb andb]. now apply rstrip_added.
Qed.

(** X25: where the script looks for [produtil] and [hafs] when neither
    [USHhafs] nor [HOMEhafs] is set.  For a script whose resolved path is
    [home/dir/file], it is the directory [home/ush], beside the directory
    of the script: the same as with [HOMEhafs] set to [home]. *)
Theorem guessed_ush_path environ home dir file :
  environ "USHhafs" = None ->
  environ "HOMEhafs" = None ->
  home <> "" -> ends_with_char "/" home = false ->
  dir <> "" -> has_char "/" dir = false ->
  has_char "/" file = false ->
  ush_path environ (home ^^ "/" ^^ dir ^^ "/" ^^ file) = home ^^ "/ush" /\
  ush_path (fun name => if String.eqb name "HOMEhafs" then Some home else None) file
  = home ^^ "/ush".
Proof.
  intros Hu Hh Hhome Hend Hdir Hslash Hfile.
  assert (Hjoin : Posixpath.join home "ush" = home ^^ "/ush").
  { unfold Posixpath.join. cbv zeta.
    replace (startswith "ush" "/") with false by reflexivity.
    rewrite Hend. destruct home; [congruence | reflexivity]. }
  split.
  - unfold ush_path. rewrite Hu, Hh. cbv zeta.
    replace (home ^^ "/" ^^ dir ^^ "/" ^^ file)
      with ((home ^^ "/" ^^ dir) ^^ String "/" file)
      by (rewrite !append_assoc; reflexivity).
    rewrite dirname_of_child; [| | |exact Hfile].
    + change (home ^^ "/" ^^ dir) with (home ^^ String "/" dir).
      now rewrite dirname_of_child.
    + destruct home; [congruence | discriminate].
    + change (home ^^ "/" ^^ dir) with (home ^^ String "/" dir).
      rewrite ends_with_char_app by discriminate.
      cbn [ends_with_char]. destruct dir; [congruence|].
      now apply ends_with_char_absent.
  - unfold ush_path. cbn. exact Hjoin.
Qed.


(** ** The properties on concrete command lines *)

Lemma single_storm_numbered_one_witness :
  exists cycle p c,
    filter is_storm_event (events (main Demo.K Demo.single_storm tt)) =
    [EvParse (tl Demo.single_storm) (Ok p);
     EvLaunch (LaunchCall (pa_infiles p) cycle (pa_stid p) (pa_moreopt p)
                          (pa_case_root p) false None 1)
              (Ok c);
     EvSanityCheck c (Ok tt)].
Proof.
  apply (single_storm_numbered_one _ _ _ _ Demo.K Demo.single_storm tt
           [] Demo.single_storm tt (events (main Demo.K Demo.single_storm tt)));
    vm_compute; reflexivity.
Defined.

(** C1 as the specification words it fails: the launch of the single
    storm of the first scenario has the number 1, not 2. *)
Lemma single_storm_not_numbered_two :
  outcome (main Demo.K Demo.single_storm tt) = Ok tt /\
  exists c,
    launch_calls (events (main Demo.K Demo.single_storm tt)) = [c] /\
    lc_stid c = "12L" /\
    lc_storm_num c = 1%Z /\
    lc_storm_num c <> 2%Z.
Proof.
  split; [vm_compute; reflexivity|].
  eexists. split; [vm_compute; reflexivity|].
  repeat split. discriminate.
Qed.




Lemma getopt_error_skips_usage_witness :
  main Demo.K ["-x"] tt =
    (Raise (AttributeError "'str' object has no attribute 'critical'"), tt,
     [Log ScriptLogger Info MsgTop; EvPrint "option -x not recognized"]) /\
  script Demo.K ["-x"] tt =
    (2%Z, tt,
     [EvSetup (Ok tt); Log JLogger Info MsgStarting;
      Log ScriptLogger Info MsgTop; EvPrint "option -x not recognized";
      Log JLogger Critical (MsgFailed "'str' object has no attribute 'critical'")]).
Proof.
  apply (getopt_error_skips_usage _ _ _ _ Demo.K ["-x"] tt tt
           "option -x not recognized");
    vm_compute; reflexivity.
Defined.

Lemma argument_count_check_witness :
  (main Demo.K ["2014062400"; "12L"; "HISTORY"] tt =
     (Raise (SystemExit 2), tt,
      [Log ScriptLogger Info MsgTop;
       Log ScriptLogger Critical MsgInvalidArguments;
       EvPrint usage_text]) /\
   script Demo.K ["2014062400"; "12L"; "HISTORY"] tt =
     (2%Z, tt,
      [EvSetup (Ok tt); Log JLogger Info MsgStarting;
       Log ScriptLogger Info MsgTop;
       Log ScriptLogger Critical MsgInvalidArguments;
       EvPrint usage_text])) /\
  (exists a0 r rest,
      hd_error Demo.single_storm = Some a0 /\
      to_datetime Demo.K a0 tt = r /\
      events (main Demo.K Demo.single_storm tt) =
        Log ScriptLogger Info MsgTop :: EvToDatetime a0 (fst r) :: rest).
Proof.
  split.
  - apply (argument_count_check _ _ _ _ Demo.K ["2014062400"; "12L"; "HISTORY"] tt tt
             [] ["2014062400"; "12L"; "HISTORY"]);
      vm_compute; reflexivity.
  - apply (argument_count_check _ _ _ _ Demo.K Demo.single_storm tt tt
             [] Demo.single_storm);
      vm_compute; reflexivity.
Defined.

Lemma ecflow_events_follow_flags_witness :
  exists c before g o ocean_model wv wave_model,
    events (main Demo.K Demo.single_storm tt) =
      before
      ++ [EvGetBool c "config" "run_gsi" (Ok g)]
      ++ (if g then [EvEcflow "Analysis" (Ok tt)] else [])
      ++ [EvGetBool c "config" "run_ocean" (Ok o)]
      ++ (if o then [EvGetStr c "config" "ocean_model" (Ok ocean_model)] else [])
      ++ (if o && String.eqb (upper ocean_model) "HYCOM"
          then [EvEcflow "Ocean" (Ok tt)] else [])
      ++ [EvGetBool c "config" "run_wave" (Ok wv)]
      ++ (if wv then [EvGetStr c "config" "wave_model" (Ok wave_model)] else [])
      ++ (if wv && String.eqb (upper wave_model) "WW3"
          then [EvEcflow "Wave" (Ok tt)] else []) /\
    filter is_ecflow before = [] /\
    (exists l, filter is_sanity_check before = l ++ [EvSanityCheck c (Ok tt)]) /\
    ecflow_names (events (main Demo.K Demo.single_storm tt)) =
      (if g then ["Analysis"] else [])
      ++ (if o && String.eqb (upper ocean_model) "HYCOM" then ["Ocean"] else [])
      ++ (if wv && String.eqb (upper wave_model) "WW3" then ["Wave"] else []).
Proof.
  apply (ecflow_events_follow_flags _ _ _ _ Demo.K Demo.single_storm tt tt
           (events (main Demo.K Demo.single_storm tt)));
    vm_compute; reflexivity.
Defined.



Lemma renumber_flag_only_reaches_priority_witness :
  outcome (main Demo.K ("-n" :: Demo.single_storm) tt) =
  outcome (main Demo.K Demo.single_storm tt) /\
  final_world (main Demo.K ("-n" :: Demo.single_storm) tt) =
  final_world (main Demo.K Demo.single_storm tt) /\
  without_option_echo (events (main Demo.K ("-n" :: Demo.single_storm) tt)) =
  without_option_echo (events (main Demo.K Demo.single_storm tt)).
Proof.
  apply (renumber_flag_only_reaches_priority _ _ _ _ Demo.K
           ("-n" :: Demo.single_storm) Demo.single_storm tt
           [("-n", "")] [] Demo.single_storm);
    vm_compute; reflexivity.
Defined.

(** C9 as the specification words it fails.  With [-n] the run is the
    same but for the log record that echoes the options.  The long form
    is declared as [renumber=], an option that takes a value: [--renumber]
    swallows the cycle, three positional arguments are left, and the
    script stops with the usage message where it ran to its end without
    the flag. *)
Lemma renumber_flag_changes_run :
  events (main Demo.K ("-n" :: Demo.single_storm) tt) <>
  events (main Demo.K Demo.single_storm tt) /\
  outcome (main Demo.K Demo.single_storm tt) = Ok tt /\
  outcome (main Demo.K ("--renumber" :: Demo.single_storm) tt) = Raise (SystemExit 2).
Proof.
  split; [|split]; vm_compute; [discriminate | reflexivity | reflexivity].
Qed.

Lemma single_storm_no_placeholder_witness :
  filter is_multi_parse (events (main Demo.K Demo.single_storm tt)) = [] /\
  (exists pl tp,
      prepare Demo.K "2014062400" Demo.single_storm [] false tt = (Ok pl, tt, tp) /\
      pl_fake_stid pl = None /\
      pl_fakestorm_conf pl = None /\
      pl_stids pl = ["12L"] /\
      differs "12L" (pl_fake_stid pl) = true) /\
  filter is_storm_event (events (main Demo.K Demo.single_storm tt)) =
  [EvParse ["12L"; "HISTORY"; "/parm"]
           (Ok (ParsedArgs "HISTORY" "/parm" ["/parm/hafs.conf"] "12L" []));
   EvLaunch (LaunchCall ["/parm/hafs.conf"] "2014062400" "12L" [] "HISTORY"
                        false None 1)
            (Ok "12L");
   EvSanityCheck "12L" (Ok tt)].
Proof.
  apply (single_storm_no_placeholder _ _ _ _ Demo.K Demo.single_storm tt
           [] Demo.single_storm);
    vm_compute; reflexivity.
Defined.

(** ** Further properties on concrete command lines *)

Lemma options_may_follow_arguments_witness :
  gnu_getopt None (Demo.single_storm ++ ["-m"; "07L,09L"]) short_opts long_opts =
  args_in_front Demo.single_storm
                (gnu_getopt None ["-m"; "07L,09L"] short_opts long_opts).
Proof.
  apply (options_may_follow_arguments Demo.single_storm ["-m"; "07L,09L"]).
  repeat first [apply Forall_nil | apply Forall_cons; [vm_compute; reflexivity|]].
Defined.

Lemma getopt_options_always_handled_witness :
  scan_opts [("-n", ""); ("-m", "07L,09L"); ("-M", "Atlantic")] [] [] true =
  Ok (option_values multistorms_keys
                    [("-n", ""); ("-m", "07L,09L"); ("-M", "Atlantic")],
      option_values multibasins_keys
                    [("-n", ""); ("-m", "07L,09L"); ("-M", "Atlantic")],
      negb (given renumber_keys [("-n", ""); ("-m", "07L,09L"); ("-M", "Atlantic")])).
Proof.
  apply (getopt_options_always_handled None Demo.storms_and_basins
           [("-n", ""); ("-m", "07L,09L"); ("-M", "Atlantic")] Demo.single_storm).
  vm_compute; reflexivity.
Defined.

Lemma priority_call_arguments_witness :
  filter is_priority (events (main Demo.K ("-n" :: Demo.two_basins) tt)) = [] \/
  (given multibasins_keys [("-n", ""); ("-M", "Atlantic,Pacific")] = true /\
   exists r,
     filter is_priority (events (main Demo.K ("-n" :: Demo.two_basins) tt)) =
     [EvPriority Demo.single_storm
                 (option_values multibasins_keys [("-n", ""); ("-M", "Atlantic,Pacific")])
                 (given multistorms_keys [("-n", ""); ("-M", "Atlantic,Pacific")]
                  || negb (given renumber_keys [("-n", ""); ("-M", "Atlantic,Pacific")]))
                 r]).
Proof.
  apply (priority_call_arguments _ _ _ _ Demo.K ("-n" :: Demo.two_basins) tt
           [("-n", ""); ("-M", "Atlantic,Pacific")] Demo.single_storm).
  vm_compute; reflexivity.
Defined.

Lemma multistorm_skips_single_parser_witness :
  filter is_parse (events (main Demo.K Cases.two_storms tt)) = [].
Proof.
  apply (multistorm_skips_single_parser _ _ _ _ Demo.K Cases.two_storms tt
           [("-m", "07L,09L")] Demo.single_storm);
    vm_compute; reflexivity.
Defined.

Lemma storm_list_passed_unchanged_witness :
  filter is_priority (events (main Demo.K Cases.two_storms tt)) = [] /\
  (filter is_multi_parse (events (main Demo.K Cases.two_storms tt)) = [] \/
   exists r,
     filter is_multi_parse (events (main Demo.K Cases.two_storms tt))
     = [EvMultiParse (option_values multistorms_keys [("-m", "07L,09L")])
                     (tl Demo.single_storm) r]).
Proof.
  apply (storm_list_passed_unchanged _ _ _ _ Demo.K Cases.two_storms tt
           [("-m", "07L,09L")] Demo.single_storm);
    vm_compute; reflexivity.
Defined.

Lemma posixly_correct_disables_options_witness :
  filter is_priority
    (events (main Cases.posix (Demo.single_storm ++ ["-m"; "07L,09L"]) tt)) = [] /\
  filter is_multi_parse
    (events (main Cases.posix (Demo.single_storm ++ ["-m"; "07L,09L"]) tt)) = [] /\
  (filter is_parse
     (events (main Cases.posix (Demo.single_storm ++ ["-m"; "07L,09L"]) tt)) = [] \/
   exists r,
     filter is_parse
       (events (main Cases.posix (Demo.single_storm ++ ["-m"; "07L,09L"]) tt))
     = [EvParse ["12L"; "HISTORY"; "/parm"; "-m"; "07L,09L"] r]).
Proof.
  apply (posixly_correct_disables_options _ _ _ _ Cases.posix tt "1"%char ""
           "2014062400" ["12L"; "HISTORY"; "/parm"; "-m"; "07L,09L"]);
    vm_compute; reflexivity.
Defined.

Lemma launches_of_a_run_witness :
  let c := LaunchCall ["/parm/hafs.conf"] "2014062400" "00L" ["00L"] "HISTORY"
                      true (@None string) 1 in
  let others := tl (filter is_launch (events (main Demo.K Demo.two_basins tt))) in
  lc_storm_num c = 1%Z /\
  lc_fakestorm_conf c = None /\
  (lc_fakestorm c = false -> others = []) /\
  Forall (is_loop_launch (lc_cycle c) (lc_infiles c) (lc_case_root c)
                         (returned_conf (Ok "00L")))
         others.
Proof.
  apply (launches_of_a_run _ _ _ _ Demo.K Demo.two_basins tt
           (LaunchCall ["/parm/hafs.conf"] "2014062400" "00L" ["00L"] "HISTORY"
                       true (@None string) 1)
           (Ok "00L")
           (tl (filter is_launch (events (main Demo.K Demo.two_basins tt))))).
  vm_compute; reflexivity.
Defined.

Lemma outputs_need_a_passed_check_witness :
  filter is_output (events (main Cases.insane Demo.single_storm tt)) = [] /\
  exists e, outcome (main Cases.insane Demo.single_storm tt) = Raise e.
Proof.
  apply (outputs_need_a_passed_check _ _ _ _ Cases.insane Demo.single_storm tt).
  vm_compute; reflexivity.
Defined.

Lemma dbn_alert_of_a_storm_witness :
  exists w1 alert after,
    sanity_check Cases.operational "12L" tt = (Ok tt, w1) /\
    events (process_conf Cases.operational "12L" tt)
      = EvSanityCheck "12L" (Ok tt) :: alert ++ after /\
    filter is_alert after = [] /\
    if run_envir_is_nco Cases.operational w1 then
      exists message alert_type upper_type present,
        (is_ascii alert_type = true -> upper_type = upper alert_type) /\
        alert =
          [EvStrinterp "12L" "wcoss_fcst_nco" "{messages}/message{storm_num}" []
                       (Ok message);
           EvStrinterp "12L" "config" "{RUN}_MESSAGE" [] (Ok alert_type);
           EvPathExists message (Ok present)]
          ++ (if present : bool
              then [EvDBNAlert ["MODEL"; upper_type; "{job}"; message] (Ok tt)]
              else [])
    else alert = [].
Proof.
  apply (dbn_alert_of_a_storm _ _ _ _ Cases.operational "12L" tt tt
           (events (process_conf Cases.operational "12L" tt))).
  vm_compute; reflexivity.
Defined.

Lemma start_file_names_first_holdvars_witness :
  exists first holdvars holdvars2 text text2 has startfile contents,
    filter is_startfile_event first = [] /\
    events (process_conf Cases.operational "12L" tt) =
      first
      ++ [EvStrinterp "12L" "dir" holdvars_template [] (Ok holdvars);
          Log ScriptLogger Info (MsgHoldvars holdvars);
          EvOpen holdvars (Ok tt);
          EvMakeHoldvars "12L" (Ok text);
          EvWrite holdvars text (Ok tt);
          EvStrinterp "12L" "dir" holdvars2_template [] (Ok holdvars2);
          Log ScriptLogger Info (MsgHoldvars2 holdvars2);
          EvOpen holdvars2 (Ok tt);
          EvMakeHoldvars "12L" (Ok text2);
          EvWrite holdvars2 text2 (Ok tt);
          EvHasOption "12L" "config" "startfile" (Ok has)]
      ++ (if has : bool
          then [EvGetStr "12L" "config" "startfile" (Ok startfile);
                Log ScriptLogger Info (MsgStartfile startfile);
                EvStrinterp "12L" "config" startdata [("holdvars", holdvars)]
                            (Ok contents);
                EvOpen startfile (Ok tt);
                EvWrite startfile contents (Ok tt)]
          else []).
Proof.
  apply (start_file_names_first_holdvars _ _ _ _ Cases.operational "12L" tt tt
           (events (process_conf Cases.operational "12L" tt))).
  vm_compute; reflexivity.
Defined.

Lemma no_alert_outside_operations_witness :
  filter is_alert (events (main Demo.K Demo.two_basins tt)) = [].
Proof.
  apply (no_alert_outside_operations _ _ _ _ Demo.K Demo.two_basins tt).
  intros w'. vm_compute; reflexivity.
Defined.

Lemma empty_storm_list_fails_witness :
  filter is_sanity_check (events (main Cases.no_storm Cases.two_storms tt)) = [] /\
  (exists e, outcome (main Cases.no_storm Cases.two_storms tt) = Raise e) /\
  forall c fc,
    In (EvLaunch c (Ok fc)) (events (main Cases.no_storm Cases.two_storms tt)) ->
    exists msg,
      outcome (main Cases.no_storm Cases.two_storms tt) = Raise (UnboundLocalError msg).
Proof.
  apply (empty_storm_list_fails _ _ _ _ Cases.no_storm Cases.two_storms tt
           ["07L"; "09L"] ["12L"; "HISTORY"; "/parm"]
           (MultiParsedArgs "HISTORY" "/parm" ["/parm/hafs.conf"] [] "00L" "12L" [[]])).
  - vm_compute. do 7 right. left. reflexivity.
  - reflexivity.
Defined.

Lemma main_stops_at_first_failure_witness :
  @nil (event string string (list string)) = [] /\
  outcome (main Cases.insane Demo.single_storm tt)
  = Raise (OtherError "sanity check failed").
Proof.
  apply (main_stops_at_first_failure _ _ _ _ Cases.insane Demo.single_storm tt
           (firstn 9 (events (main Cases.insane Demo.single_storm tt)))
           (EvSanityCheck "12L" (Raise (OtherError "sanity check failed")))
           (OtherError "sanity check failed") []);
    vm_compute; reflexivity.
Defined.

Lemma guessed_ush_path_witness :
  ush_path (fun _ => None) "/lfs/HAFS/scripts/exhafs_launch.py" = "/lfs/HAFS/ush" /\
  ush_path (fun name => if String.eqb name "HOMEhafs" then Some "/lfs/HAFS" else None)
           "exhafs_launch.py"
  = "/lfs/HAFS/ush".
Proof.
  apply (guessed_ush_path (fun _ => None) "/lfs/HAFS" "scripts" "exhafs_launch.py");
    first [reflexivity | discriminate].
Defined.

Lemma holdvars_only_from_checked_conf_witness :
  exists t0 t0',
    firstn 13 (events (main Demo.K Demo.single_storm tt))
    = t0 ++ EvSanityCheck "12L" (Ok tt) :: t0'.
Proof.
  apply (holdvars_only_from_checked_conf _ _ _ _ Demo.K Demo.single_storm tt
           "12L" (Ok "export STORMID=12L")
           (firstn 13 (events (main Demo.K Demo.single_storm tt)))
           (skipn 14 (events (main Demo.K Demo.single_storm tt)))).
  vm_compute; reflexivity.
Defined.

Lemma checked_conf_was_launched_witness :
  exists lc,
    In (EvLaunch lc (Ok "12L")) (firstn 9 (events (main Demo.K Demo.single_storm tt))).
Proof.
  apply (checked_conf_was_launched _ _ _ _ Demo.K Demo.single_storm tt
           "12L" (Ok tt)
           (firstn 9 (events (main Demo.K Demo.single_storm tt)))
           (skipn 10 (events (main Demo.K Demo.single_storm tt)))).
  vm_compute; reflexivity.
Defined.
